(** * Bottled Water for Kafka: the transactional forwarding pipeline

    A shallow embedding of [kafka/bottledwater.c]: the ring of in-flight
    transactions, the producer path ([send_kafka_msg]), the delivery
    callback ([on_deliver_msg]), the checkpointer ([maybe_checkpoint]), the
    frame-reader callbacks, the topic naming rule
    ([topic_name_from_avro_schema]) and the command-line options
    ([parse_options]).

    Conventions of the embedding:
    - C [int], [uint32_t] and [uint64_t] values are [Z]; arithmetic on
      [int] is wrapped to 32 bits by [int_wrap] (signed overflow is
      undefined in C; two's complement wrap-around is what the usual
      compilers produce), and [%] is C's truncating remainder [Z.rem];
    - a pointer into [xact_list] is the index of the slot it points to;
    - the process, the broker client and the replication client are made
      explicit: a callback yields an [outcome], which is a normal return, a
      process exit through [exit_nicely], or a loop still waiting when the
      scripted environment has nothing more to offer. *)

From Stdlib Require Import ZArith Lia List Bool Ascii String.
From stdpp Require Import base list gmap strings.
Import ListNotations.

Local Open Scope Z_scope.

(** ** Constants and machine integers *)

Definition MAX_IN_FLIGHT_TRANSACTIONS : Z := 1000.
(** leave room for one extra empty element so the circular buffer can
    distinguish between empty and full *)
Definition XACT_LIST_LEN : Z := MAX_IN_FLIGHT_TRANSACTIONS + 1.
Definition TABLE_NAME_BUFFER_LENGTH : Z := 128.

Definition INT_MIN : Z := - 2 ^ 31.
Definition INT_MAX : Z := 2 ^ 31 - 1.

(** The value of a C [int] expression whose mathematical result is [z]. *)
Definition int_wrap (z : Z) : Z := (z + 2 ^ 31) mod 2 ^ 32 - 2 ^ 31.

(** ** Data model *)

Inductive format_t : Set :=
| OUTPUT_FORMAT_UNDEFINED
| OUTPUT_FORMAT_AVRO
| OUTPUT_FORMAT_JSON.

Inductive error_policy_t : Set :=
| ERROR_POLICY_UNDEFINED
| ERROR_POLICY_LOG
| ERROR_POLICY_EXIT.

Record transaction_info : Set := mk_xact {
  xid : Z;             (* Postgres transaction identifier *)
  recvd_events : Z;    (* row-level events received so far for this transaction *)
  pending_events : Z;  (* row-level events waiting to be acknowledged by Kafka *)
  commit_lsn : Z       (* WAL position of the transaction's commit event *)
}.

(** What [memset] leaves in a slot. *)
Definition xact_zero : transaction_info := mk_xact 0 0 0 0.

#[global] Instance transaction_info_inhabited : Inhabited transaction_info :=
  populate xact_zero.

(** The fields of [table_metadata] (declared in [table_mapper.h]) that the
    producer reads; the topic handle is represented by the topic's name. *)
Record table_metadata : Set := mk_table {
  table_relid : Z;
  topic : string;
  key_schema_id : Z;
  row_schema_id : Z
}.

Definition buffer : Set := list Byte.byte.

(** [msg_envelope]: the [context] field is the one producer context and is
    left out; [env_xact] is the slot the envelope's [xact] pointer aims at. *)
Record msg_envelope : Set := mk_envelope {
  env_wal_pos : Z;
  env_relid : Z;
  env_xact : nat
}.

(** The fields of [rd_kafka_message_t] that the producer sets or reads. *)
Record rd_kafka_message : Set := mk_message {
  msg_rkt : string;
  msg_payload : option buffer;
  msg_key : option buffer;
  msg_private : msg_envelope;
  msg_err : Z
}.

Inductive log_level : Set := LOG_DEBUG | LOG_INFO | LOG_WARN | LOG_ERROR | LOG_FATAL.

(** One constructor per format string of the source. *)
Inductive log_text : Set :=
| TxtSnapshotNotFirst
| TxtCapturingSnapshot
| TxtSnapshotComplete (wal_pos : Z)
| TxtMismatchedCommit (in_flight committed : Z)
| TxtNoRegisteredSchema (relid : Z)
| TxtEncodeJson (err : Z) (topic_name : string)
| TxtEncodeAvro (err : Z) (topic_name : string)
| TxtInvalidOutputFormat
| TxtProduceFailed (topic_name : string)
| TxtDeliveryFailed (topic_name : string) (err : Z)
| TxtInvalidErrorPolicy
| TxtClientError
| TxtMapperError
| TxtCommitsNotInWalOrder (checkpoint_lsn commit : Z)
| TxtCheckpointing (events xact_id commit : Z)
| TxtShutdownDuringBackpressure (sig : Z)
| TxtKeepaliveFailed
| TxtDroppingSlot
| TxtSlotDropFailed.

Definition log_record : Set := log_level * log_text.

(** [producer_context], together with the parts of the client context, of
    the broker client and of the heap that the callbacks touch. *)
Record producer_context : Type := mk_context {
  xact_list : list transaction_info;     (* circular buffer *)
  xact_head : Z;                         (* index currently being received from PG *)
  xact_tail : Z;                         (* oldest index not yet acknowledged by Kafka *)
  fsync_lsn : Z;                         (* context->client->repl.fsync_lsn *)
  taking_snapshot : bool;                (* context->client->taking_snapshot *)
  slot_drop_err : Z;                     (* what replication_slot_drop returns on
                                            context->client->repl, should
                                            exit_nicely call it *)
  mapper : gmap Z table_metadata;        (* topics and schemas of the tables seen *)
  output_format : format_t;
  error_policy : error_policy_t;
  kafka_queue : list rd_kafka_message;   (* accepted by the broker client, not yet reported *)
  produced : list rd_kafka_message;      (* every message accepted so far, newest first *)
  envelopes : list msg_envelope;         (* envelopes allocated and not yet freed *)
  log : list log_record                  (* newest first *)
}.

Section Setters.
Variable c : producer_context.

Definition with_xact_list (l : list transaction_info) : producer_context :=
  mk_context l (xact_head c) (xact_tail c) (fsync_lsn c) (taking_snapshot c)
    (slot_drop_err c) (mapper c) (output_format c) (error_policy c) (kafka_queue c)
    (produced c) (envelopes c) (log c).
Definition with_xact_head (h : Z) : producer_context :=
  mk_context (xact_list c) h (xact_tail c) (fsync_lsn c) (taking_snapshot c)
    (slot_drop_err c) (mapper c) (output_format c) (error_policy c) (kafka_queue c)
    (produced c) (envelopes c) (log c).
Definition with_xact_tail (t : Z) : producer_context :=
  mk_context (xact_list c) (xact_head c) t (fsync_lsn c) (taking_snapshot c)
    (slot_drop_err c) (mapper c) (output_format c) (error_policy c) (kafka_queue c)
    (produced c) (envelopes c) (log c).
Definition with_fsync_lsn (l : Z) : producer_context :=
  mk_context (xact_list c) (xact_head c) (xact_tail c) l (taking_snapshot c)
    (slot_drop_err c) (mapper c) (output_format c) (error_policy c) (kafka_queue c)
    (produced c) (envelopes c) (log c).
Definition with_taking_snapshot (b : bool) : producer_context :=
  mk_context (xact_list c) (xact_head c) (xact_tail c) (fsync_lsn c) b
    (slot_drop_err c) (mapper c) (output_format c) (error_policy c) (kafka_queue c)
    (produced c) (envelopes c) (log c).
Definition with_mapper (m : gmap Z table_metadata) : producer_context :=
  mk_context (xact_list c) (xact_head c) (xact_tail c) (fsync_lsn c) (taking_snapshot c)
    (slot_drop_err c) m (output_format c) (error_policy c) (kafka_queue c)
    (produced c) (envelopes c) (log c).
Definition with_kafka_queue (q : list rd_kafka_message) : producer_context :=
  mk_context (xact_list c) (xact_head c) (xact_tail c) (fsync_lsn c) (taking_snapshot c)
    (slot_drop_err c) (mapper c) (output_format c) (error_policy c) q
    (produced c) (envelopes c) (log c).
Definition with_produced (p : list rd_kafka_message) : producer_context :=
  mk_context (xact_list c) (xact_head c) (xact_tail c) (fsync_lsn c) (taking_snapshot c)
    (slot_drop_err c) (mapper c) (output_format c) (error_policy c) (kafka_queue c)
    p (envelopes c) (log c).
Definition with_envelopes (e : list msg_envelope) : producer_context :=
  mk_context (xact_list c) (xact_head c) (xact_tail c) (fsync_lsn c) (taking_snapshot c)
    (slot_drop_err c) (mapper c) (output_format c) (error_policy c) (kafka_queue c)
    (produced c) e (log c).
Definition with_log (l : list log_record) : producer_context :=
  mk_context (xact_list c) (xact_head c) (xact_tail c) (fsync_lsn c) (taking_snapshot c)
    (slot_drop_err c) (mapper c) (output_format c) (error_policy c) (kafka_queue c)
    (produced c) (envelopes c) l.
End Setters.

Definition write_log (lvl : log_level) (txt : log_text) (c : producer_context)
  : producer_context :=
  with_log c ((lvl, txt) :: log c).

(** [context->xact_list[i]] and the assignment to it. *)
Definition xact_at (c : producer_context) (i : nat) : transaction_info :=
  xact_list c !!! i.

Definition set_xact_at (c : producer_context) (i : nat) (x : transaction_info)
  : producer_context :=
  with_xact_list c (<[i := x]> (xact_list c)).

(** ** The circular buffer *)

Definition xact_list_length (c : producer_context) : Z :=
  Z.rem (int_wrap (XACT_LIST_LEN + xact_head c + 1 - xact_tail c)) XACT_LIST_LEN.

Definition xact_list_full (c : producer_context) : bool :=
  xact_list_length c =? XACT_LIST_LEN - 1.

Definition xact_list_empty (c : producer_context) : bool :=
  xact_list_length c =? 0.

(** The indices are in range and the array has its declared size. *)
Definition ring_wf (c : producer_context) : Prop :=
  0 <= xact_head c < XACT_LIST_LEN /\
  0 <= xact_tail c < XACT_LIST_LEN /\
  Z.of_nat (length (xact_list c)) = XACT_LIST_LEN.

(** ** Outcomes of a callback *)

Inductive outcome (A : Type) : Type :=
| Returned (ret : A) (c : producer_context)   (* the function returned [ret] *)
| Exited (status : Z) (c : producer_context)  (* [exit_nicely] ended the process *)
| Blocked (c : producer_context).             (* still looping, environment script used up *)

Arguments Returned {A} ret c.
Arguments Exited {A} status c.
Arguments Blocked {A} c.

Definition bind {A B} (o : outcome A) (k : A -> producer_context -> outcome B)
  : outcome B :=
  match o with
  | Returned r c => k r c
  | Exited s c => Exited s c
  | Blocked c => Blocked c
  end.

Definition final_context {A} (o : outcome A) : producer_context :=
  match o with
  | Returned _ c => c
  | Exited _ c => c
  | Blocked c => c
  end.

(** [exit_nicely]: when a snapshot has not completed and the status is
    not 0, the replication slot is dropped, and an error is logged if the
    drop fails; the frees that follow do not concern the model. *)
Definition exit_nicely {A} (c : producer_context) (status : Z) : outcome A :=
  Exited status
    (if taking_snapshot c && negb (status =? 0)
     then
       let c1 := write_log LOG_INFO TxtDroppingSlot c in
       if negb (slot_drop_err c1 =? 0)
       then write_log LOG_ERROR TxtSlotDropFailed c1
       else c1
     else c).

(** The [fatal_error] macro. *)
Definition fatal_error {A} (c : producer_context) (txt : log_text) : outcome A :=
  exit_nicely (write_log LOG_FATAL txt c) 1.

Definition handle_error (c : producer_context) (err : Z) (txt : log_text) : outcome Z :=
  match error_policy c with
  | ERROR_POLICY_LOG => Returned 0 (write_log LOG_ERROR txt c)
  | ERROR_POLICY_EXIT => fatal_error c txt
  | ERROR_POLICY_UNDEFINED => fatal_error c TxtInvalidErrorPolicy
  end.

(** ** The checkpointer *)

(** The condition of the [while] in [maybe_checkpoint]. *)
Definition checkpoint_ready (x : transaction_info) : bool :=
  (pending_events x =? 0) && ((commit_lsn x >? 0) || (xid x =? 0)).

(** One pass through the body of the loop, up to and including the advance
    of [xact_tail]. *)
Definition checkpoint_slot (c : producer_context) : producer_context :=
  let xact := xact_at c (Z.to_nat (xact_tail c)) in
  let c1 := if fsync_lsn c >? commit_lsn xact
            then write_log LOG_WARN
                   (TxtCommitsNotInWalOrder (fsync_lsn c) (commit_lsn xact)) c
            else c in
  let c2 := if fsync_lsn c1 <? commit_lsn xact
            then write_log LOG_DEBUG
                   (TxtCheckpointing (recvd_events xact) (xid xact) (commit_lsn xact)) c1
            else c1 in
  let c3 := with_fsync_lsn c2 (commit_lsn xact) in
  let c4 := if (xid xact =? 0) && (commit_lsn xact >? 0)
            then with_taking_snapshot c3 false
            else c3 in
  with_xact_tail c4 (Z.rem (int_wrap (xact_tail c4 + 1)) XACT_LIST_LEN).

(** The loop itself.  [fuel] bounds the number of passes; the loop leaves
    through its condition or its [break] within [XACT_LIST_LEN] passes
    (lemma [maybe_checkpoint_unfold] below), so the bound is never what
    stops it. *)
Fixpoint maybe_checkpoint_loop (fuel : nat) (c : producer_context) : producer_context :=
  match fuel with
  | O => c
  | S fuel' =>
      if checkpoint_ready (xact_at c (Z.to_nat (xact_tail c))) then
        let c' := checkpoint_slot c in
        if xact_list_empty c' then c' else maybe_checkpoint_loop fuel' c'
      else c
  end.

Definition maybe_checkpoint (c : producer_context) : producer_context :=
  maybe_checkpoint_loop (Z.to_nat XACT_LIST_LEN) c.

(** ** The broker client and the delivery callback *)

#[global] Instance msg_envelope_eq_dec : EqDecision msg_envelope.
Proof. solve_decision. Defined.

(** [free(envelope)]: one allocation of the envelope leaves the heap. *)
Fixpoint free_envelope (e : msg_envelope) (heap : list msg_envelope) : list msg_envelope :=
  match heap with
  | [] => []
  | x :: rest => if decide (x = e) then rest else x :: free_envelope e rest
  end.

(** [envelope->xact->pending_events--] *)
Definition ack_pending (c : producer_context) (slot : nat) : producer_context :=
  let xact := xact_at c slot in
  set_xact_at c slot
    (mk_xact (xid xact) (recvd_events xact) (int_wrap (pending_events xact - 1))
       (commit_lsn xact)).

(** Called by the Kafka producer once per message sent, to report the
    delivery status (whether success or failure). *)
Definition on_deliver_msg (c : producer_context) (msg : rd_kafka_message) : outcome unit :=
  let envelope := msg_private msg in
  bind
    (if negb (msg_err msg =? 0)
     then handle_error c (msg_err msg) (TxtDeliveryFailed (msg_rkt msg) (msg_err msg))
     else Returned 0 c)
    (fun err c1 =>
       let c2 := if err =? 0
                 then maybe_checkpoint (ack_pending c1 (env_xact envelope))
                 else c1 in
       Returned tt (with_envelopes c2 (free_envelope envelope (envelopes c2)))).

(** What the environment does during one [rd_kafka_poll] followed by the
    rest of [backpressure]: the delivery reports that fire (position in the
    broker queue and error code), the signal seen in
    [received_shutdown_signal], and the status of
    [replication_stream_keepalive]. *)
Record poll_env : Set := mk_poll {
  poll_reports : list (nat * Z);
  shutdown_signal : Z;
  keepalive_err : Z
}.

(** [rd_kafka_poll]: each report takes its message out of the queue and
    runs the delivery callback on it; a report for a position that holds no
    message is no report. *)
Fixpoint rd_kafka_poll (reports : list (nat * Z)) (c : producer_context) : outcome unit :=
  match reports with
  | [] => Returned tt c
  | (i, e) :: rest =>
      match kafka_queue c !! i with
      | None => rd_kafka_poll rest c
      | Some m =>
          match on_deliver_msg (with_kafka_queue c (delete i (kafka_queue c)))
                  (mk_message (msg_rkt m) (msg_payload m) (msg_key m) (msg_private m) e) with
          | Returned _ c' => rd_kafka_poll rest c'
          | Exited s c' => Exited s c'
          | Blocked c' => Blocked c'
          end
      end
  end.

Definition backpressure (c : producer_context) (env : poll_env) : outcome unit :=
  bind (rd_kafka_poll (poll_reports env) c)
    (fun _ c1 =>
       if negb (shutdown_signal env =? 0)
       then exit_nicely
              (write_log LOG_INFO (TxtShutdownDuringBackpressure (shutdown_signal env)) c1) 0
       else if negb (keepalive_err env =? 0)
       then fatal_error c1 TxtKeepaliveFailed
       else Returned tt c1).

(** ** Begin and commit *)

(** [while (xact_list_full(context)) backpressure(context);] *)
Fixpoint await_free_slot (polls : list poll_env) (c : producer_context) : outcome unit :=
  if xact_list_full c then
    match polls with
    | [] => Blocked c
    | env :: rest =>
        match backpressure c env with
        | Returned _ c' => await_free_slot rest c'
        | Exited s c' => Exited s c'
        | Blocked c' => Blocked c'
        end
    end
  else Returned tt c.

(** The tail of [on_begin_txn]: advance the head and initialise its slot. *)
Definition open_slot (c : producer_context) (xid : Z) : producer_context :=
  let c1 := with_xact_head c (Z.rem (int_wrap (xact_head c + 1)) XACT_LIST_LEN) in
  set_xact_at c1 (Z.to_nat (xact_head c1)) (mk_xact xid 0 0 0).

Definition on_begin_txn (c : producer_context) (wal_pos xid : Z) (polls : list poll_env)
  : outcome Z :=
  bind
    (if xid =? 0 then
       if negb ((xact_tail c =? 0) && xact_list_empty c)
       then fatal_error c TxtSnapshotNotFirst
       else Returned tt (write_log LOG_INFO TxtCapturingSnapshot c)
     else Returned tt c)
    (fun _ c1 =>
       bind (await_free_slot polls c1)
         (fun _ c2 => Returned 0 (open_slot c2 xid))).

(** [xact->commit_lsn = wal_pos] on the slot at the head. *)
Definition record_commit (c : producer_context) (wal_pos : Z) : producer_context :=
  let slot := Z.to_nat (xact_head c) in
  let xact := xact_at c slot in
  set_xact_at c slot
    (mk_xact (xid xact) (recvd_events xact) (pending_events xact) wal_pos).

Definition on_commit_txn (c : producer_context) (wal_pos xid' : Z) : outcome Z :=
  let xact := xact_at c (Z.to_nat (xact_head c)) in
  let c1 := if xid' =? 0 then write_log LOG_INFO (TxtSnapshotComplete wal_pos) c else c in
  if negb (xid' =? xid xact)
  then fatal_error c1 (TxtMismatchedCommit (xid xact) xid')
  else Returned 0 (maybe_checkpoint (record_commit c1 wal_pos)).

(** ** The producer path *)

(** One call of [rd_kafka_produce] as the environment decides it: the
    return value, whether [errno] reads as "queue full" afterwards, and
    what happens during the [backpressure] that may follow. *)
Record produce_attempt : Set := mk_attempt {
  produce_err : Z;
  errno_queue_full : bool;
  attempt_poll : poll_env
}.

(** Modelled from the spec: [table_mapper_lookup] of [table_mapper.c], which
    is a separate file of the repository; it returns the cached metadata of the
    relation, or nothing when the relation has no registered schema. *)
Definition table_mapper_lookup (m : gmap Z table_metadata) (relid : Z)
  : option table_metadata :=
  m !! relid.

(** A message the broker client accepted joins its queue. *)
Definition rd_kafka_accept (c : producer_context) (m : rd_kafka_message) : producer_context :=
  with_produced (with_kafka_queue c (kafka_queue c ++ [m])) (m :: produced c).

(** [xact->recvd_events++; xact->pending_events++;] and the allocation of
    the envelope, with which [send_kafka_msg] starts. *)
Definition count_event (c : producer_context) (slot : nat) : producer_context :=
  let xact := xact_at c slot in
  set_xact_at c slot
    (mk_xact (xid xact) (int_wrap (recvd_events xact + 1))
       (int_wrap (pending_events xact + 1)) (commit_lsn xact)).

Definition malloc_envelope (c : producer_context) (e : msg_envelope) : producer_context :=
  with_envelopes c (e :: envelopes c).

(** The enqueue loop of [send_kafka_msg]. *)
Fixpoint produce_loop (script : list produce_attempt) (c : producer_context)
    (table : table_metadata) (key val : option buffer) (envelope : msg_envelope)
  : outcome Z :=
  match script with
  | [] => Blocked c
  | a :: rest =>
      let err := produce_err a in
      let c1 := if err =? 0
                then rd_kafka_accept c (mk_message (topic table) val key envelope 0)
                else c in
      if errno_queue_full a then
        match backpressure c1 (attempt_poll a) with
        | Returned _ c2 =>
            if err =? 0 then Returned 0 c2
            else produce_loop rest c2 table key val envelope
        | Exited s c2 => Exited s c2
        | Blocked c2 => Blocked c2
        end
      else if negb (err =? 0)
      then Returned err (write_log LOG_ERROR (TxtProduceFailed (topic table)) c1)
      else Returned 0 c1
  end.

Section Producer.

(** The encoders live in [json.c] and [registry.c], and the frame
    reader's return code in [protocol_client.h]: other files of the
    repository, whose contents are parameters here.  An encoder takes the
    table's metadata and the key and value as received, and yields its
    status and the two encoded buffers. *)
Variable FRAME_READER_SYNC_PENDING : Z.
Variable json_encode_msg :
  table_metadata -> option buffer -> option buffer -> Z * option buffer * option buffer.
Variable schema_registry_encode_msg :
  Z -> Z -> option buffer -> option buffer -> Z * option buffer * option buffer.

Definition send_kafka_msg (c : producer_context) (wal_pos relid : Z)
    (key_bin val_bin : option buffer) (script : list produce_attempt) : outcome Z :=
  let slot := Z.to_nat (xact_head c) in
  let c1 := count_event c slot in
  let envelope := mk_envelope wal_pos relid slot in
  let c2 := malloc_envelope c1 envelope in
  match table_mapper_lookup (mapper c2) relid with
  | None => Returned 1 (write_log LOG_ERROR (TxtNoRegisteredSchema relid) c2)
  | Some table =>
      match output_format c2 with
      | OUTPUT_FORMAT_JSON =>
          let '(err, key, val) := json_encode_msg table key_bin val_bin in
          if negb (err =? 0)
          then Returned err (write_log LOG_ERROR (TxtEncodeJson err (topic table)) c2)
          else produce_loop script c2 table key val envelope
      | OUTPUT_FORMAT_AVRO =>
          let '(err, key, val) :=
            schema_registry_encode_msg (key_schema_id table) (row_schema_id table)
              key_bin val_bin in
          if negb (err =? 0)
          then Returned err (write_log LOG_ERROR (TxtEncodeAvro err (topic table)) c2)
          else produce_loop script c2 table key val envelope
      | OUTPUT_FORMAT_UNDEFINED => fatal_error c2 TxtInvalidOutputFormat
      end
  end.

(** The encoder that [send_kafka_msg] runs under the configured format. *)
Definition encode_for (c : producer_context) (table : table_metadata)
    (key_bin val_bin : option buffer) : Z * option buffer * option buffer :=
  match output_format c with
  | OUTPUT_FORMAT_JSON => json_encode_msg table key_bin val_bin
  | _ => schema_registry_encode_msg (key_schema_id table) (row_schema_id table)
           key_bin val_bin
  end.

(** The row callbacks, as built without the [TTA_VNV] audit switch. *)
Definition on_insert_row (c : producer_context) (wal_pos relid : Z)
    (key_bin new_bin : option buffer) (script : list produce_attempt) : outcome Z :=
  send_kafka_msg c wal_pos relid key_bin new_bin script.

Definition on_update_row (c : producer_context) (wal_pos relid : Z)
    (key_bin old_bin new_bin : option buffer) (script : list produce_attempt)
  : outcome Z :=
  send_kafka_msg c wal_pos relid key_bin new_bin script.

Definition on_delete_row (c : producer_context) (wal_pos relid : Z)
    (key_bin old_bin : option buffer) (script : list produce_attempt) : outcome Z :=
  match key_bin with
  | Some _ => send_kafka_msg c wal_pos relid key_bin None script
  | None => Returned 0 c (* delete on unkeyed table --> can't do anything *)
  end.

Definition on_keepalive (c : producer_context) (wal_pos : Z) : outcome Z :=
  if xact_list_empty c then Returned 0 c
  else Returned FRAME_READER_SYNC_PENDING c.

Definition on_client_error (c : producer_context) (err : Z) : outcome Z :=
  handle_error c err TxtClientError.

(** What one call of [table_mapper_update] (in [table_mapper.c]) leaves
    behind: the mapper as it is after the call, and whether a table, not
    [NULL], came back. *)
Record mapper_update : Type := mk_update {
  updated_mapper : gmap Z table_metadata;
  update_ok : bool
}.

(** [on_table_schema] from the call of [table_mapper_update] on. *)
Definition table_schema_updated (c : producer_context) (answer : mapper_update)
  : outcome Z :=
  let c1 := with_mapper c (updated_mapper answer) in
  if update_ok answer then Returned 0 c1
  else Returned 1 (write_log LOG_ERROR TxtMapperError c1).

(** ** The stream of events *)

Inductive event : Type :=
| BeginTxn (wal_pos xid : Z) (polls : list poll_env)
| CommitTxn (wal_pos xid : Z)
| InsertRow (wal_pos relid : Z) (key_bin new_bin : option buffer)
    (script : list produce_attempt)
| UpdateRow (wal_pos relid : Z) (key_bin old_bin new_bin : option buffer)
    (script : list produce_attempt)
| DeleteRow (wal_pos relid : Z) (key_bin old_bin : option buffer)
    (script : list produce_attempt)
| Keepalive (wal_pos : Z)
| TableSchema (wal_pos relid : Z) (answer : mapper_update)
    (* [on_table_schema] with a topic name that is defined *)
| ClientError (err : Z)
| Delivery (reports : list (nat * Z)).  (* [rd_kafka_poll] of the main loop *)

Definition feed (e : event) (c : producer_context) : outcome Z :=
  match e with
  | BeginTxn wal_pos xid polls => on_begin_txn c wal_pos xid polls
  | CommitTxn wal_pos xid => on_commit_txn c wal_pos xid
  | InsertRow wal_pos relid k v script => on_insert_row c wal_pos relid k v script
  | UpdateRow wal_pos relid k o v script => on_update_row c wal_pos relid k o v script
  | DeleteRow wal_pos relid k o script => on_delete_row c wal_pos relid k o script
  | Keepalive wal_pos => on_keepalive c wal_pos
  | TableSchema wal_pos relid answer => table_schema_updated c answer
  | ClientError err => on_client_error c err
  | Delivery reports => bind (rd_kafka_poll reports c) (fun _ c' => Returned 0 c')
  end.

Definition is_keepalive (e : event) : bool :=
  match e with
  | Keepalive _ => true
  | _ => false
  end.

Definition is_table_schema (e : event) : bool :=
  match e with
  | TableSchema _ _ _ => true
  | _ => false
  end.

(** The events are fed in order; a status other than zero from a callback
    (the answer to a keepalive apart) is handed back to the caller of the
    decoder and ends the run. *)
Fixpoint feed_all (es : list event) (c : producer_context) : outcome Z :=
  match es with
  | [] => Returned 0 c
  | e :: rest =>
      match feed e c with
      | Returned r c' =>
          if (r =? 0) || is_keepalive e then feed_all rest c' else Returned r c'
      | Exited s c' => Exited s c'
      | Blocked c' => Blocked c'
      end
  end.

End Producer.

(** [init_producer] followed by [start_producer]: the circular buffer
    starts out empty, since the tail is one ahead of the head.  The
    acknowledged position, the snapshot flag and the answer to a drop of the
    replication slot belong to the client context the producer is given. *)
Definition init_producer (client_fsync_lsn : Z) (client_taking_snapshot : bool)
    (client_slot_drop_err : Z) : producer_context :=
  mk_context (replicate (Z.to_nat XACT_LIST_LEN) xact_zero) (XACT_LIST_LEN - 1) 0
    client_fsync_lsn client_taking_snapshot client_slot_drop_err ∅ OUTPUT_FORMAT_AVRO
    ERROR_POLICY_EXIT [] [] [] [].

(** ** Topic names *)

(** A C string is the list of its characters up to the terminator. *)
Definition c_string : Set := list ascii.

(** The result of a C expression: its value, or no defined value at all
    (a read of indeterminate memory, a write past the end of an array). *)
Inductive c_result (A : Type) : Type :=
| Defined (a : A)
| Undefined.

Arguments Defined {A} a.
Arguments Undefined {A}.

Definition size_wrap (z : Z) : Z := z mod 2 ^ 64.

Definition strlen (s : c_string) : Z := Z.of_nat (length s).

(** [isspace] in the C locale. *)
Definition isspace (a : ascii) : bool :=
  let n := nat_of_ascii a in
  Nat.eqb n 32 || (Nat.leb 9 n && Nat.leb n 13).

(** How [sscanf] ends on a format made of ordinary characters followed by
    one [%s]: input exhausted before the conversion completed ([EOF]), an
    ordinary character that differs from the input (0 items assigned), or
    one item assigned. *)
Inductive scan_result : Set :=
| ScanEOF
| ScanMismatch
| ScanAssigned (item : c_string).

Definition scan_count (r : scan_result) : Z :=
  match r with
  | ScanEOF => -1
  | ScanMismatch => 0
  | ScanAssigned _ => 1
  end.

Fixpoint skip_space (input : c_string) : c_string :=
  match input with
  | a :: rest => if isspace a then skip_space rest else input
  | [] => []
  end.

Fixpoint scan_word (input : c_string) : c_string :=
  match input with
  | a :: rest => if isspace a then [] else a :: scan_word rest
  | [] => []
  end.

(** The [%s] directive: white space is skipped, then the characters up to
    the next white space or the end of the input are the item. *)
Definition scan_percent_s (input : c_string) : scan_result :=
  match skip_space input with
  | [] => ScanEOF
  | word => ScanAssigned (scan_word word)
  end.

(** [sscanf(input, literal "%s", ...)] where [literal] holds ordinary
    characters only (neither white space nor a percent sign), as the dotted
    package name [GENERATED_SCHEMA_NAMESPACE] followed by a dot does. *)
Fixpoint sscanf_literal_s (literal input : c_string) : scan_result :=
  match literal with
  | [] => scan_percent_s input
  | f :: literal' =>
      match input with
      | [] => ScanEOF
      | a :: input' =>
          if Ascii.eqb a f then sscanf_literal_s literal' input' else ScanMismatch
      end
  end.

(** [strncat(dst, src, n)] on a destination that holds the string [dst]. *)
Definition strncat (dst src : c_string) (n : Z) : c_string :=
  dst ++ firstn (Z.to_nat n) src.

(** The name and namespace of an Avro schema ([avro_schema_name],
    [avro_schema_namespace]). *)
Record avro_schema : Set := mk_schema {
  avro_schema_namespace : c_string;
  avro_schema_name : c_string
}.

Definition c_public : c_string := list_ascii_of_string "public".
Definition c_dot : c_string := list_ascii_of_string ".".

Section TopicName.

(** Defined in [oid2avro.h]. *)
Variable GENERATED_SCHEMA_NAMESPACE : c_string.

(** [topic_name_from_avro_schema], built with [AVRO_1_8].  The local
    array [topic_name] starts out indeterminate ([None]); [sscanf] fills
    it only when it assigns its item, and an item that does not fit the
    array together with its terminator is written past its end. *)
Definition topic_name_from_avro_schema (schema : avro_schema) : c_result c_string :=
  let table_name := avro_schema_name schema in
  let namespace := avro_schema_namespace schema in
  let scanned := sscanf_literal_s (GENERATED_SCHEMA_NAMESPACE ++ c_dot) namespace in
  let matched := scan_count scanned in
  let topic_name : c_result (option c_string) :=
    match scanned with
    | ScanAssigned item =>
        if strlen item + 1 <=? TABLE_NAME_BUFFER_LENGTH then Defined (Some item)
        else Undefined
    | _ => Defined None
    end in
  (* strncpy(topic_name, table_name, LEN); topic_name[LEN - 1] = '\0'; *)
  let copy_table_name :=
    Defined (firstn (Z.to_nat (TABLE_NAME_BUFFER_LENGTH - 1)) table_name) in
  match topic_name with
  | Undefined => Undefined
  | Defined held =>
      if matched =? 0 then copy_table_name
      else
        match held with
        | None => Undefined (* strcmp reads the array before anything wrote it *)
        | Some s =>
            if bool_decide (s = c_public) then copy_table_name
            else
              let s1 := strncat s c_dot
                          (size_wrap (TABLE_NAME_BUFFER_LENGTH - strlen s - 1)) in
              let s2 := strncat s1 table_name
                          (size_wrap (TABLE_NAME_BUFFER_LENGTH - strlen s1 - 1)) in
              Defined s2 (* strdup *)
        end
  end.

End TopicName.

Section TableSchema.

Variable GENERATED_SCHEMA_NAMESPACE : c_string.

(** [table_mapper_update] of [table_mapper.c], as a function of the mapper,
    the relation, the topic name and the two schemas in JSON. *)
Variable table_mapper_update :
  gmap Z table_metadata -> Z -> c_string -> option buffer -> option buffer -> mapper_update.

(** [on_table_schema].  It hands the topic name that
    [topic_name_from_avro_schema] yields for the row schema to
    [table_mapper_update]; where that name is not defined, neither is the
    callback.  The event [TableSchema] is the callback with a defined topic
    name, from the answer of [table_mapper_update] on. *)
Definition on_table_schema (c : producer_context) (wal_pos relid : Z)
    (key_schema_json : option buffer) (row_schema_json : option buffer)
    (row_schema : avro_schema) : c_result (outcome Z) :=
  match topic_name_from_avro_schema GENERATED_SCHEMA_NAMESPACE row_schema with
  | Undefined => Undefined
  | Defined topic_name =>
      Defined
        (table_schema_updated c
           (table_mapper_update (mapper c) relid topic_name key_schema_json
              row_schema_json))
  end.

End TableSchema.

(** ** Command-line options *)

(** What the start-up code writes to [stderr] before it gives up, one
    constructor per message of the source. *)
Inductive diagnostic : Set :=
| UsageText
| ConfigProperties                            (* rd_kafka_conf_properties_show *)
| ExpectedPropertyValue (opt : c_string)
| RegistryNotInitialised
| InvalidOutputFormat (format : c_string)
| InvalidErrorPolicy (policy : c_string)
| ConfigRefused (property value : c_string)
| RegistryWithJson.

(** How a function of the start-up code ends: it returns, or it calls
    [exit], by itself or through [usage]. *)
Inductive startup (A : Type) : Type :=
| Proceeds (a : A)
| Exits (status : Z) (stderr : list diagnostic).

Arguments Proceeds {A} a.
Arguments Exits {A} status stderr.

Definition and_then {A B} (s : startup A) (k : A -> startup B) : startup B :=
  match s with
  | Proceeds a => k a
  | Exits status stderr => Exits status stderr
  end.

Definition usage {A} (exit_status : Z) : startup A := Exits exit_status [UsageText].

(** [strchr], as the offset of the first occurrence; the terminator counts
    as a character of the string. *)
Fixpoint strchr (s : c_string) (ch : ascii) : option nat :=
  match s with
  | [] => if Ascii.eqb ch zero then Some 0%nat else None
  | a :: rest => if Ascii.eqb a ch then Some 0%nat else S <$> strchr rest ch
  end.

(** [parse_config_option]: the equals sign is overwritten with a
    terminator, which leaves the property where the option was, and the
    value is what follows. *)
Definition parse_config_option (opt : c_string) : startup (c_string * c_string) :=
  match strchr opt "="%char with
  | None => Exits 1 [ExpectedPropertyValue opt]
  | Some equals => Proceeds (take equals opt, drop (S equals) opt)
  end.

Definition with_output_format (c : producer_context) (f : format_t) : producer_context :=
  mk_context (xact_list c) (xact_head c) (xact_tail c) (fsync_lsn c) (taking_snapshot c)
    (slot_drop_err c) (mapper c) f (error_policy c) (kafka_queue c) (produced c)
    (envelopes c) (log c).

Definition with_error_policy (c : producer_context) (p : error_policy_t)
  : producer_context :=
  mk_context (xact_list c) (xact_head c) (xact_tail c) (fsync_lsn c) (taking_snapshot c)
    (slot_drop_err c) (mapper c) (output_format c) p (kafka_queue c) (produced c)
    (envelopes c) (log c).

Definition c_avro : c_string := list_ascii_of_string "avro".
Definition c_json : c_string := list_ascii_of_string "json".

Definition set_output_format (c : producer_context) (format : c_string)
  : startup producer_context :=
  if bool_decide (c_avro = format) then Proceeds (with_output_format c OUTPUT_FORMAT_AVRO)
  else if bool_decide (c_json = format) then Proceeds (with_output_format c OUTPUT_FORMAT_JSON)
  else Exits 1 [InvalidOutputFormat format].

(** The format that an accepted argument of [set_output_format] stands
    for. *)
Definition format_of_arg (a : c_string) : format_t :=
  if bool_decide (c_avro = a) then OUTPUT_FORMAT_AVRO else OUTPUT_FORMAT_JSON.

Definition output_format_name (format : format_t) : c_string :=
  match format with
  | OUTPUT_FORMAT_AVRO => list_ascii_of_string "Avro"
  | OUTPUT_FORMAT_JSON => list_ascii_of_string "JSON"
  | OUTPUT_FORMAT_UNDEFINED => list_ascii_of_string "undefined (probably a bug)"
  end.

(** The client context, as far as the options reach it.  The body of
    [db_client_set_error_policy] is in [connect.c]; its calls are kept, the
    newest first. *)
Record client_context : Set := mk_client {
  conninfo : option c_string;
  slot_name : c_string;                     (* client->repl.slot_name *)
  allow_unkeyed : bool;
  skip_snapshot : bool;
  error_policy_calls : list c_string
}.

Definition db_client_set_error_policy (client : client_context) (policy : c_string)
  : client_context :=
  mk_client (conninfo client) (slot_name client) (allow_unkeyed client)
    (skip_snapshot client) (policy :: error_policy_calls client).

(** A schema registry client, by the URL it was made for. *)
Record schema_registry : Set := mk_registry { registry_url : c_string }.

(** The producer context between [init_producer] and [start_producer]:
    the part the callbacks work on, and the settings only the start-up code
    reads.  A configuration object of the broker library is the list of the
    settings it accepted, in the order of the calls. *)
Record launch : Type := mk_launch {
  producer : producer_context;
  client : client_context;
  brokers : c_string;
  registry : option schema_registry;
  topic_prefix : option c_string;
  kafka_conf : list (c_string * c_string);
  topic_conf : list (c_string * c_string)
}.

Section LaunchSetters.
Variable l : launch.

Definition with_producer (c : producer_context) : launch :=
  mk_launch c (client l) (brokers l) (registry l) (topic_prefix l) (kafka_conf l)
    (topic_conf l).

Definition with_client (k : client_context) : launch :=
  mk_launch (producer l) k (brokers l) (registry l) (topic_prefix l) (kafka_conf l)
    (topic_conf l).

Definition with_brokers (b : c_string) : launch :=
  mk_launch (producer l) (client l) b (registry l) (topic_prefix l) (kafka_conf l)
    (topic_conf l).

Definition with_registry (r : option schema_registry) : launch :=
  mk_launch (producer l) (client l) (brokers l) r (topic_prefix l) (kafka_conf l)
    (topic_conf l).

Definition with_topic_prefix (p : option c_string) : launch :=
  mk_launch (producer l) (client l) (brokers l) (registry l) p (kafka_conf l)
    (topic_conf l).

Definition with_kafka_conf (conf : list (c_string * c_string)) : launch :=
  mk_launch (producer l) (client l) (brokers l) (registry l) (topic_prefix l) conf
    (topic_conf l).

Definition with_topic_conf (conf : list (c_string * c_string)) : launch :=
  mk_launch (producer l) (client l) (brokers l) (registry l) (topic_prefix l)
    (kafka_conf l) conf.
End LaunchSetters.

Definition DEFAULT_SCHEMA_REGISTRY : c_string :=
  list_ascii_of_string "http://localhost:8081".

(** One call of [getopt_long] that found an option: the value it returned
    and [optarg], which is read only for the options that take an
    argument. *)
Record getopt_result : Set := mk_getopt {
  getopt_c : Z;
  optarg : c_string
}.

(** The command line as [parse_options] sees it: what the calls of
    [getopt_long] return until one returns -1, and whether [optind < argc]
    holds after that. *)
Record command_line : Set := mk_command_line {
  getopt_results : list getopt_result;
  operands_left : bool
}.

(** A character constant as an [int]. *)
Definition chr (a : ascii) : Z := Z.of_nat (nat_of_ascii a).

Section Options.

(** Defined in [protocol.h]. *)
Variable PROTOCOL_ERROR_POLICY_LOG : c_string.
Variable PROTOCOL_ERROR_POLICY_EXIT : c_string.

(** The libraries: whether [schema_registry_new] yields a client for a
    URL, and whether [rd_kafka_conf_set] and [rd_kafka_topic_conf_set]
    answer [RD_KAFKA_CONF_OK] for a property and a value on the
    configuration made so far. *)
Variable schema_registry_new : c_string -> option schema_registry.
Variable rd_kafka_conf_set : list (c_string * c_string) -> c_string -> c_string -> bool.
Variable rd_kafka_topic_conf_set :
  list (c_string * c_string) -> c_string -> c_string -> bool.

Definition init_schema_registry (l : launch) (url : c_string) : startup launch :=
  match schema_registry_new url with
  | Some r => Proceeds (with_registry l (Some r))
  | None => Exits 1 [RegistryNotInitialised]
  end.

Definition set_error_policy (l : launch) (policy : c_string) : startup launch :=
  and_then
    (if bool_decide (PROTOCOL_ERROR_POLICY_LOG = policy)
     then Proceeds (with_producer l (with_error_policy (producer l) ERROR_POLICY_LOG))
     else if bool_decide (PROTOCOL_ERROR_POLICY_EXIT = policy)
     then Proceeds (with_producer l (with_error_policy (producer l) ERROR_POLICY_EXIT))
     else Exits 1 [InvalidErrorPolicy policy])
    (fun l => Proceeds (with_client l (db_client_set_error_policy (client l) policy))).

(** The policy that an accepted argument of [set_error_policy] stands
    for. *)
Definition policy_of_arg (a : c_string) : error_policy_t :=
  if bool_decide (PROTOCOL_ERROR_POLICY_LOG = a) then ERROR_POLICY_LOG
  else ERROR_POLICY_EXIT.

Definition error_policy_name (policy : error_policy_t) : c_string :=
  match policy with
  | ERROR_POLICY_LOG => PROTOCOL_ERROR_POLICY_LOG
  | ERROR_POLICY_EXIT => PROTOCOL_ERROR_POLICY_EXIT
  | ERROR_POLICY_UNDEFINED => list_ascii_of_string "undefined (probably a bug)"
  end.

Definition set_kafka_config (l : launch) (property value : c_string) : startup launch :=
  if rd_kafka_conf_set (kafka_conf l) property value
  then Proceeds (with_kafka_conf l (kafka_conf l ++ [(property, value)]))
  else Exits 1 [ConfigRefused property value].

Definition set_topic_config (l : launch) (property value : c_string) : startup launch :=
  if rd_kafka_topic_conf_set (topic_conf l) property value
  then Proceeds (with_topic_conf l (topic_conf l ++ [(property, value)]))
  else Exits 1 [ConfigRefused property value].

(** The body of the [switch] in [parse_options], built without
    [TTA_VNV]. *)
Definition parse_option (l : launch) (r : getopt_result) : startup launch :=
  let c := getopt_c r in
  let k := client l in
  if c =? chr "d" then
    Proceeds (with_client l (mk_client (Some (optarg r)) (slot_name k) (allow_unkeyed k)
                               (skip_snapshot k) (error_policy_calls k)))
  else if c =? chr "s" then
    Proceeds (with_client l (mk_client (conninfo k) (optarg r) (allow_unkeyed k)
                               (skip_snapshot k) (error_policy_calls k)))
  else if c =? chr "b" then Proceeds (with_brokers l (optarg r))
  else if c =? chr "r" then init_schema_registry l (optarg r)
  else if c =? chr "f" then
    and_then (set_output_format (producer l) (optarg r))
      (fun c => Proceeds (with_producer l c))
  else if c =? chr "u" then
    Proceeds (with_client l (mk_client (conninfo k) (slot_name k) true
                               (skip_snapshot k) (error_policy_calls k)))
  else if c =? chr "p" then Proceeds (with_topic_prefix l (Some (optarg r)))
  else if c =? chr "e" then set_error_policy l (optarg r)
  else if c =? chr "x" then
    Proceeds (with_client l (mk_client (conninfo k) (slot_name k) (allow_unkeyed k)
                               true (error_policy_calls k)))
  else if c =? chr "C" then
    and_then (parse_config_option (optarg r))
      (fun pv => set_kafka_config l (fst pv) (snd pv))
  else if c =? chr "T" then
    and_then (parse_config_option (optarg r))
      (fun pv => set_topic_config l (fst pv) (snd pv))
  else if c =? 1 then Exits 0 [ConfigProperties]
  else if c =? chr "h" then usage 0
  else usage 1.

(** The loop of [parse_options]: it ends when [getopt_long] returns -1. *)
Fixpoint parse_options_loop (results : list getopt_result) (l : launch)
  : startup launch :=
  match results with
  | [] => Proceeds l
  | r :: rest =>
      if getopt_c r =? -1 then Proceeds l
      else and_then (parse_option l r) (parse_options_loop rest)
  end.

Definition parse_options (l : launch) (argv : command_line) : startup launch :=
  and_then (parse_options_loop (getopt_results argv) l) (fun l =>
    if match conninfo (client l) with None => true | Some _ => false end
       || operands_left argv
    then usage 1
    else
      match output_format (producer l), registry l with
      | OUTPUT_FORMAT_AVRO, None => init_schema_registry l DEFAULT_SCHEMA_REGISTRY
      | OUTPUT_FORMAT_JSON, Some _ => Exits 1 [RegistryWithJson; UsageText]
      | _, _ => Proceeds l
      end).

End Options.

(** The results of [getopt_long] that the loop of [parse_options] gets to
    see, and the argument of the last of them that carries a given option. *)
Fixpoint before_end (results : list getopt_result) : list getopt_result :=
  match results with
  | [] => []
  | r :: rest => if getopt_c r =? -1 then [] else r :: before_end rest
  end.

Fixpoint last_arg (code : Z) (results : list getopt_result) : option c_string :=
  match results with
  | [] => None
  | r :: rest =>
      match last_arg code rest with
      | Some a => Some a
      | None => if getopt_c r =? code then Some (optarg r) else None
      end
  end.

Definition has_option (code : Z) (results : list getopt_result) : bool :=
  existsb (fun r => getopt_c r =? code) results.

(** The arguments of the options with a given code, split at their first
    equals sign, in the order of the command line. *)
Fixpoint settings_of (code : Z) (results : list getopt_result)
  : list (c_string * c_string) :=
  match results with
  | [] => []
  | r :: rest =>
      if getopt_c r =? code
      then match parse_config_option (optarg r) with
           | Proceeds pv => pv :: settings_of code rest
           | Exits _ _ => settings_of code rest
           end
      else settings_of code rest
  end.

(** ** Encoders and contexts for worked cases *)

Definition byte_of_Z (z : Z) : Byte.byte :=
  match Byte.of_N (Z.to_N (z mod 256)) with
  | Some b => b
  | None => Byte.x00
  end.

(** Modelled from the spec: the binary framing of [schema_registry_encode_msg]
    in [registry.c], a separate file of the repository: one magic
    byte [0x00], then the schema id as a big-endian 32-bit number, then the
    payload; applied to key and value independently, and a nil buffer stays
    nil. *)
Definition frame (schema_id : Z) (payload : buffer) : buffer :=
  Byte.x00 :: byte_of_Z (Z.shiftr schema_id 24) :: byte_of_Z (Z.shiftr schema_id 16)
    :: byte_of_Z (Z.shiftr schema_id 8) :: byte_of_Z schema_id :: payload.

Definition framing_encode_msg (key_schema row_schema : Z) (key val : option buffer)
  : Z * option buffer * option buffer :=
  (0, frame key_schema <$> key, frame row_schema <$> val).

(** A textual encoder that hands both buffers on as they are; it stands in
    for [json_encode_msg] where the output format is not JSON. *)
Definition verbatim_encode_msg (table : table_metadata) (key val : option buffer)
  : Z * option buffer * option buffer :=
  (0, key, val).

(** A producer that has just started on an existing replication slot. *)
Definition fresh_context : producer_context := init_producer 0 false 0.

(** The same producer once it knows the table with relation id 1. *)
Definition users_table : table_metadata := mk_table 1 "users" 11 12.

Definition context_with_table : producer_context :=
  mk_context (xact_list fresh_context) (xact_head fresh_context)
    (xact_tail fresh_context) 0 false 0 (<[1 := users_table]> ∅)
    OUTPUT_FORMAT_AVRO ERROR_POLICY_EXIT [] [] [] [].

(** An encoder that fails with [ENOMEM]. *)
Definition refusing_encode_msg (key_schema row_schema : Z) (key val : option buffer)
  : Z * option buffer * option buffer :=
  (12, None, None).

(** The producer with the table known and transaction 7 begun. *)
Definition context_in_txn : producer_context := open_slot context_with_table 7.

(** Transaction 7 begun and committed at position 512, before the
    checkpointer has run. *)
Definition context_committed : producer_context :=
  record_commit (open_slot fresh_context 7) 512.

(** The acknowledged position stands at 512 and transaction 8 commits at
    position 256. *)
Definition context_late_commit : producer_context :=
  record_commit (open_slot (with_fsync_lsn fresh_context 512) 8) 256.

(** Transactions 7 and 8 committed at 512 and 600 and checkpointed, and
    transaction 9 begun and committed at 700, before the checkpointer has
    run on it. *)
Definition context_third_commit : producer_context :=
  record_commit
    (open_slot
       (maybe_checkpoint
          (record_commit
             (open_slot (maybe_checkpoint (record_commit (open_slot fresh_context 7) 512))
                8)
             600))
       9)
    700.

(** A call of [rd_kafka_produce] that returns [err] and leaves [errno]
    off "queue full". *)
Definition one_attempt (err : Z) : produce_attempt :=
  mk_attempt err false (mk_poll [] 0 0).

Definition sample_envelope : msg_envelope := mk_envelope 500 1 0.

(** The producer inside transaction 7 with two envelopes on the heap, the
    one allocated last on top. *)
Definition context_two_envelopes : producer_context :=
  malloc_envelope (malloc_envelope context_in_txn sample_envelope) (mk_envelope 501 1 0).

Definition sample_report (err : Z) : rd_kafka_message :=
  mk_message "users" None (Some [Byte.x01]) sample_envelope err.

Definition sample_namespace : c_string := list_ascii_of_string "com.example.dbschema".

(** A producer on a replication slot it has just created: the client
    announces a snapshot, and the stream will start at position 4096. *)
Definition context_snapshot : producer_context :=
  mk_context (xact_list fresh_context) (xact_head fresh_context)
    (xact_tail fresh_context) 4096 true 0 (<[1 := users_table]> ∅)
    OUTPUT_FORMAT_AVRO ERROR_POLICY_EXIT [] [] [] [].

(** The snapshot transaction begun and one of its rows enqueued. *)
Definition context_snapshot_row : producer_context :=
  final_context
    (feed_all 1 verbatim_encode_msg framing_encode_msg
       [BeginTxn 4096 0 [];
        InsertRow 500 1 (Some [Byte.x01]) (Some [Byte.x02]) [one_attempt 0]]
       context_snapshot).

(** The same producer on a server that will refuse to drop the
    replication slot. *)
Definition context_snapshot_undroppable : producer_context :=
  mk_context (xact_list context_snapshot_row) (xact_head context_snapshot_row)
    (xact_tail context_snapshot_row) (fsync_lsn context_snapshot_row)
    (taking_snapshot context_snapshot_row) 1 (mapper context_snapshot_row)
    (output_format context_snapshot_row) (error_policy context_snapshot_row)
    (kafka_queue context_snapshot_row) (produced context_snapshot_row)
    (envelopes context_snapshot_row) (log context_snapshot_row).

(** That producer after the broker reported that the row could not be
    delivered. *)
Definition context_snapshot_failed : producer_context :=
  final_context
    (feed_all 1 verbatim_encode_msg framing_encode_msg [Delivery [(0%nat, 5)]]
       context_snapshot_undroppable).

(** The two names of [protocol.h] as the usage text gives them, and
    libraries that make a registry client for every URL and accept every
    setting. *)
Definition c_log : c_string := list_ascii_of_string "log".
Definition c_exit : c_string := list_ascii_of_string "exit".

Definition registry_at (url : c_string) : option schema_registry :=
  Some (mk_registry url).

Definition accept_setting (conf : list (c_string * c_string)) (property value : c_string)
  : bool := true.

(** The producer as [main] hands it to [parse_options]. *)
Definition initial_launch : launch :=
  mk_launch fresh_context
    (mk_client None (list_ascii_of_string "bottledwater") false false [c_exit])
    (list_ascii_of_string "localhost:9092") None None []
    [(list_ascii_of_string "produce.offset.report", list_ascii_of_string "true")].

Definition found (c : ascii) (arg : string) : getopt_result :=
  mk_getopt (chr c) (list_ascii_of_string arg).

(** [-d postgres://db -f json -b k1:9092 -C a=b=c -u -b k2:9092 -e log
    -T x=y -f avro] *)
Definition sample_command_line : command_line :=
  mk_command_line
    [found "d" "postgres://db"; found "f" "json"; found "b" "k1:9092"; found "C" "a=b=c";
     found "u" EmptyString; found "b" "k2:9092"; found "e" "log"; found "T" "x=y";
     found "f" "avro"]
    false.

Definition sample_launch : launch :=
  match parse_options c_log c_exit registry_at accept_setting accept_setting
          initial_launch sample_command_line with
  | Proceeds l => l
  | Exits _ _ => initial_launch
  end.

(** [-b k1:9092 --config-help -h] *)
Definition help_command_line : command_line :=
  mk_command_line [found "b" "k1:9092"; mk_getopt 1 []; found "h" EmptyString] false.

(** ** Vocabulary of the properties *)

Definition indices_in_range (head tail : Z) : Prop :=
  0 <= head < XACT_LIST_LEN /\ 0 <= tail < XACT_LIST_LEN.

(** Two contexts that differ at most in the tail, the acknowledged
    position, the snapshot flag and the log. *)
Definition same_traffic (c c' : producer_context) : Prop :=
  xact_list c' = xact_list c /\ xact_head c' = xact_head c /\
  mapper c' = mapper c /\ output_format c' = output_format c /\
  error_policy c' = error_policy c /\ kafka_queue c' = kafka_queue c /\
  produced c' = produced c /\ envelopes c' = envelopes c.

(** What a poll of the broker client leaves alone: the head, the size of
    the array, the configuration, the record of accepted messages, and in
    every slot the transaction id, the count of received events and the
    commit position. *)
Definition polled (c c' : producer_context) : Prop :=
  xact_head c' = xact_head c /\
  length (xact_list c') = length (xact_list c) /\
  mapper c' = mapper c /\ output_format c' = output_format c /\
  error_policy c' = error_policy c /\ produced c' = produced c /\
  forall i, xid (xact_at c' i) = xid (xact_at c i) /\
            recvd_events (xact_at c' i) = recvd_events (xact_at c i) /\
            commit_lsn (xact_at c' i) = commit_lsn (xact_at c i).

(** The messages in the broker's queue whose envelope points at [slot]. *)
Fixpoint in_flight_of (slot : nat) (q : list rd_kafka_message) : Z :=
  match q with
  | [] => 0
  | m :: rest =>
      (if Nat.eqb (env_xact (msg_private m)) slot then 1 else 0) + in_flight_of slot rest
  end.

Definition in_flight (c : producer_context) (slot : nat) : Z :=
  in_flight_of slot (kafka_queue c).

(** By how much the pending count of a slot exceeds the messages in flight
    for it. *)
Definition unacked_excess (c : producer_context) (slot : nat) : Z :=
  pending_events (xact_at c slot) - in_flight c slot.

(** What the producer path leaves alone besides: the head, the size of
    the array and the count of received events of every slot. *)
Definition same_receipts (c c' : producer_context) : Prop :=
  xact_head c' = xact_head c /\
  length (xact_list c') = length (xact_list c) /\
  forall i, recvd_events (xact_at c' i) = recvd_events (xact_at c i).

(** The pending count of [slot] stands [k] above the messages in flight
    for it, and is a readable [int]. *)
Definition tracked (c : producer_context) (slot : nat) (k : Z) : Prop :=
  (slot < length (xact_list c))%nat /\
  0 <= k /\
  pending_events (xact_at c slot) = in_flight c slot + k /\
  pending_events (xact_at c slot) <= INT_MAX.

(** An encoder that, given a key and no value, yields a key and no value
    whenever it succeeds. *)
Definition keeps_nil_value
    (encode : option buffer -> option buffer -> Z * option buffer * option buffer)
  : Prop :=
  forall k err key val,
    encode (Some k) None = (err, key, val) -> err = 0 -> is_Some key /\ val = None.

(** The slot [j] places after the tail, around the ring. *)
Definition slot_from_tail (c : producer_context) (j : Z) : nat :=
  Z.to_nat ((xact_tail c + j) mod XACT_LIST_LEN).

(** The number of passes the checkpointer can make at most: the length of
    the ring, an empty ring counting as a whole turn. *)
Definition passes_left (c : producer_context) : Z :=
  if xact_list_length c =? 0 then XACT_LIST_LEN else xact_list_length c.

(** How often the envelope [e] is allocated, and how many queued
    messages carry it. *)
Fixpoint allocated_of (e : msg_envelope) (heap : list msg_envelope) : Z :=
  match heap with
  | [] => 0
  | x :: rest => (if decide (x = e) then 1 else 0) + allocated_of e rest
  end.

Fixpoint queued_of (e : msg_envelope) (q : list rd_kafka_message) : Z :=
  match q with
  | [] => 0
  | m :: rest => (if decide (msg_private m = e) then 1 else 0) + queued_of e rest
  end.

(** Every envelope is allocated at least as often as queued messages carry
    it, with [spare e] allocations to spare. *)
Definition heap_covers (c : producer_context) (spare : msg_envelope -> Z) : Prop :=
  forall e, queued_of e (kafka_queue c) + spare e <= allocated_of e (envelopes c).

Definition heap_covers_queue (c : producer_context) : Prop :=
  heap_covers c (fun _ => 0).

Definition one_more (e0 : msg_envelope) (spare : msg_envelope -> Z) : msg_envelope -> Z :=
  fun e => spare e + if decide (e = e0) then 1 else 0.

(** The lines that [exit_nicely] writes on a status other than 0 while a
    snapshot is in progress: the notice that the replication slot is
    dropped and, above it, the error if the drop failed. *)
Definition slot_drop_lines (c : producer_context) : list log_record :=
  if taking_snapshot c
  then (if slot_drop_err c =? 0 then [] else [(LOG_ERROR, TxtSlotDropFailed)])
       ++ [(LOG_INFO, TxtDroppingSlot)]
  else [].

(** The lines that [exit_nicely] and the [fatal_error] macro leave at the
    top of the log: for status 1 the fatal message, under the lines about
    the replication slot; for status 0 the notice of the signal that
    interrupted [backpressure]. *)
Definition exit_explained {A} (o : outcome A) : Prop :=
  forall status c,
    o = Exited status c ->
    (status = 1 /\
     exists txt rest, log c = slot_drop_lines c ++ (LOG_FATAL, txt) :: rest) \/
    (status = 0 /\
     exists sig rest,
       sig <> 0 /\ log c = (LOG_INFO, TxtShutdownDuringBackpressure sig) :: rest).

Definition is_fatal {A} (o : outcome A) : Prop :=
  exists c, o = Exited 1 c.

(** * Properties *)

Ltac Zify.zify_post_hook ::= Z.to_euclidean_division_equations.

(** Unfolding of the field updates, for goals about single fields. *)
Ltac fields :=
  unfold write_log, set_xact_at, with_xact_list, with_xact_head, with_xact_tail,
    with_fsync_lsn, with_taking_snapshot, with_mapper, with_kafka_queue, with_produced,
    with_envelopes, with_log in *;
  cbn [xact_list xact_head xact_tail fsync_lsn taking_snapshot slot_drop_err mapper
       output_format error_policy kafka_queue produced envelopes log] in *.

(** ** Machine arithmetic *)

Lemma int_wrap_small (z : Z) : INT_MIN <= z <= INT_MAX -> int_wrap z = z.
Proof. unfold int_wrap, INT_MIN, INT_MAX. lia. Qed.

Lemma XACT_LIST_LEN_value : XACT_LIST_LEN = 1001.
Proof. reflexivity. Qed.

Lemma ring_wf_indices (c : producer_context) :
  ring_wf c -> indices_in_range (xact_head c) (xact_tail c).
Proof. intros (Hh & Ht & _). split; assumption. Qed.

Lemma next_index (i : Z) :
  0 <= i < XACT_LIST_LEN ->
  Z.rem (int_wrap (i + 1)) XACT_LIST_LEN = (i + 1) mod XACT_LIST_LEN.
Proof.
  rewrite XACT_LIST_LEN_value. intros Hi.
  rewrite int_wrap_small by (unfold INT_MIN, INT_MAX; lia).
  apply Z.rem_mod_nonneg; lia.
Qed.

Lemma xact_list_length_in_range (c : producer_context) :
  indices_in_range (xact_head c) (xact_tail c) ->
  xact_list_length c
  = (XACT_LIST_LEN + xact_head c + 1 - xact_tail c) mod XACT_LIST_LEN.
Proof.
  unfold indices_in_range, xact_list_length. rewrite XACT_LIST_LEN_value.
  intros [Hh Ht].
  rewrite int_wrap_small by (unfold INT_MIN, INT_MAX; lia).
  apply Z.rem_mod_nonneg; lia.
Qed.

(** ** What the checkpointer leaves alone *)

Lemma same_traffic_refl (c : producer_context) : same_traffic c c.
Proof. repeat split. Qed.

Lemma same_traffic_trans (c1 c2 c3 : producer_context) :
  same_traffic c1 c2 -> same_traffic c2 c3 -> same_traffic c1 c3.
Proof.
  unfold same_traffic. intros H12 H23. destruct_and!.
  repeat split; congruence.
Qed.

Lemma checkpoint_slot_traffic (c : producer_context) : same_traffic c (checkpoint_slot c).
Proof.
  unfold checkpoint_slot.
  repeat match goal with |- context [if ?b then _ else _] => destruct b end;
    repeat split.
Qed.

Lemma maybe_checkpoint_loop_traffic (fuel : nat) (c : producer_context) :
  same_traffic c (maybe_checkpoint_loop fuel c).
Proof.
  revert c. induction fuel as [|fuel IH]; intros c; cbn [maybe_checkpoint_loop].
  - apply same_traffic_refl.
  - destruct (checkpoint_ready _); [|apply same_traffic_refl].
    destruct (xact_list_empty _); [apply checkpoint_slot_traffic|].
    eapply same_traffic_trans; [apply checkpoint_slot_traffic | apply IH].
Qed.

Lemma maybe_checkpoint_traffic (c : producer_context) : same_traffic c (maybe_checkpoint c).
Proof. apply maybe_checkpoint_loop_traffic. Qed.

(** What one pass does to the fields it writes. *)
Lemma checkpoint_slot_fsync_lsn (c : producer_context) :
  fsync_lsn (checkpoint_slot c) = commit_lsn (xact_at c (Z.to_nat (xact_tail c))).
Proof.
  unfold checkpoint_slot.
  repeat match goal with |- context [if ?b then _ else _] => destruct b end;
    reflexivity.
Qed.

Lemma checkpoint_slot_tail (c : producer_context) :
  xact_tail (checkpoint_slot c) = Z.rem (int_wrap (xact_tail c + 1)) XACT_LIST_LEN.
Proof.
  unfold checkpoint_slot.
  repeat match goal with |- context [if ?b then _ else _] => destruct b end;
    reflexivity.
Qed.

Lemma checkpoint_slot_taking_snapshot (c : producer_context) :
  let xact := xact_at c (Z.to_nat (xact_tail c)) in
  taking_snapshot (checkpoint_slot c)
  = if (xid xact =? 0) && (commit_lsn xact >? 0) then false else taking_snapshot c.
Proof.
  unfold checkpoint_slot.
  repeat match goal with |- context [if ?b then _ else _] => destruct b end;
    reflexivity.
Qed.

Lemma checkpoint_slot_wf (c : producer_context) : ring_wf c -> ring_wf (checkpoint_slot c).
Proof.
  intros (Hh & Ht & Hl). destruct (checkpoint_slot_traffic c) as (El & Eh & _).
  unfold ring_wf. rewrite El, Eh, checkpoint_slot_tail, next_index by assumption.
  repeat split; try assumption; rewrite XACT_LIST_LEN_value in *; lia.
Qed.

(** ** The loop of the checkpointer ends by itself *)

(** Each pass shortens a ring that is not empty by one slot. *)
Lemma checkpoint_slot_length (c : producer_context) :
  ring_wf c ->
  xact_list_length c <> 0 ->
  xact_list_length (checkpoint_slot c) = xact_list_length c - 1.
Proof.
  intros Hwf Hne. pose proof (checkpoint_slot_wf c Hwf) as Hwf'.
  rewrite !xact_list_length_in_range in * by (apply ring_wf_indices; assumption).
  destruct (checkpoint_slot_traffic c) as (_ & Eh & _).
  rewrite Eh, checkpoint_slot_tail, next_index by apply Hwf.
  destruct Hwf as (Hh & Ht & _). rewrite XACT_LIST_LEN_value in *. lia.
Qed.

Lemma xact_list_length_bounds (c : producer_context) :
  ring_wf c -> 0 <= xact_list_length c <= XACT_LIST_LEN - 1.
Proof.
  intros Hwf. rewrite xact_list_length_in_range by (apply ring_wf_indices; assumption).
  rewrite XACT_LIST_LEN_value. lia.
Qed.

Lemma maybe_checkpoint_loop_stable (n : nat) :
  forall (c : producer_context) (m : nat),
    ring_wf c ->
    1 <= xact_list_length c <= Z.of_nat n ->
    (n <= m)%nat ->
    maybe_checkpoint_loop m c = maybe_checkpoint_loop n c.
Proof.
  induction n as [|n IH]; intros c m Hwf Hlen Hm; [lia|].
  destruct m as [|m]; [lia|]. cbn [maybe_checkpoint_loop].
  destruct (checkpoint_ready _); [|reflexivity].
  destruct (xact_list_empty (checkpoint_slot c)) eqn:Hempty; [reflexivity|].
  unfold xact_list_empty in Hempty. apply Z.eqb_neq in Hempty.
  pose proof (checkpoint_slot_length c Hwf ltac:(lia)) as Hdec.
  apply IH; [apply checkpoint_slot_wf; assumption | lia | lia].
Qed.

(** The equation of the [while] loop: the bound on the passes is never
    what ends it. *)
Lemma maybe_checkpoint_unfold (c : producer_context) :
  ring_wf c ->
  maybe_checkpoint c
  = if checkpoint_ready (xact_at c (Z.to_nat (xact_tail c))) then
      if xact_list_empty (checkpoint_slot c) then checkpoint_slot c
      else maybe_checkpoint (checkpoint_slot c)
    else c.
Proof.
  intros Hwf.
  assert (Hfuel : Z.to_nat XACT_LIST_LEN = S (Z.to_nat (XACT_LIST_LEN - 1)))
    by (rewrite XACT_LIST_LEN_value; lia).
  unfold maybe_checkpoint. rewrite Hfuel at 1. cbn [maybe_checkpoint_loop].
  destruct (checkpoint_ready _); [|reflexivity].
  destruct (xact_list_empty (checkpoint_slot c)) eqn:Hempty; [reflexivity|].
  unfold xact_list_empty in Hempty. apply Z.eqb_neq in Hempty.
  pose proof (checkpoint_slot_wf c Hwf) as Hwf'.
  pose proof (xact_list_length_bounds _ Hwf') as Hb.
  symmetry. apply maybe_checkpoint_loop_stable; [assumption | lia | lia].
Qed.

Lemma checkpoint_ready_iff (x : transaction_info) :
  checkpoint_ready x = true
  <-> pending_events x = 0 /\ (commit_lsn x > 0 \/ xid x = 0).
Proof. unfold checkpoint_ready. lia. Qed.

Lemma init_producer_wf (lsn : Z) (snap : bool) (drop : Z) :
  ring_wf (init_producer lsn snap drop).
Proof.
  unfold ring_wf, init_producer; cbn [xact_head xact_tail xact_list].
  rewrite length_replicate, XACT_LIST_LEN_value. lia.
Qed.

(** ** Reading and writing slots *)

Lemma xact_at_set_eq (c : producer_context) (i : nat) (x : transaction_info) :
  (i < length (xact_list c))%nat -> xact_at (set_xact_at c i x) i = x.
Proof.
  intros Hi. unfold xact_at. fields. apply list_lookup_total_insert_eq. assumption.
Qed.

Lemma xact_at_set_ne (c : producer_context) (i j : nat) (x : transaction_info) :
  i <> j -> xact_at (set_xact_at c i x) j = xact_at c j.
Proof.
  intros Hij. unfold xact_at. fields. apply list_lookup_total_insert_ne. assumption.
Qed.

Lemma set_xact_at_length (c : producer_context) (i : nat) (x : transaction_info) :
  length (xact_list (set_xact_at c i x)) = length (xact_list c).
Proof. fields. apply length_insert. Qed.

Lemma head_slot_in_range (c : producer_context) :
  ring_wf c -> (Z.to_nat (xact_head c) < length (xact_list c))%nat.
Proof. intros (Hh & _ & Hl). lia. Qed.

Lemma tail_slot_in_range (c : producer_context) :
  ring_wf c -> (Z.to_nat (xact_tail c) < length (xact_list c))%nat.
Proof. intros (_ & Ht & Hl). lia. Qed.

Lemma write_log_wf (lvl : log_level) (txt : log_text) (c : producer_context) :
  ring_wf c -> ring_wf (write_log lvl txt c).
Proof. intros H. exact H. Qed.

Lemma record_commit_head (c : producer_context) (wal_pos : Z) :
  ring_wf c ->
  let c1 := record_commit c wal_pos in
  commit_lsn (xact_at c1 (Z.to_nat (xact_head c1))) = wal_pos.
Proof.
  intros Hwf c1. change (xact_head c1) with (xact_head c). unfold c1, record_commit.
  rewrite xact_at_set_eq by (apply head_slot_in_range; assumption).
  reflexivity.
Qed.

(** ** The walk of the checkpointer *)

(** C4.  The checkpointer runs after every commit event (one whose [xid]
    is that of the head transaction; any other ends the process) and after
    every successful delivery.  From the tail it goes on exactly while
    the tail slot has [pending_events = 0] and either [commit_lsn > 0] or
    [xid = 0]: when the slot does not qualify nothing changes; when it does,
    the pass sets [fsync_lsn] to the slot's [commit_lsn], clears the
    snapshot flag if [xid = 0] and [commit_lsn > 0] (and only then),
    advances the tail modulo [XACT_LIST_LEN], touches nothing else but the
    log, and the walk stops if the ring has become empty and otherwise goes
    on from the new tail. *)
Theorem checkpointer_walks_from_tail (c : producer_context) :
  ring_wf c ->
  let xact := xact_at c (Z.to_nat (xact_tail c)) in
  let drained := checkpoint_slot c in
  (forall wal_pos xid',
      xid' = xid (xact_at c (Z.to_nat (xact_head c))) ->
      exists c1, on_commit_txn c wal_pos xid' = Returned 0 (maybe_checkpoint c1) /\
                 xact_list c1 = xact_list (record_commit c wal_pos) /\
                 commit_lsn (xact_at c1 (Z.to_nat (xact_head c1))) = wal_pos) /\
  (forall msg,
      msg_err msg = 0 ->
      on_deliver_msg c msg
      = Returned tt
          (let c2 := maybe_checkpoint (ack_pending c (env_xact (msg_private msg))) in
           with_envelopes c2 (free_envelope (msg_private msg) (envelopes c2)))) /\
  (~ (pending_events xact = 0 /\ (commit_lsn xact > 0 \/ xid xact = 0)) ->
     maybe_checkpoint c = c) /\
  (pending_events xact = 0 /\ (commit_lsn xact > 0 \/ xid xact = 0) ->
     fsync_lsn drained = commit_lsn xact /\
     (xid xact = 0 /\ commit_lsn xact > 0 -> taking_snapshot drained = false) /\
     (~ (xid xact = 0 /\ commit_lsn xact > 0) ->
        taking_snapshot drained = taking_snapshot c) /\
     xact_tail drained = (xact_tail c + 1) mod XACT_LIST_LEN /\
     same_traffic c drained /\
     maybe_checkpoint c
     = if xact_list_empty drained then drained else maybe_checkpoint drained).
Proof.
  intros Hwf xact drained. split; [|split; [|split]].
  - intros wal_pos xid' ->. unfold on_commit_txn. rewrite Z.eqb_refl. cbn [negb].
    eexists; split; [reflexivity|].
    destruct (_ =? 0).
    + split; [reflexivity|].
      apply (record_commit_head (write_log _ _ c)), write_log_wf, Hwf.
    + split; [reflexivity|]. apply record_commit_head, Hwf.
  - intros msg Herr. unfold on_deliver_msg. rewrite Herr. reflexivity.
  - intros Hno. rewrite maybe_checkpoint_unfold by assumption.
    destruct (checkpoint_ready _) eqn:Hr; [|reflexivity].
    apply checkpoint_ready_iff in Hr. contradiction.
  - intros Hready. apply checkpoint_ready_iff in Hready.
    split; [apply checkpoint_slot_fsync_lsn|].
    split; [|split; [|split; [|split]]].
    + intros [Hx Hc]. unfold drained. rewrite checkpoint_slot_taking_snapshot.
      fold xact. replace (_ && _) with true by lia. reflexivity.
    + intros Hn. unfold drained. rewrite checkpoint_slot_taking_snapshot.
      fold xact. replace (_ && _) with false by lia. reflexivity.
    + unfold drained. rewrite checkpoint_slot_tail. apply next_index, Hwf.
    + apply checkpoint_slot_traffic.
    + rewrite maybe_checkpoint_unfold by assumption. unfold xact in Hready.
      rewrite Hready. reflexivity.
Qed.

(** ** What a poll leaves alone *)

Lemma polled_refl (c : producer_context) : polled c c.
Proof. repeat split. Qed.

Lemma polled_trans (c1 c2 c3 : producer_context) :
  polled c1 c2 -> polled c2 c3 -> polled c1 c3.
Proof.
  unfold polled. intros H12 H23. destruct_and!.
  repeat split; try congruence;
    match goal with
    | H : forall i : nat, _, H' : forall i : nat, _ |- context [xact_at _ ?i] =>
        destruct (H i) as (? & ? & ?); destruct (H' i) as (? & ? & ?); congruence
    end.
Qed.

Lemma same_traffic_polled (c c' : producer_context) : same_traffic c c' -> polled c c'.
Proof.
  unfold same_traffic, polled, xact_at. intros H. destruct_and!.
  repeat split; congruence.
Qed.

Lemma ack_pending_polled (c : producer_context) (slot : nat) :
  polled c (ack_pending c slot).
Proof.
  unfold ack_pending, polled. rewrite set_xact_at_length.
  repeat split; try reflexivity;
    (destruct (decide (slot = i)) as [->|Hne];
     [ destruct (decide (i < length (xact_list c))%nat);
       [ rewrite xact_at_set_eq by assumption; reflexivity
       | unfold xact_at; fields; rewrite list_insert_ge by lia; reflexivity ]
     | rewrite xact_at_set_ne by assumption; reflexivity ]).
Qed.

Lemma write_log_polled (lvl : log_level) (txt : log_text) (c : producer_context) :
  polled c (write_log lvl txt c).
Proof. repeat split. Qed.

Lemma exit_nicely_polled {A} (c : producer_context) (status : Z) :
  polled c (final_context (@exit_nicely A c status)).
Proof.
  unfold exit_nicely. cbn [final_context].
  destruct (_ && _); [|apply polled_refl].
  cbn zeta. destruct (negb _); [|apply write_log_polled].
  eapply polled_trans; apply write_log_polled.
Qed.

Lemma fatal_error_polled {A} (c : producer_context) (txt : log_text) :
  polled c (final_context (@fatal_error A c txt)).
Proof.
  unfold fatal_error.
  eapply polled_trans; [apply (write_log_polled LOG_FATAL txt) | apply exit_nicely_polled].
Qed.

Lemma handle_error_polled (c : producer_context) (err : Z) (txt : log_text) :
  polled c (final_context (handle_error c err txt)).
Proof.
  unfold handle_error.
  destruct (error_policy c); cbn [final_context];
    try apply fatal_error_polled; apply write_log_polled.
Qed.

Lemma on_deliver_msg_polled (c : producer_context) (msg : rd_kafka_message) :
  polled c (final_context (on_deliver_msg c msg)).
Proof.
  unfold on_deliver_msg.
  destruct (negb (msg_err msg =? 0)).
  - pose proof (handle_error_polled c (msg_err msg)
                  (TxtDeliveryFailed (msg_rkt msg) (msg_err msg))) as Hh.
    destruct (handle_error _ _ _) as [err c1|s c1|c1]; cbn [bind final_context] in *;
      try assumption.
    eapply polled_trans; [exact Hh|].
    destruct (err =? 0); [|repeat split].
    apply (polled_trans _ (ack_pending c1 (env_xact (msg_private msg))));
      [apply ack_pending_polled|].
    apply (polled_trans _ (maybe_checkpoint (ack_pending c1 (env_xact (msg_private msg)))));
      [apply same_traffic_polled, maybe_checkpoint_traffic | repeat split].
  - cbn [bind final_context Z.eqb].
    apply (polled_trans _ (ack_pending c (env_xact (msg_private msg))));
      [apply ack_pending_polled|].
    apply (polled_trans _ (maybe_checkpoint (ack_pending c (env_xact (msg_private msg)))));
      [apply same_traffic_polled, maybe_checkpoint_traffic | repeat split].
Qed.

Lemma rd_kafka_poll_polled (reports : list (nat * Z)) :
  forall c, polled c (final_context (rd_kafka_poll reports c)).
Proof.
  induction reports as [|[i e] rest IH]; intros c; cbn [rd_kafka_poll].
  - apply polled_refl.
  - destruct (kafka_queue c !! i) as [m|]; [|apply IH].
    set (c0 := with_kafka_queue c (delete i (kafka_queue c))).
    set (msg := mk_message _ _ _ _ _).
    pose proof (on_deliver_msg_polled c0 msg) as Hd.
    assert (polled c c0) as H0 by (repeat split).
    destruct (on_deliver_msg c0 msg) as [r c1|s c1|c1]; cbn [final_context] in *.
    + eapply polled_trans; [exact H0|]. eapply polled_trans; [exact Hd|]. apply IH.
    + eapply polled_trans; eassumption.
    + eapply polled_trans; eassumption.
Qed.

Lemma backpressure_polled (c : producer_context) (env : poll_env) :
  polled c (final_context (backpressure c env)).
Proof.
  unfold backpressure. pose proof (rd_kafka_poll_polled (poll_reports env) c) as Hp.
  destruct (rd_kafka_poll _ _) as [r c1|s c1|c1]; cbn [bind final_context] in *;
    try assumption.
  eapply polled_trans; [exact Hp|].
  destruct (negb (shutdown_signal env =? 0)).
  - eapply polled_trans; [apply (write_log_polled LOG_INFO) | apply exit_nicely_polled].
  - destruct (negb (keepalive_err env =? 0)); [|apply polled_refl].
    apply fatal_error_polled.
Qed.

Lemma await_free_slot_polled (polls : list poll_env) :
  forall c, polled c (final_context (await_free_slot polls c)).
Proof.
  induction polls as [|env rest IH]; intros c; cbn [await_free_slot];
    destruct (xact_list_full c); try apply polled_refl.
  pose proof (backpressure_polled c env) as Hb.
  destruct (backpressure c env) as [r c1|s c1|c1]; cbn [final_context] in *;
    try assumption.
  eapply polled_trans; [exact Hb | apply IH].
Qed.

Lemma await_free_slot_not_full (polls : list poll_env) :
  forall c r c', await_free_slot polls c = Returned r c' -> xact_list_full c' = false.
Proof.
  induction polls as [|env rest IH]; intros c r c'; cbn [await_free_slot];
    destruct (xact_list_full c) eqn:Hfull; try discriminate;
    try (intros [= _ <-]; assumption).
  destruct (backpressure c env) as [r1 c1|s c1|c1]; try discriminate.
  apply IH.
Qed.

(** ** The ring and the start of a transaction *)

Lemma open_slot_head (c : producer_context) (xid' : Z) :
  0 <= xact_head c < XACT_LIST_LEN ->
  xact_head (open_slot c xid') = (xact_head c + 1) mod XACT_LIST_LEN.
Proof. intros Hh. unfold open_slot. fields. apply next_index, Hh. Qed.

(** C8.  With the indices in range and [XACT_LIST_LEN = 1001] (1000
    transactions in flight and one slot to tell empty from full), the length
    of the ring is [(C + head + 1 - tail) mod C]; the ring is empty exactly
    when the length is 0 and full exactly when it is [C - 1].  A begin
    event waits while the ring is full, one call of [backpressure] per round,
    and appends at the head only once the ring is not full. *)
Theorem ring_length_and_begin_backpressure
    (c : producer_context) (wal_pos xid' : Z) (polls : list poll_env) :
  indices_in_range (xact_head c) (xact_tail c) ->
  (MAX_IN_FLIGHT_TRANSACTIONS = 1000 /\ XACT_LIST_LEN = 1001) /\
  xact_list_length c
  = (XACT_LIST_LEN + xact_head c + 1 - xact_tail c) mod XACT_LIST_LEN /\
  (xact_list_empty c = true <-> xact_list_length c = 0) /\
  (xact_list_full c = true <-> xact_list_length c = XACT_LIST_LEN - 1) /\
  (xact_list_full c = false -> await_free_slot polls c = Returned tt c) /\
  (xact_list_full c = true ->
     await_free_slot [] c = Blocked c /\
     forall env rest,
       await_free_slot (env :: rest) c
       = bind (backpressure c env) (fun _ c' => await_free_slot rest c')) /\
  (xid' <> 0 ->
     on_begin_txn c wal_pos xid' polls
     = bind (await_free_slot polls c) (fun _ c2 => Returned 0 (open_slot c2 xid'))) /\
  (forall r c',
     on_begin_txn c wal_pos xid' polls = Returned r c' ->
     r = 0 /\
     exists c2, xact_list_full c2 = false /\ c' = open_slot c2 xid' /\
                xact_head c' = (xact_head c + 1) mod XACT_LIST_LEN).
Proof.
  intros Hin. split; [split; reflexivity|].
  split; [apply xact_list_length_in_range, Hin|].
  split; [unfold xact_list_empty; apply Z.eqb_eq|].
  split; [unfold xact_list_full; apply Z.eqb_eq|].
  split; [|split; [|split]].
  - intros Hfull. destruct polls; cbn [await_free_slot]; rewrite Hfull; reflexivity.
  - intros Hfull. split; [cbn [await_free_slot]; rewrite Hfull; reflexivity|].
    intros env rest. cbn [await_free_slot]. rewrite Hfull.
    destruct (backpressure c env); reflexivity.
  - intros Hx. unfold on_begin_txn. apply Z.eqb_neq in Hx. rewrite Hx. reflexivity.
  - intros r c' Hb. unfold on_begin_txn in Hb.
    assert (forall c1, xact_head c1 = xact_head c ->
              bind (await_free_slot polls c1)
                (fun _ c2 => Returned 0 (open_slot c2 xid')) = Returned r c' ->
              r = 0 /\
              exists c2, xact_list_full c2 = false /\ c' = open_slot c2 xid' /\
                         xact_head c' = (xact_head c + 1) mod XACT_LIST_LEN) as Hgo.
    { intros c1 Hh1 Hw.
      pose proof (await_free_slot_polled polls c1) as Hp.
      destruct (await_free_slot polls c1) as [r2 c2|s c2|c2] eqn:Ha; try discriminate.
      cbn [bind final_context] in *. injection Hw as <- <-.
      split; [reflexivity|]. exists c2.
      split; [eapply await_free_slot_not_full; exact Ha|].
      split; [reflexivity|].
      destruct Hp as (Hh2 & _). rewrite <- Hh1, <- Hh2.
      apply open_slot_head. rewrite Hh2, Hh1. apply Hin. }
    destruct (xid' =? 0).
    + destruct (negb _); [discriminate|].
      apply (Hgo (write_log LOG_INFO TxtCapturingSnapshot c)); [reflexivity | exact Hb].
    + apply (Hgo c); [reflexivity | exact Hb].
Qed.

Lemma ring_length_and_begin_backpressure_witness :
  indices_in_range (xact_head fresh_context) (xact_tail fresh_context) /\
  xact_list_length fresh_context = 0 /\
  on_begin_txn fresh_context 496 7 [] = Returned 0 (open_slot fresh_context 7).
Proof.
  assert (indices_in_range (xact_head fresh_context) (xact_tail fresh_context)) as Hin
    by (apply ring_wf_indices, init_producer_wf).
  destruct (ring_length_and_begin_backpressure fresh_context 496 7 [] Hin)
    as (_ & Hlen & _ & _ & _ & _ & Hbegin & _).
  split; [exact Hin|]. split.
  - rewrite Hlen. reflexivity.
  - rewrite Hbegin by discriminate. reflexivity.
Defined.

(** ** Keepalive *)

(** C7.  Whatever the state of the ring, the keepalive callback returns
    and leaves the context as it found it; it answers with the frame
    reader's "sync pending" code exactly when the ring is not empty, and
    with 0 exactly when the ring is empty. *)
Theorem keepalive_answers_for_ring
    (FRAME_READER_SYNC_PENDING : Z) (c : producer_context) (wal_pos : Z) :
  FRAME_READER_SYNC_PENDING <> 0 ->
  exists r,
    on_keepalive FRAME_READER_SYNC_PENDING c wal_pos = Returned r c /\
    (r = FRAME_READER_SYNC_PENDING <-> xact_list_empty c = false) /\
    (r = FRAME_READER_SYNC_PENDING <-> xact_list_length c <> 0) /\
    (r = 0 <-> xact_list_empty c = true) /\
    (r = 0 <-> xact_list_length c = 0).
Proof.
  intros Hcode. unfold on_keepalive, xact_list_empty.
  destruct (xact_list_length c =? 0) eqn:He; eexists; (split; [reflexivity|]).
  - apply Z.eqb_eq in He. repeat split; intros; congruence.
  - apply Z.eqb_neq in He. repeat split; intros; congruence.
Qed.

Lemma keepalive_answers_for_ring_witness :
  1 <> 0 /\
  on_keepalive 1 fresh_context 512 = Returned 0 fresh_context /\
  on_keepalive 1 (open_slot fresh_context 7) 512 = Returned 1 (open_slot fresh_context 7).
Proof.
  assert (1 <> 0) as Hcode by discriminate.
  split; [exact Hcode|]. split.
  - destruct (keepalive_answers_for_ring 1 fresh_context 512 Hcode)
      as (r & Hr & _ & _ & _ & H0).
    rewrite Hr. f_equal. apply H0. reflexivity.
  - destruct (keepalive_answers_for_ring 1 (open_slot fresh_context 7) 512 Hcode)
      as (r & Hr & _ & H1 & _ & _).
    rewrite Hr. f_equal. apply H1. discriminate.
Defined.

(** ** The snapshot transaction *)

Lemma empty_ring_not_full (c : producer_context) :
  xact_list_empty c = true -> xact_list_full c = false.
Proof.
  unfold xact_list_empty, xact_list_full. rewrite XACT_LIST_LEN_value. lia.
Qed.

Lemma await_free_slot_free (polls : list poll_env) (c : producer_context) :
  xact_list_full c = false -> await_free_slot polls c = Returned tt c.
Proof. intros Hfull. destruct polls; cbn [await_free_slot]; rewrite Hfull; reflexivity. Qed.

(** C6, as the code has it.  A begin event with [xid = 0] ends the process
    with the fatal "snapshot must be first" error unless the tail is 0 and
    the ring is empty, in which case it opens a slot for the snapshot.  A
    begin event with any other [xid] is not held against the snapshot: when
    the ring is not full it returns 0 and appends at the head, whether or
    not a snapshot came before. *)
Theorem begin_checks_snapshot_only_for_xid_zero
    (c : producer_context) (wal_pos xid' : Z) (polls : list poll_env) :
  (xid' = 0 ->
   ~ (xact_tail c = 0 /\ xact_list_empty c = true) ->
   on_begin_txn c wal_pos xid' polls = fatal_error c TxtSnapshotNotFirst /\
   is_fatal (on_begin_txn c wal_pos xid' polls)) /\
  (xid' = 0 ->
   xact_tail c = 0 /\ xact_list_empty c = true ->
   on_begin_txn c wal_pos xid' polls
   = Returned 0 (open_slot (write_log LOG_INFO TxtCapturingSnapshot c) 0)) /\
  (xid' <> 0 ->
   xact_list_full c = false ->
   on_begin_txn c wal_pos xid' polls = Returned 0 (open_slot c xid')).
Proof.
  split; [|split].
  - intros -> Hnot.
    assert (on_begin_txn c wal_pos 0 polls = fatal_error c TxtSnapshotNotFirst) as E.
    { unfold on_begin_txn. cbn [Z.eqb].
      destruct ((xact_tail c =? 0) && xact_list_empty c) eqn:Hc; [|reflexivity].
      exfalso. apply Hnot. apply andb_true_iff in Hc. destruct Hc as [Ht He].
      apply Z.eqb_eq in Ht. split; assumption. }
    split; [exact E|]. rewrite E. eexists. reflexivity.
  - intros -> [Ht He]. unfold on_begin_txn. cbn [Z.eqb].
    rewrite Ht, He. cbn [Z.eqb andb negb bind].
    rewrite await_free_slot_free; [reflexivity|].
    apply empty_ring_not_full. exact He.
  - intros Hx Hfull. unfold on_begin_txn. apply Z.eqb_neq in Hx. rewrite Hx.
    cbn [bind]. rewrite await_free_slot_free by assumption. reflexivity.
Qed.

Lemma begin_checks_snapshot_only_for_xid_zero_witness :
  on_begin_txn (open_slot fresh_context 7) 528 0 []
  = fatal_error (open_slot fresh_context 7) TxtSnapshotNotFirst /\
  on_begin_txn fresh_context 528 0 []
  = Returned 0 (open_slot (write_log LOG_INFO TxtCapturingSnapshot fresh_context) 0) /\
  on_begin_txn fresh_context 496 7 [] = Returned 0 (open_slot fresh_context 7).
Proof.
  split; [|split].
  - apply (begin_checks_snapshot_only_for_xid_zero (open_slot fresh_context 7) 528 0 []);
      [reflexivity|].
    intros [_ He]. discriminate He.
  - apply (begin_checks_snapshot_only_for_xid_zero fresh_context 528 0 []);
      [reflexivity|]. split; reflexivity.
  - apply (begin_checks_snapshot_only_for_xid_zero fresh_context 496 7 []);
      [discriminate | reflexivity].
Defined.

(** C6 as stated fails: on a producer that has just started, with or
    without a snapshot announced by the client, a first transaction with
    [xid = 7] is accepted; the callback returns 0 and the transaction sits
    in slot 0. *)
Lemma begin_nonzero_xid_first_is_accepted :
  (exists c',
      on_begin_txn (init_producer 0 false 0) 496 7 [] = Returned 0 c' /\
      xact_at c' 0 = mk_xact 7 0 0 0 /\ xact_list_length c' = 1) /\
  (exists c',
      on_begin_txn (init_producer 0 true 0) 496 7 [] = Returned 0 c' /\
      xact_at c' 0 = mk_xact 7 0 0 0 /\ xact_list_length c' = 1).
Proof. split; eexists; (split; [reflexivity|]); split; reflexivity. Qed.

(** ** The delivery callback *)

Lemma free_envelope_traffic_envelopes (c : producer_context) (slot : nat) :
  envelopes (maybe_checkpoint (ack_pending c slot)) = envelopes c.
Proof.
  destruct (maybe_checkpoint_traffic (ack_pending c slot)) as (_ & _ & _ & _ & _ & _ & _ & ->).
  reflexivity.
Qed.

Lemma acked_pending (c : producer_context) (slot : nat) :
  (slot < length (xact_list c))%nat ->
  pending_events (xact_at (maybe_checkpoint (ack_pending c slot)) slot)
  = int_wrap (pending_events (xact_at c slot) - 1).
Proof.
  intros Hs. destruct (maybe_checkpoint_traffic (ack_pending c slot)) as (El & _).
  unfold xact_at at 1. rewrite El. fold (xact_at (ack_pending c slot) slot).
  unfold ack_pending. rewrite xact_at_set_eq by assumption. reflexivity.
Qed.

Lemma allocated_of_nonneg (e : msg_envelope) (heap : list msg_envelope) :
  0 <= allocated_of e heap.
Proof. induction heap as [|x heap IH]; cbn [allocated_of]; [lia|]. case_decide; lia. Qed.

Lemma allocated_of_free (e e' : msg_envelope) (heap : list msg_envelope) :
  allocated_of e' (free_envelope e heap)
  = if decide (e = e') then Z.max (allocated_of e' heap - 1) 0 else allocated_of e' heap.
Proof.
  induction heap as [|x heap IH]; cbn [free_envelope allocated_of].
  - case_decide; reflexivity.
  - pose proof (allocated_of_nonneg e' heap) as Hnn.
    destruct (decide (x = e)) as [->|Hx].
    + destruct (decide (e = e')); lia.
    + cbn [allocated_of]. rewrite IH.
      destruct (decide (e = e')) as [->|He]; destruct (decide (x = e')); try lia.
      congruence.
Qed.

Lemma allocated_of_in (e : msg_envelope) (heap : list msg_envelope) :
  In e heap -> 1 <= allocated_of e heap.
Proof.
  induction heap as [|x heap IH]; cbn [In allocated_of]; [contradiction|].
  pose proof (allocated_of_nonneg e heap) as Hnn.
  intros [->|Hin]; [rewrite decide_True by reflexivity; lia|].
  specialize (IH Hin). case_decide; lia.
Qed.

(** What [free] does to the heap: one allocation of the envelope less,
    where there was one, and every other envelope as often as before. *)
Lemma free_envelope_frees (e : msg_envelope) (heap : list msg_envelope) :
  (In e heap -> allocated_of e (free_envelope e heap) = allocated_of e heap - 1) /\
  (forall e', e' <> e -> allocated_of e' (free_envelope e heap) = allocated_of e' heap).
Proof.
  split.
  - intros Hin. apply allocated_of_in in Hin. rewrite allocated_of_free.
    rewrite decide_True by reflexivity. lia.
  - intros e' Hne. rewrite allocated_of_free. rewrite decide_False by congruence.
    reflexivity.
Qed.

(** C5.  On success the delivery callback decrements [pending_events] of
    the envelope's transaction and runs the checkpointer.  On failure under
    the policy "log" it logs the error and does the same, as if the message
    had been acknowledged.  On failure under the policy "exit" the process
    ends with status 1.  Whenever the callback returns, the envelope has been
    freed: the heap holds one allocation of it less than before and every
    other envelope as often as before; and the pending count of its
    transaction is one lower. *)
Theorem delivery_callback_applies_policy (c : producer_context) (msg : rd_kafka_message) :
  let envelope := msg_private msg in
  let acked c0 :=
    let c2 := maybe_checkpoint (ack_pending c0 (env_xact envelope)) in
    with_envelopes c2 (free_envelope envelope (envelopes c2)) in
  (msg_err msg = 0 -> on_deliver_msg c msg = Returned tt (acked c)) /\
  (msg_err msg <> 0 ->
   error_policy c = ERROR_POLICY_LOG ->
   on_deliver_msg c msg
   = Returned tt
       (acked (write_log LOG_ERROR (TxtDeliveryFailed (msg_rkt msg) (msg_err msg)) c))) /\
  (msg_err msg <> 0 ->
   error_policy c = ERROR_POLICY_EXIT ->
   on_deliver_msg c msg
   = fatal_error c (TxtDeliveryFailed (msg_rkt msg) (msg_err msg)) /\
   is_fatal (on_deliver_msg c msg)) /\
  (forall r c',
     on_deliver_msg c msg = Returned r c' ->
     envelopes c' = free_envelope envelope (envelopes c) /\
     (In envelope (envelopes c) ->
      allocated_of envelope (envelopes c') = allocated_of envelope (envelopes c) - 1) /\
     (forall e, e <> envelope ->
                allocated_of e (envelopes c') = allocated_of e (envelopes c)) /\
     ((env_xact envelope < length (xact_list c))%nat ->
      pending_events (xact_at c' (env_xact envelope))
      = int_wrap (pending_events (xact_at c (env_xact envelope)) - 1))).
Proof.
  intros envelope acked.
  assert (msg_err msg = 0 -> on_deliver_msg c msg = Returned tt (acked c)) as Hok.
  { intros Herr. unfold on_deliver_msg. rewrite Herr. reflexivity. }
  assert (msg_err msg <> 0 -> error_policy c = ERROR_POLICY_LOG ->
          on_deliver_msg c msg
          = Returned tt
              (acked (write_log LOG_ERROR
                        (TxtDeliveryFailed (msg_rkt msg) (msg_err msg)) c))) as Hlog.
  { intros Herr Hpol. unfold on_deliver_msg, handle_error.
    apply Z.eqb_neq in Herr. rewrite Herr, Hpol. reflexivity. }
  assert (msg_err msg <> 0 -> error_policy c = ERROR_POLICY_EXIT ->
          on_deliver_msg c msg
          = fatal_error c (TxtDeliveryFailed (msg_rkt msg) (msg_err msg))) as Hexit.
  { intros Herr Hpol. unfold on_deliver_msg, handle_error.
    apply Z.eqb_neq in Herr. rewrite Herr, Hpol. reflexivity. }
  split; [exact Hok|]. split; [exact Hlog|]. split.
  - intros Herr Hpol. split; [apply Hexit; assumption|].
    rewrite Hexit by assumption. eexists. reflexivity.
  - intros r c' Hret.
    assert (envelopes c' = free_envelope envelope (envelopes c) /\
            ((env_xact envelope < length (xact_list c))%nat ->
             pending_events (xact_at c' (env_xact envelope))
             = int_wrap (pending_events (xact_at c (env_xact envelope)) - 1)))
      as (Hheap & Hpending).
    { destruct (Z.eq_dec (msg_err msg) 0) as [Herr|Herr].
      - rewrite (Hok Herr) in Hret. injection Hret as _ <-.
        unfold acked. split.
        + unfold with_envelopes; cbn [envelopes].
          rewrite free_envelope_traffic_envelopes. reflexivity.
        + intros Hs. rewrite <- acked_pending by assumption. reflexivity.
      - destruct (error_policy c) eqn:Hpol.
        + unfold on_deliver_msg, handle_error in Hret.
          apply Z.eqb_neq in Herr. rewrite Herr, Hpol in Hret. discriminate.
        + rewrite (Hlog Herr eq_refl) in Hret. injection Hret as _ <-.
          unfold acked. split.
          * unfold with_envelopes; cbn [envelopes].
            rewrite free_envelope_traffic_envelopes. reflexivity.
          * intros Hs.
            apply (acked_pending (write_log LOG_ERROR
                                    (TxtDeliveryFailed (msg_rkt msg) (msg_err msg)) c)).
            exact Hs.
        + rewrite (Hexit Herr eq_refl) in Hret. discriminate. }
    destruct (free_envelope_frees envelope (envelopes c)) as (Hone & Hothers).
    split; [exact Hheap|]. rewrite Hheap.
    split; [exact Hone|]. split; [exact Hothers | exact Hpending].
Qed.

(** ** The acknowledged position *)

Lemma checkpoint_slot_log (c : producer_context) (x : log_record) :
  In x (log c) -> In x (log (checkpoint_slot c)).
Proof.
  intros Hx. unfold checkpoint_slot.
  repeat match goal with |- context [if ?b then _ else _] => destruct b end;
    fields; repeat (try assumption; right).
Qed.

Lemma maybe_checkpoint_loop_log (fuel : nat) (x : log_record) :
  forall c, In x (log c) -> In x (log (maybe_checkpoint_loop fuel c)).
Proof.
  induction fuel as [|fuel IH]; intros c Hx; cbn [maybe_checkpoint_loop]; [assumption|].
  destruct (checkpoint_ready _); [|assumption].
  destruct (xact_list_empty _); [|apply IH]; apply checkpoint_slot_log, Hx.
Qed.

Lemma checkpoint_slot_warns (c : producer_context) :
  let xact := xact_at c (Z.to_nat (xact_tail c)) in
  commit_lsn xact < fsync_lsn c ->
  In (LOG_WARN, TxtCommitsNotInWalOrder (fsync_lsn c) (commit_lsn xact))
    (log (checkpoint_slot c)).
Proof.
  intros xact Hlt. unfold checkpoint_slot. fold xact.
  replace (fsync_lsn c >? commit_lsn xact) with true by lia.
  repeat match goal with |- context [if ?b then _ else _] => destruct b end;
    fields; auto with datatypes.
Qed.

(** After the loop the acknowledged position is the one before it, or the
    commit position of a slot that was ready. *)
Lemma maybe_checkpoint_loop_fsync (fuel : nat) :
  forall c,
    ring_wf c ->
    fsync_lsn (maybe_checkpoint_loop fuel c) = fsync_lsn c \/
    exists i, (i < length (xact_list c))%nat /\
              checkpoint_ready (xact_at c i) = true /\
              fsync_lsn (maybe_checkpoint_loop fuel c) = commit_lsn (xact_at c i).
Proof.
  induction fuel as [|fuel IH]; intros c Hwf; cbn [maybe_checkpoint_loop];
    [left; reflexivity|].
  destruct (checkpoint_ready _) eqn:Hready; [|left; reflexivity].
  pose proof (tail_slot_in_range c Hwf) as Htail.
  destruct (xact_list_empty _).
  - right. eexists. split; [exact Htail|]. split; [exact Hready|].
    apply checkpoint_slot_fsync_lsn.
  - destruct (checkpoint_slot_traffic c) as (El & _).
    destruct (IH (checkpoint_slot c) (checkpoint_slot_wf c Hwf)) as [E|(i & Hi & Hr & E)].
    + right. eexists. split; [exact Htail|]. split; [exact Hready|].
      rewrite E. apply checkpoint_slot_fsync_lsn.
    + right. exists i. unfold xact_at in *. rewrite El in *. auto.
Qed.

Lemma slot_from_tail_zero (c : producer_context) :
  ring_wf c -> slot_from_tail c 0 = Z.to_nat (xact_tail c).
Proof.
  intros (_ & Ht & _). unfold slot_from_tail.
  rewrite Z.add_0_r, Z.mod_small by assumption. reflexivity.
Qed.

Lemma slot_from_tail_next (c : producer_context) (j : Z) :
  ring_wf c -> slot_from_tail (checkpoint_slot c) j = slot_from_tail c (j + 1).
Proof.
  intros Hwf. unfold slot_from_tail.
  rewrite checkpoint_slot_tail, next_index by apply Hwf.
  rewrite Zplus_mod_idemp_l. f_equal. f_equal. lia.
Qed.

Lemma xact_at_checkpoint_slot (c : producer_context) (i : nat) :
  xact_at (checkpoint_slot c) i = xact_at c i.
Proof.
  destruct (checkpoint_slot_traffic c) as (El & _). unfold xact_at. rewrite El. reflexivity.
Qed.

Lemma checkpoint_slot_passes_left (c : producer_context) :
  ring_wf c ->
  xact_list_empty (checkpoint_slot c) = false ->
  passes_left (checkpoint_slot c) = passes_left c - 1.
Proof.
  intros Hwf Hne. pose proof (checkpoint_slot_wf c Hwf) as Hwf'.
  unfold xact_list_empty in Hne. unfold passes_left. rewrite Hne.
  apply Z.eqb_neq in Hne.
  rewrite !xact_list_length_in_range in * by (apply ring_wf_indices; assumption).
  destruct (checkpoint_slot_traffic c) as (_ & Eh & _).
  rewrite Eh, checkpoint_slot_tail, next_index in * by apply Hwf.
  destruct Hwf as (Hh & Ht & _). rewrite XACT_LIST_LEN_value in *.
  destruct (_ =? 0) eqn:He; lia.
Qed.

Lemma passes_left_bounds (c : producer_context) :
  ring_wf c -> 1 <= passes_left c <= XACT_LIST_LEN.
Proof.
  intros Hwf. pose proof (xact_list_length_bounds c Hwf) as Hb.
  unfold passes_left. rewrite XACT_LIST_LEN_value in *.
  destruct (_ =? 0) eqn:He; lia.
Qed.

Lemma maybe_checkpoint_loop_run (n : nat) :
  forall c,
    ring_wf c ->
    passes_left c <= Z.of_nat n ->
    exists k,
      0 <= k <= passes_left c /\
      xact_tail (maybe_checkpoint_loop n c) = (xact_tail c + k) mod XACT_LIST_LEN /\
      (forall j, 0 <= j < k -> checkpoint_ready (xact_at c (slot_from_tail c j)) = true) /\
      (k = 0 -> maybe_checkpoint_loop n c = c) /\
      (0 < k ->
       fsync_lsn (maybe_checkpoint_loop n c)
       = commit_lsn (xact_at c (slot_from_tail c (k - 1)))) /\
      ((0 < k /\ xact_list_empty (maybe_checkpoint_loop n c) = true) \/
       checkpoint_ready (xact_at c (slot_from_tail c k)) = false).
Proof.
  induction n as [|n IH]; intros c Hwf Hn.
  { pose proof (passes_left_bounds c Hwf). lia. }
  cbn [maybe_checkpoint_loop].
  pose proof (slot_from_tail_zero c Hwf) as H0.
  destruct (checkpoint_ready (xact_at c (Z.to_nat (xact_tail c)))) eqn:Hready.
  2:{ exists 0. pose proof (passes_left_bounds c Hwf).
      split; [lia|]. split.
      - rewrite Z.add_0_r, Z.mod_small by apply Hwf. reflexivity.
      - split; [intros j Hj; lia|]. split; [reflexivity|]. split; [lia|].
        right. rewrite H0. exact Hready. }
  pose proof (checkpoint_slot_wf c Hwf) as Hwf1.
  destruct (xact_list_empty (checkpoint_slot c)) eqn:Hempty.
  - exists 1. pose proof (passes_left_bounds c Hwf).
    split; [lia|]. split; [rewrite checkpoint_slot_tail; apply next_index, Hwf|].
    split; [intros j Hj; replace j with 0 by lia; rewrite H0; exact Hready|].
    split; [lia|]. split; [|left; split; [lia | exact Hempty]].
    intros _. rewrite checkpoint_slot_fsync_lsn, Z.sub_diag, H0. reflexivity.
  - pose proof (checkpoint_slot_passes_left c Hwf Hempty) as Hleft.
    destruct (IH (checkpoint_slot c) Hwf1 ltac:(lia))
      as (k & Hk & Htail & Hpassed & Hnone & Hfsync & Hstop).
    exists (k + 1). split; [lia|]. split.
    { rewrite Htail, checkpoint_slot_tail, next_index by apply Hwf.
      rewrite Zplus_mod_idemp_l. f_equal. lia. }
    split.
    { intros j Hj. destruct (Z.eq_dec j 0) as [->|Hj0]; [rewrite H0; exact Hready|].
      specialize (Hpassed (j - 1) ltac:(lia)).
      rewrite xact_at_checkpoint_slot, slot_from_tail_next in Hpassed by assumption.
      replace (j - 1 + 1) with j in Hpassed by lia. exact Hpassed. }
    split; [lia|]. split.
    { intros _. destruct (Z.eq_dec k 0) as [->|Hk0].
      - rewrite (Hnone eq_refl), checkpoint_slot_fsync_lsn.
        replace (0 + 1 - 1) with 0 by lia. rewrite H0. reflexivity.
      - rewrite Hfsync by lia.
        rewrite xact_at_checkpoint_slot, slot_from_tail_next by assumption.
        f_equal. f_equal. f_equal. lia. }
    destruct Hstop as [(Hk0 & He)|Hnot]; [left; split; [lia | exact He]|].
    right. rewrite xact_at_checkpoint_slot, slot_from_tail_next in Hnot by assumption.
    exact Hnot.
Qed.

(** C1, as the code has it.  When the tail transaction is ready to be
    checkpointed and its [commit_lsn] lies below [fsync_lsn], the
    checkpointer logs the warning and then sets [fsync_lsn] to that lower
    [commit_lsn].  After a run of the checkpointer [fsync_lsn] is either
    what it was or the [commit_lsn] of a slot that was ready.  The run does
    not decrease [fsync_lsn] when the slots it can reach carry a
    [commit_lsn] at or above the current [fsync_lsn]: these are the slots of
    the ring, counted from the tail, before which every slot is ready (on an
    empty ring the walk may go once around the array). *)
Theorem checkpoint_moves_fsync_lsn_to_commit_lsn (c : producer_context) :
  ring_wf c ->
  let xact := xact_at c (Z.to_nat (xact_tail c)) in
  (checkpoint_ready xact = true ->
   commit_lsn xact < fsync_lsn c ->
   In (LOG_WARN, TxtCommitsNotInWalOrder (fsync_lsn c) (commit_lsn xact))
     (log (maybe_checkpoint c)) /\
   fsync_lsn (checkpoint_slot c) = commit_lsn xact) /\
  (fsync_lsn (maybe_checkpoint c) = fsync_lsn c \/
   exists i, (i < length (xact_list c))%nat /\
             checkpoint_ready (xact_at c i) = true /\
             fsync_lsn (maybe_checkpoint c) = commit_lsn (xact_at c i)) /\
  ((forall j,
      0 <= j < passes_left c ->
      (forall i, 0 <= i <= j ->
                 checkpoint_ready (xact_at c (slot_from_tail c i)) = true) ->
      fsync_lsn c <= commit_lsn (xact_at c (slot_from_tail c j))) ->
   fsync_lsn c <= fsync_lsn (maybe_checkpoint c)).
Proof.
  intros Hwf xact. split; [|split].
  - intros Hready Hlt. split; [|apply checkpoint_slot_fsync_lsn].
    rewrite maybe_checkpoint_unfold by assumption. fold xact. rewrite Hready.
    pose proof (checkpoint_slot_warns c Hlt) as Hwarn.
    destruct (xact_list_empty _); [exact Hwarn|].
    apply maybe_checkpoint_loop_log, Hwarn.
  - apply maybe_checkpoint_loop_fsync, Hwf.
  - intros Hord. pose proof (passes_left_bounds c Hwf) as Hb.
    destruct (maybe_checkpoint_loop_run (Z.to_nat XACT_LIST_LEN) c Hwf ltac:(lia))
      as (k & Hk & _ & Hpassed & Hnone & Hfsync & _).
    unfold maybe_checkpoint.
    destruct (Z.eq_dec k 0) as [Hk0|Hk0]; [rewrite (Hnone Hk0); lia|].
    rewrite Hfsync by lia. apply Hord; [lia|].
    intros i Hi. apply Hpassed. lia.
Qed.

(** C1 as stated fails: two transactions whose commits arrive with
    decreasing positions.  The first commit moves [fsync_lsn] to 512; at the
    second the checkpointer logs the warning and moves it back to 256. *)
Lemma fsync_lsn_regresses_on_late_commit :
  exists c1 c2,
    feed_all 1 verbatim_encode_msg framing_encode_msg
      [BeginTxn 496 7 []; CommitTxn 512 7; BeginTxn 240 8 []] fresh_context
    = Returned 0 c1 /\
    feed 1 verbatim_encode_msg framing_encode_msg (CommitTxn 256 8) c1 = Returned 0 c2 /\
    fsync_lsn c1 = 512 /\
    fsync_lsn c2 = 256 /\
    fsync_lsn c2 < fsync_lsn c1 /\
    log c2 = [(LOG_WARN, TxtCommitsNotInWalOrder 512 256);
              (LOG_DEBUG, TxtCheckpointing 0 7 512)].
Proof.
  eexists. eexists.
  split; [vm_compute; reflexivity|].
  split; [vm_compute; reflexivity|].
  repeat split.
Qed.

(** ** Messages in flight *)

Lemma in_flight_of_nonneg (slot : nat) (q : list rd_kafka_message) :
  0 <= in_flight_of slot q.
Proof.
  induction q as [|m q IH]; cbn [in_flight_of]; [lia|].
  destruct (Nat.eqb _ _); lia.
Qed.

Lemma in_flight_of_app (slot : nat) (q : list rd_kafka_message) (m : rd_kafka_message) :
  in_flight_of slot (q ++ [m])
  = in_flight_of slot q + (if Nat.eqb (env_xact (msg_private m)) slot then 1 else 0).
Proof.
  induction q as [|x q IH]; cbn [in_flight_of app]; [lia|].
  rewrite IH. lia.
Qed.

Lemma in_flight_of_delete (slot : nat) (q : list rd_kafka_message) :
  forall (i : nat) (m : rd_kafka_message),
    q !! i = Some m ->
    in_flight_of slot (delete i q)
    = in_flight_of slot q - (if Nat.eqb (env_xact (msg_private m)) slot then 1 else 0).
Proof.
  induction q as [|x q IH]; intros i m Hi; [discriminate|].
  destruct i as [|i]; cbn in Hi.
  - injection Hi as ->. cbn [delete list_delete in_flight_of]. lia.
  - change (delete (S i) (x :: q)) with (x :: delete i q). cbn [in_flight_of].
    rewrite (IH i m Hi). lia.
Qed.

(** ** A delivery report keeps the excess of every slot *)

Lemma on_deliver_msg_returned (c : producer_context) (msg : rd_kafka_message)
    (r : unit) (c' : producer_context) :
  on_deliver_msg c msg = Returned r c' ->
  xact_list c' = xact_list (ack_pending c (env_xact (msg_private msg))) /\
  kafka_queue c' = kafka_queue c.
Proof.
  unfold on_deliver_msg, handle_error.
  destruct (negb (msg_err msg =? 0)).
  - destruct (error_policy c); cbn [bind fatal_error exit_nicely]; try discriminate.
    cbn [Z.eqb]. intros [= _ <-].
    set (c1 := write_log _ _ c).
    destruct (maybe_checkpoint_traffic (ack_pending c1 (env_xact (msg_private msg))))
      as (El & _ & _ & _ & _ & Eq & _).
    split; [exact El | exact Eq].
  - cbn [bind Z.eqb]. intros [= _ <-].
    destruct (maybe_checkpoint_traffic (ack_pending c (env_xact (msg_private msg))))
      as (El & _ & _ & _ & _ & Eq & _).
    split; [exact El | exact Eq].
Qed.

Lemma deliver_tracked (c : producer_context) (slot : nat) (k : Z)
    (i : nat) (m msg : rd_kafka_message) (r : unit) (c' : producer_context) :
  tracked c slot k ->
  kafka_queue c !! i = Some m ->
  msg_private msg = msg_private m ->
  on_deliver_msg (with_kafka_queue c (delete i (kafka_queue c))) msg = Returned r c' ->
  tracked c' slot k.
Proof.
  intros (Hs & Hk & Hp & Hmax) Hi Hmsg Hd.
  apply on_deliver_msg_returned in Hd. destruct Hd as (El & Eq).
  rewrite Hmsg in El.
  pose proof (in_flight_of_delete slot _ _ _ Hi) as Hdel.
  pose proof (in_flight_of_nonneg slot (delete i (kafka_queue c))) as Hnn.
  unfold tracked, in_flight, xact_at in *. rewrite El, Eq.
  unfold ack_pending, xact_at. fields. rewrite length_insert.
  split; [exact Hs|]. split; [exact Hk|].
  destruct (Nat.eqb_spec (env_xact (msg_private m)) slot) as [->|Hne].
  - rewrite list_lookup_total_insert_eq by assumption. cbn [pending_events].
    rewrite int_wrap_small by (unfold INT_MIN, INT_MAX in *; lia).
    unfold INT_MAX in *. lia.
  - rewrite list_lookup_total_insert_ne by assumption. lia.
Qed.

Lemma rd_kafka_poll_tracked (slot : nat) (k : Z) (reports : list (nat * Z)) :
  forall c r c',
    tracked c slot k -> rd_kafka_poll reports c = Returned r c' -> tracked c' slot k.
Proof.
  induction reports as [|[i e] rest IH]; intros c r c' Ht; cbn [rd_kafka_poll].
  - intros [= _ <-]. exact Ht.
  - destruct (kafka_queue c !! i) as [m|] eqn:Hi; [|apply IH; exact Ht].
    destruct (on_deliver_msg _ _) as [r1 c1|s c1|c1] eqn:Hd; try discriminate.
    apply IH. eapply deliver_tracked; [exact Ht | exact Hi | | exact Hd]. reflexivity.
Qed.

Lemma backpressure_returned (c : producer_context) (env : poll_env)
    (r : unit) (c' : producer_context) :
  backpressure c env = Returned r c' -> rd_kafka_poll (poll_reports env) c = Returned tt c'.
Proof.
  unfold backpressure.
  destruct (rd_kafka_poll _ _) as [[] c1|s c1|c1]; cbn [bind]; try discriminate.
  destruct (negb (shutdown_signal env =? 0)); [discriminate|].
  destruct (negb (keepalive_err env =? 0)); [discriminate|].
  intros [= _ <-]. reflexivity.
Qed.

Lemma backpressure_tracked (slot : nat) (k : Z) (c : producer_context) (env : poll_env)
    (r : unit) (c' : producer_context) :
  tracked c slot k -> backpressure c env = Returned r c' -> tracked c' slot k.
Proof.
  intros Ht Hb. apply backpressure_returned in Hb.
  eapply rd_kafka_poll_tracked; eassumption.
Qed.

(** ** The enqueue loop *)

Lemma same_receipts_refl (c : producer_context) : same_receipts c c.
Proof. repeat split. Qed.

Lemma same_receipts_trans (c1 c2 c3 : producer_context) :
  same_receipts c1 c2 -> same_receipts c2 c3 -> same_receipts c1 c3.
Proof.
  intros (Hh & Hl & Hr) (Hh' & Hl' & Hr'). repeat split; congruence.
Qed.

Lemma polled_receipts (c c' : producer_context) : polled c c' -> same_receipts c c'.
Proof.
  intros (Hh & Hl & _ & _ & _ & _ & Hs). repeat split; try assumption.
  intros i. apply Hs.
Qed.

Lemma rd_kafka_accept_tracked (c : producer_context) (m : rd_kafka_message) (k : Z) :
  0 <= k ->
  tracked c (env_xact (msg_private m)) (k + 1) ->
  tracked (rd_kafka_accept c m) (env_xact (msg_private m)) k.
Proof.
  unfold tracked, in_flight, rd_kafka_accept, xact_at. fields.
  rewrite in_flight_of_app, Nat.eqb_refl. lia.
Qed.

Lemma produce_loop_tracked (table : table_metadata) (key val : option buffer)
    (envelope : msg_envelope) (k : Z) (script : list produce_attempt) :
  0 <= k ->
  forall c r c',
    tracked c (env_xact envelope) (k + 1) ->
    produce_loop script c table key val envelope = Returned r c' ->
    tracked c' (env_xact envelope) (k + if r =? 0 then 0 else 1).
Proof.
  intros Hk.
  induction script as [|a rest IH]; intros c r c' Ht; cbn [produce_loop];
    [discriminate|].
  set (m := mk_message (topic table) val key envelope 0).
  destruct (produce_err a =? 0) eqn:Herr.
  - assert (tracked (rd_kafka_accept c m) (env_xact envelope) k) as Ht1
        by (apply (rd_kafka_accept_tracked c m k Hk), Ht).
    destruct (errno_queue_full a).
    + destruct (backpressure _ _) as [r1 c1|s c1|c1] eqn:Hb; try discriminate.
      intros [= <- <-]. cbn [Z.eqb]. rewrite Z.add_0_r.
      eapply backpressure_tracked; eassumption.
    + cbn [negb]. intros [= <- <-]. cbn [Z.eqb]. rewrite Z.add_0_r. exact Ht1.
  - destruct (errno_queue_full a).
    + destruct (backpressure _ _) as [r1 c1|s c1|c1] eqn:Hb; try discriminate.
      apply IH. eapply backpressure_tracked; eassumption.
    + cbn [negb]. intros [= <- <-]. rewrite Herr. exact Ht.
Qed.

Lemma produce_loop_produced (table : table_metadata) (key val : option buffer)
    (envelope : msg_envelope) (script : list produce_attempt) :
  forall c r c',
    produce_loop script c table key val envelope = Returned r c' ->
    produced c'
    = if r =? 0 then mk_message (topic table) val key envelope 0 :: produced c
      else produced c.
Proof.
  induction script as [|a rest IH]; intros c r c'; cbn [produce_loop];
    [discriminate|].
  destruct (produce_err a =? 0) eqn:Herr.
  - destruct (errno_queue_full a).
    + pose proof (backpressure_polled
                    (rd_kafka_accept c (mk_message (topic table) val key envelope 0))
                    (attempt_poll a)) as Hp.
      destruct (backpressure _ _) as [r1 c1|s c1|c1]; try discriminate.
      intros [= <- <-]. destruct Hp as (_ & _ & _ & _ & _ & Hp & _). exact Hp.
    + cbn [negb]. intros [= <- <-]. reflexivity.
  - destruct (errno_queue_full a).
    + pose proof (backpressure_polled c (attempt_poll a)) as Hp.
      destruct (backpressure _ _) as [r1 c1|s c1|c1]; try discriminate.
      intros Hl. rewrite (IH _ _ _ Hl).
      destruct Hp as (_ & _ & _ & _ & _ & Hp & _). cbn [final_context] in Hp.
      rewrite Hp. reflexivity.
    + cbn [negb]. intros [= <- <-]. rewrite Herr. reflexivity.
Qed.

Lemma produce_loop_receipts (table : table_metadata) (key val : option buffer)
    (envelope : msg_envelope) (script : list produce_attempt) :
  forall c, same_receipts c (final_context (produce_loop script c table key val envelope)).
Proof.
  induction script as [|a rest IH]; intros c; cbn [produce_loop];
    [apply same_receipts_refl|].
  set (c1 := if produce_err a =? 0 then _ else c).
  assert (same_receipts c c1) as H1 by (unfold c1; destruct (_ =? 0); repeat split).
  destruct (errno_queue_full a).
  - pose proof (polled_receipts _ _ (backpressure_polled c1 (attempt_poll a))) as Hp.
    destruct (backpressure _ _) as [r1 c2|s c2|c2]; cbn [final_context] in *;
      try exact (same_receipts_trans _ _ _ H1 Hp).
    destruct (produce_err a =? 0); cbn [final_context].
    + exact (same_receipts_trans _ _ _ H1 Hp).
    + exact (same_receipts_trans _ _ _ (same_receipts_trans _ _ _ H1 Hp) (IH c2)).
  - destruct (negb _); cbn [final_context]; [|exact H1].
    eapply same_receipts_trans; [exact H1 | repeat split].
Qed.

(** ** The producer path *)

Section ProducerProperties.

Variable json_encode_msg :
  table_metadata -> option buffer -> option buffer -> Z * option buffer * option buffer.
Variable schema_registry_encode_msg :
  Z -> Z -> option buffer -> option buffer -> Z * option buffer * option buffer.

Local Abbreviation send := (send_kafka_msg json_encode_msg schema_registry_encode_msg).
Local Abbreviation encode := (encode_for json_encode_msg schema_registry_encode_msg).
Local Abbreviation delete_row := (on_delete_row json_encode_msg schema_registry_encode_msg).

(** The ways in which [send_kafka_msg] returns: an error before the enqueue
    loop, logged on the context in which the event is counted and the
    envelope allocated, or the return of the enqueue loop. *)
Lemma send_kafka_msg_returned (c : producer_context) (wal_pos relid : Z)
    (key_bin val_bin : option buffer) (script : list produce_attempt)
    (r : Z) (c' : producer_context) :
  send c wal_pos relid key_bin val_bin script = Returned r c' ->
  let envelope := mk_envelope wal_pos relid (Z.to_nat (xact_head c)) in
  let c2 := malloc_envelope (count_event c (Z.to_nat (xact_head c))) envelope in
  (r <> 0 /\ exists txt, c' = write_log LOG_ERROR txt c2) \/
  (exists table key val,
      table_mapper_lookup (mapper c) relid = Some table /\
      encode c table key_bin val_bin = (0, key, val) /\
      produce_loop script c2 table key val envelope = Returned r c').
Proof.
  intros Hs envelope c2. unfold send_kafka_msg in Hs. fold envelope c2 in Hs.
  change (mapper c2) with (mapper c) in Hs.
  change (output_format c2) with (output_format c) in Hs.
  destruct (table_mapper_lookup (mapper c) relid) as [table|].
  2:{ injection Hs as <- <-. left. split; [discriminate | eexists; reflexivity]. }
  unfold encode_for.
  destruct (output_format c); [discriminate| |].
  - destruct (schema_registry_encode_msg _ _ _ _) as [[err key] val] eqn:Henc.
    destruct (err =? 0) eqn:He; cbn [negb] in Hs.
    + apply Z.eqb_eq in He. subst err. right. exists table, key, val.
      split; [reflexivity|]. split; [exact Henc | exact Hs].
    + injection Hs as <- <-. apply Z.eqb_neq in He.
      left. split; [exact He | eexists; reflexivity].
  - destruct (json_encode_msg _ _ _) as [[err key] val] eqn:Henc.
    destruct (err =? 0) eqn:He; cbn [negb] in Hs.
    + apply Z.eqb_eq in He. subst err. right. exists table, key, val.
      split; [reflexivity|]. split; [exact Henc | exact Hs].
    + injection Hs as <- <-. apply Z.eqb_neq in He.
      left. split; [exact He | eexists; reflexivity].
Qed.

Lemma count_event_tracked (c : producer_context) (slot : nat) (k : Z)
    (envelope : msg_envelope) :
  tracked c slot k ->
  pending_events (xact_at c slot) < INT_MAX ->
  tracked (malloc_envelope (count_event c slot) envelope) slot (k + 1).
Proof.
  intros (Hs & Hk & Hp & _) Hmax.
  pose proof (in_flight_of_nonneg slot (kafka_queue c)) as Hnn.
  unfold tracked, in_flight, malloc_envelope, count_event, xact_at in *. fields.
  rewrite length_insert, list_lookup_total_insert_eq by assumption.
  cbn [pending_events].
  rewrite int_wrap_small by (unfold INT_MIN, INT_MAX in *; lia).
  unfold INT_MAX in *. lia.
Qed.

Lemma send_kafka_msg_tracked (c : producer_context) (wal_pos relid : Z)
    (key_bin val_bin : option buffer) (script : list produce_attempt)
    (k r : Z) (c' : producer_context) :
  let slot := Z.to_nat (xact_head c) in
  tracked c slot k ->
  pending_events (xact_at c slot) < INT_MAX ->
  send c wal_pos relid key_bin val_bin script = Returned r c' ->
  tracked c' slot (k + if r =? 0 then 0 else 1).
Proof.
  intros slot Ht Hmax Hs.
  pose proof (count_event_tracked c slot k (mk_envelope wal_pos relid slot) Ht Hmax) as H2.
  destruct (send_kafka_msg_returned _ _ _ _ _ _ _ _ Hs)
    as [(Hr & txt & ->)|(table & key & val & _ & _ & Hl)].
  - apply Z.eqb_neq in Hr. rewrite Hr. exact H2.
  - destruct Ht as (_ & Hk & _).
    exact (produce_loop_tracked table key val (mk_envelope wal_pos relid slot) k script
             Hk _ _ _ H2 Hl).
Qed.

Lemma send_kafka_msg_receipts (c : producer_context) (wal_pos relid : Z)
    (key_bin val_bin : option buffer) (script : list produce_attempt) :
  let slot := Z.to_nat (xact_head c) in
  let c' := final_context (send c wal_pos relid key_bin val_bin script) in
  (slot < length (xact_list c))%nat ->
  xact_head c' = xact_head c /\
  recvd_events (xact_at c' slot) = int_wrap (recvd_events (xact_at c slot) + 1).
Proof.
  intros slot c' Hslot.
  set (c2 := malloc_envelope (count_event c slot) (mk_envelope wal_pos relid slot)).
  assert (same_receipts c2 c') as (Hh & _ & Hr).
  { unfold c', send_kafka_msg. fold slot. fold c2.
    destruct (table_mapper_lookup _ _) as [table|]; [|repeat split].
    destruct (output_format c2).
    - apply polled_receipts, fatal_error_polled.
    - destruct (schema_registry_encode_msg _ _ _ _) as [[err key] val].
      destruct (negb _); [repeat split | apply produce_loop_receipts].
    - destruct (json_encode_msg _ _ _) as [[err key] val].
      destruct (negb _); [repeat split | apply produce_loop_receipts]. }
  split; [exact Hh|]. rewrite Hr.
  unfold c2, malloc_envelope, count_event, xact_at. fields.
  rewrite list_lookup_total_insert_eq by assumption. reflexivity.
Qed.

Lemma send_kafka_msg_produced (c : producer_context) (wal_pos relid : Z)
    (key_bin val_bin : option buffer) (script : list produce_attempt)
    (r : Z) (c' : producer_context) :
  send c wal_pos relid key_bin val_bin script = Returned r c' ->
  if r =? 0 then
    exists table key val,
      table_mapper_lookup (mapper c) relid = Some table /\
      encode c table key_bin val_bin = (0, key, val) /\
      produced c'
      = mk_message (topic table) val key
          (mk_envelope wal_pos relid (Z.to_nat (xact_head c))) 0 :: produced c
  else produced c' = produced c.
Proof.
  intros Hs.
  destruct (send_kafka_msg_returned _ _ _ _ _ _ _ _ Hs)
    as [(Hr & txt & ->)|(table & key & val & Hlook & Henc & Hl)].
  - apply Z.eqb_neq in Hr. rewrite Hr. reflexivity.
  - apply produce_loop_produced in Hl. destruct (r =? 0); [|exact Hl].
    exists table, key, val. auto.
Qed.

(** When the table is known, the encoder succeeds and the broker client
    accepts the message at the first attempt, [send_kafka_msg] returns 0
    with the message enqueued. *)
Lemma send_kafka_msg_accepted (c : producer_context) (wal_pos relid : Z)
    (key_bin val_bin : option buffer) (a : produce_attempt) (rest : list produce_attempt)
    (table : table_metadata) (key val : option buffer) :
  let envelope := mk_envelope wal_pos relid (Z.to_nat (xact_head c)) in
  table_mapper_lookup (mapper c) relid = Some table ->
  output_format c <> OUTPUT_FORMAT_UNDEFINED ->
  encode c table key_bin val_bin = (0, key, val) ->
  produce_err a = 0 ->
  errno_queue_full a = false ->
  send c wal_pos relid key_bin val_bin (a :: rest)
  = Returned 0
      (rd_kafka_accept
         (malloc_envelope (count_event c (Z.to_nat (xact_head c))) envelope)
         (mk_message (topic table) val key envelope 0)).
Proof.
  intros envelope Hlook Hfmt Henc Herr Hfull. unfold send_kafka_msg. fold envelope.
  set (c2 := malloc_envelope _ envelope).
  change (mapper c2) with (mapper c). change (output_format c2) with (output_format c).
  rewrite Hlook. unfold encode_for in Henc.
  destruct (output_format c); [contradiction| |]; rewrite Henc;
    cbn [Z.eqb negb produce_loop]; rewrite Herr, Hfull; reflexivity.
Qed.

(** C2, as the code has it.  Every call of [send_kafka_msg] counts the event
    on the head transaction at entry, before the lookup, the encoding and
    the enqueue: whatever it returns, [recvd_events] is one higher.  On a
    return of 0 the rise of [pending_events] is matched by the one message
    that was enqueued; on an error return nothing was enqueued and the rise
    stays, so the pending count stands one further above the messages in
    flight. *)
Theorem send_counts_event_before_enqueue (c : producer_context) (wal_pos relid : Z)
    (key_bin val_bin : option buffer) (script : list produce_attempt) :
  let slot := Z.to_nat (xact_head c) in
  ring_wf c ->
  INT_MIN <= recvd_events (xact_at c slot) < INT_MAX ->
  0 <= unacked_excess c slot ->
  pending_events (xact_at c slot) < INT_MAX ->
  forall r c',
    send c wal_pos relid key_bin val_bin script = Returned r c' ->
    recvd_events (xact_at c' slot) = recvd_events (xact_at c slot) + 1 /\
    unacked_excess c' slot = unacked_excess c slot + (if r =? 0 then 0 else 1) /\
    (r = 0 ->
     exists m, produced c' = m :: produced c /\
               msg_private m = mk_envelope wal_pos relid slot) /\
    (r <> 0 -> produced c' = produced c).
Proof.
  intros slot Hwf Hrecvd Hex Hmax r c' Hs.
  pose proof (head_slot_in_range c Hwf) as Hslot. fold slot in Hslot.
  pose proof (send_kafka_msg_receipts c wal_pos relid key_bin val_bin script Hslot)
    as (_ & Hr).
  rewrite Hs in Hr. cbn [final_context] in Hr. fold slot in Hr.
  rewrite int_wrap_small in Hr by (unfold INT_MIN, INT_MAX in *; lia).
  assert (tracked c slot (unacked_excess c slot)) as Ht.
  { unfold tracked, unacked_excess in *. repeat split; try assumption; lia. }
  pose proof (send_kafka_msg_tracked _ _ _ _ _ _ _ _ _ Ht Hmax Hs) as (_ & _ & Hp & _).
  pose proof (send_kafka_msg_produced _ _ _ _ _ _ _ _ Hs) as Hprod.
  split; [exact Hr|]. split; [unfold unacked_excess in *; fold slot in Hp; lia|].
  split.
  - intros ->. cbn [Z.eqb] in Hprod. destruct Hprod as (table & key & val & _ & _ & E).
    eexists. split; [exact E | reflexivity].
  - intros Hne. apply Z.eqb_neq in Hne. rewrite Hne in Hprod. exact Hprod.
Qed.

(** C3.  A call of [send_kafka_msg] that returns an error (unknown
    relation, failed encoding, enqueue error other than "queue full") has
    counted the event on the head transaction and does not take the count
    back.  If the pending count matched the messages in flight before the
    call, then after it the transaction at the head has
    [pending_events > 0], one more than the messages in flight for it; and
    whatever delivery reports follow, the count stays one above the messages
    in flight, so it never reaches the 0 that the checkpointer waits for. *)
Theorem failed_send_leaves_pending_count_stuck (c : producer_context) (wal_pos relid : Z)
    (key_bin val_bin : option buffer) (script : list produce_attempt) :
  let slot := Z.to_nat (xact_head c) in
  ring_wf c ->
  INT_MIN <= recvd_events (xact_at c slot) < INT_MAX ->
  pending_events (xact_at c slot) = in_flight c slot ->
  pending_events (xact_at c slot) < INT_MAX ->
  forall r c',
    send c wal_pos relid key_bin val_bin script = Returned r c' ->
    r <> 0 ->
    xact_head c' = xact_head c /\
    recvd_events (xact_at c' slot) = recvd_events (xact_at c slot) + 1 /\
    pending_events (xact_at c' slot) = in_flight c' slot + 1 /\
    pending_events (xact_at c' slot) > 0 /\
    forall reports r' c'',
      rd_kafka_poll reports c' = Returned r' c'' ->
      xact_head c'' = xact_head c /\
      pending_events (xact_at c'' slot) = in_flight c'' slot + 1 /\
      pending_events (xact_at c'' slot) > 0 /\
      checkpoint_ready (xact_at c'' slot) = false.
Proof.
  intros slot Hwf Hrecvd Hacc Hmax r c' Hs Hr.
  pose proof (head_slot_in_range c Hwf) as Hslot. fold slot in Hslot.
  pose proof (send_kafka_msg_receipts c wal_pos relid key_bin val_bin script Hslot)
    as (Hh & Hrc).
  rewrite Hs in Hh, Hrc. cbn [final_context] in Hh, Hrc. fold slot in Hrc.
  rewrite int_wrap_small in Hrc by (unfold INT_MIN, INT_MAX in *; lia).
  assert (tracked c slot 0) as Ht.
  { unfold tracked. repeat split; try assumption; lia. }
  pose proof (send_kafka_msg_tracked _ _ _ _ _ _ _ _ _ Ht Hmax Hs) as Ht'.
  fold slot in Ht'. apply Z.eqb_neq in Hr. rewrite Hr in Ht'. cbn in Ht'.
  pose proof (in_flight_of_nonneg slot (kafka_queue c')) as Hnn.
  split; [exact Hh|]. split; [exact Hrc|].
  destruct Ht' as (Hs' & _ & Hp' & Hmax'). unfold in_flight in *.
  split; [exact Hp'|]. split; [lia|].
  intros reports r' c'' Hpoll.
  assert (tracked c' slot 1) as Ht1 by (unfold tracked, in_flight; auto with zarith).
  pose proof (rd_kafka_poll_tracked slot 1 reports c' r' c'' Ht1 Hpoll)
    as (_ & _ & Hp'' & _).
  pose proof (rd_kafka_poll_polled reports c') as (Hh'' & _).
  rewrite Hpoll in Hh''. cbn [final_context] in Hh''.
  pose proof (in_flight_of_nonneg slot (kafka_queue c'')) as Hnn''.
  unfold in_flight in *.
  split; [congruence|]. split; [exact Hp''|]. split; [lia|].
  unfold checkpoint_ready. replace (pending_events (xact_at c'' slot) =? 0) with false by lia.
  reflexivity.
Qed.

(** C10.  With encoders that hand a nil value on as nil, a delete event
    without a key returns 0 and leaves the context, and with it the broker's
    queue, as it was; a delete event with a key goes through
    [send_kafka_msg] with that key and no value, and when it returns 0
    exactly one message has been enqueued: it has a key and a nil payload.
    It does return 0 when the table is known, the encoder succeeds and the
    broker client accepts the message at the first attempt. *)
Theorem delete_row_sends_key_with_nil_value (c : producer_context) (wal_pos relid : Z)
    (key_bin old_bin : option buffer) (script : list produce_attempt) :
  (forall table, keeps_nil_value (json_encode_msg table)) ->
  (forall key_id row_id, keeps_nil_value (schema_registry_encode_msg key_id row_id)) ->
  (key_bin = None ->
   delete_row c wal_pos relid key_bin old_bin script = Returned 0 c) /\
  (forall k,
     key_bin = Some k ->
     delete_row c wal_pos relid key_bin old_bin script
     = send c wal_pos relid (Some k) None script /\
     forall r c',
       delete_row c wal_pos relid key_bin old_bin script = Returned r c' ->
       (r = 0 ->
        exists m, produced c' = m :: produced c /\
                  is_Some (msg_key m) /\ msg_payload m = None /\
                  msg_private m = mk_envelope wal_pos relid (Z.to_nat (xact_head c))) /\
       (r <> 0 -> produced c' = produced c)) /\
  (forall k table key val a rest,
     key_bin = Some k ->
     script = a :: rest ->
     table_mapper_lookup (mapper c) relid = Some table ->
     output_format c <> OUTPUT_FORMAT_UNDEFINED ->
     encode c table (Some k) None = (0, key, val) ->
     produce_err a = 0 ->
     errno_queue_full a = false ->
     exists c',
       delete_row c wal_pos relid key_bin old_bin script = Returned 0 c' /\
       kafka_queue c'
       = kafka_queue c
         ++ [mk_message (topic table) None key
               (mk_envelope wal_pos relid (Z.to_nat (xact_head c))) 0]).
Proof.
  intros Hjson Havro. split; [intros ->; reflexivity|].
  split.
  2:{ intros k table key val a rest -> -> Hlook Hfmt Henc Herr Hfull.
      assert (val = None) as ->.
      { unfold encode_for in Henc. destruct (output_format c).
        - contradiction.
        - eapply Havro; [exact Henc | reflexivity].
        - eapply Hjson; [exact Henc | reflexivity]. }
      eexists. split.
      - cbn [on_delete_row]. eapply send_kafka_msg_accepted; eassumption.
      - reflexivity. }
  intros k ->. split; [reflexivity|].
  intros r c' Hs. cbn [on_delete_row] in Hs.
  pose proof (send_kafka_msg_produced _ _ _ _ _ _ _ _ Hs) as Hprod.
  split.
  - intros ->. cbn [Z.eqb] in Hprod.
    destruct Hprod as (table & key & val & _ & Henc & E).
    assert (is_Some key /\ val = None) as [Hkey ->].
    { unfold encode_for in Henc. destruct (output_format c).
      - eapply Havro; [exact Henc | reflexivity].
      - eapply Havro; [exact Henc | reflexivity].
      - eapply Hjson; [exact Henc | reflexivity]. }
    eexists. split; [exact E|]. repeat split. exact Hkey.
  - intros Hne. apply Z.eqb_neq in Hne. rewrite Hne in Hprod. exact Hprod.
Qed.

End ProducerProperties.

(** ** Topic names *)

Lemma sscanf_literal_s_matched (literal rest : c_string) :
  sscanf_literal_s literal (literal ++ rest) = scan_percent_s rest.
Proof.
  induction literal as [|f literal IH]; cbn [sscanf_literal_s app]; [reflexivity|].
  rewrite Ascii.eqb_refl. exact IH.
Qed.

(** The input ends before the ordinary characters of the format do. *)
Lemma sscanf_literal_s_short (input more : c_string) :
  more <> [] -> sscanf_literal_s (input ++ more) input = ScanEOF.
Proof.
  intros Hmore. induction input as [|a input IH]; cbn [sscanf_literal_s app].
  - destruct more; [contradiction | reflexivity].
  - rewrite Ascii.eqb_refl. exact IH.
Qed.

(** The input departs from the ordinary characters of the format. *)
Lemma sscanf_literal_s_differs (common : c_string) (f a : ascii) (literal input : c_string) :
  a <> f ->
  sscanf_literal_s (common ++ f :: literal) (common ++ a :: input) = ScanMismatch.
Proof.
  intros Hne. induction common as [|x common IH]; cbn [sscanf_literal_s app].
  - apply Ascii.eqb_neq in Hne. rewrite Hne. reflexivity.
  - rewrite Ascii.eqb_refl. exact IH.
Qed.

Lemma scan_word_all (word : c_string) :
  Forall (fun a => isspace a = false) word -> scan_word word = word.
Proof.
  induction 1 as [|a word Ha _ IH]; cbn [scan_word]; [reflexivity|].
  rewrite Ha, IH. reflexivity.
Qed.

Lemma scan_percent_s_word (word : c_string) :
  word <> [] ->
  Forall (fun a => isspace a = false) word ->
  scan_percent_s word = ScanAssigned word.
Proof.
  intros Hne Hall. unfold scan_percent_s.
  destruct word as [|a word]; [contradiction|].
  pose proof (scan_word_all _ Hall) as Hw.
  inversion Hall as [|? ? Ha _]; subst. cbn [skip_space]. rewrite Ha, Hw. reflexivity.
Qed.

Lemma strncat_clamps (s t : c_string) :
  strlen s < TABLE_NAME_BUFFER_LENGTH ->
  strncat s t (size_wrap (TABLE_NAME_BUFFER_LENGTH - strlen s - 1))
  = firstn (Z.to_nat (TABLE_NAME_BUFFER_LENGTH - 1)) (s ++ t).
Proof.
  unfold strncat, size_wrap, strlen, TABLE_NAME_BUFFER_LENGTH. intros Hlen.
  rewrite Z.mod_small by lia.
  rewrite firstn_app, (firstn_all2 s) by lia.
  f_equal. f_equal. lia.
Qed.

Lemma firstn_firstn_app {A} (n : nat) (l t : list A) :
  firstn n (firstn n l ++ t) = firstn n (l ++ t).
Proof.
  rewrite !firstn_app, firstn_firstn, Nat.min_id, length_firstn.
  f_equal. f_equal. lia.
Qed.

Section TopicNameProperties.

Variable GENERATED_SCHEMA_NAMESPACE : c_string.

Local Abbreviation topic_name := (topic_name_from_avro_schema GENERATED_SCHEMA_NAMESPACE).

(** On a namespace made of the generated prefix, a dot and a Postgres
    schema name that is not empty, holds no white space and fits the
    buffer, the topic is the table name for the schema [public] and
    [<schema>.<table>] for any other, cut to 127 characters. *)
Lemma topic_name_of_generated_namespace (pg_schema table : c_string) :
  pg_schema <> [] ->
  Forall (fun a => isspace a = false) pg_schema ->
  strlen pg_schema < TABLE_NAME_BUFFER_LENGTH ->
  topic_name (mk_schema (GENERATED_SCHEMA_NAMESPACE ++ c_dot ++ pg_schema) table)
  = Defined
      (firstn (Z.to_nat (TABLE_NAME_BUFFER_LENGTH - 1))
         (if bool_decide (pg_schema = c_public) then table
          else pg_schema ++ c_dot ++ table)).
Proof.
  intros Hne Hall Hlen. unfold topic_name_from_avro_schema.
  cbn [avro_schema_namespace avro_schema_name].
  rewrite (app_assoc GENERATED_SCHEMA_NAMESPACE), sscanf_literal_s_matched.
  rewrite scan_percent_s_word by assumption. cbn [scan_count Z.eqb].
  replace (strlen pg_schema + 1 <=? TABLE_NAME_BUFFER_LENGTH) with true by lia.
  destruct (bool_decide (pg_schema = c_public)); [reflexivity|].
  f_equal. rewrite (strncat_clamps pg_schema c_dot Hlen).
  set (s1 := firstn _ (pg_schema ++ c_dot)).
  assert (strlen s1 < TABLE_NAME_BUFFER_LENGTH) as Hlen1.
  { unfold s1, strlen, TABLE_NAME_BUFFER_LENGTH in *. rewrite length_firstn. lia. }
  rewrite (strncat_clamps s1 table Hlen1). unfold s1.
  rewrite (app_assoc pg_schema). apply firstn_firstn_app.
Qed.

(** On a namespace that departs from the generated prefix at some
    character, the topic is the table name, cut to 127 characters. *)
Lemma topic_name_of_foreign_namespace
    (common : c_string) (f a : ascii) (literal rest table : c_string) :
  GENERATED_SCHEMA_NAMESPACE ++ c_dot = common ++ f :: literal ->
  a <> f ->
  topic_name (mk_schema (common ++ a :: rest) table)
  = Defined (firstn (Z.to_nat (TABLE_NAME_BUFFER_LENGTH - 1)) table).
Proof.
  intros Hlit Hne. unfold topic_name_from_avro_schema.
  cbn [avro_schema_namespace avro_schema_name].
  rewrite Hlit, sscanf_literal_s_differs by assumption. reflexivity.
Qed.

(** On a namespace that stops short of the generated prefix and its dot,
    [sscanf] returns [EOF], which the test [!matched] takes for a match,
    and the topic is built from an array nothing has written to. *)
Lemma topic_name_of_short_namespace (namespace more table : c_string) :
  more <> [] ->
  GENERATED_SCHEMA_NAMESPACE ++ c_dot = namespace ++ more ->
  topic_name (mk_schema namespace table) = Undefined.
Proof.
  intros Hmore Hlit. unfold topic_name_from_avro_schema.
  cbn [avro_schema_namespace avro_schema_name].
  rewrite Hlit, sscanf_literal_s_short by assumption. reflexivity.
Qed.

(** C9, where the code departs from it.  A schema whose namespace is the
    generated prefix itself, with no schema name after it, or the empty
    string, does not match ["<prefix>.%s"]; the naming rule gives it the table
    name as its topic, the code reads the array [topic_name] before anything
    was written to it. *)
Theorem topic_name_undefined_without_schema_part (table : c_string) :
  topic_name (mk_schema GENERATED_SCHEMA_NAMESPACE table) = Undefined /\
  topic_name (mk_schema [] table) = Undefined.
Proof.
  split.
  - apply (topic_name_of_short_namespace _ c_dot); [discriminate | reflexivity].
  - apply (topic_name_of_short_namespace _ (GENERATED_SCHEMA_NAMESPACE ++ c_dot));
      [|reflexivity].
    destruct GENERATED_SCHEMA_NAMESPACE; discriminate.
Qed.

End TopicNameProperties.

(** ** Worked cases *)

Ltac by_evaluation :=
  vm_compute; repeat (match goal with |- _ /\ _ => split end);
  try reflexivity; try discriminate.

Lemma context_in_txn_wf : ring_wf context_in_txn.
Proof. by_evaluation. Qed.

Lemma verbatim_keeps_nil_value (table : table_metadata) :
  keeps_nil_value (verbatim_encode_msg table).
Proof. intros k err key val [= <- <- <-] _. split; [eexists|]; reflexivity. Qed.

Lemma framing_keeps_nil_value (key_id row_id : Z) :
  keeps_nil_value (framing_encode_msg key_id row_id).
Proof. intros k err key val [= <- <- <-] _. split; [eexists|]; reflexivity. Qed.

Lemma checkpointer_walks_from_tail_witness :
  ring_wf context_committed /\
  fsync_lsn (checkpoint_slot context_committed) = 512 /\
  maybe_checkpoint context_committed = checkpoint_slot context_committed.
Proof.
  assert (ring_wf context_committed) as Hwf by by_evaluation.
  split; [exact Hwf|].
  destruct (checkpointer_walks_from_tail context_committed Hwf) as (_ & _ & _ & Hwalk).
  destruct Hwalk as (Hfsync & _ & _ & _ & _ & Hloop); [by_evaluation; left; reflexivity|].
  split; [exact Hfsync | exact Hloop].
Defined.

Lemma checkpoint_moves_fsync_lsn_to_commit_lsn_witness :
  (ring_wf context_late_commit /\
   In (LOG_WARN, TxtCommitsNotInWalOrder 512 256)
     (log (maybe_checkpoint context_late_commit)) /\
   fsync_lsn (checkpoint_slot context_late_commit) = 256) /\
  (ring_wf context_third_commit /\
   fsync_lsn context_third_commit = 600 /\
   commit_lsn (xact_at context_third_commit (slot_from_tail context_third_commit 0)) = 700 /\
   fsync_lsn context_third_commit <= fsync_lsn (maybe_checkpoint context_third_commit)).
Proof.
  split.
  - assert (ring_wf context_late_commit) as Hwf by by_evaluation.
    split; [exact Hwf|].
    destruct (checkpoint_moves_fsync_lsn_to_commit_lsn context_late_commit Hwf)
      as (Hwarn & _ & _).
    apply Hwarn; by_evaluation.
  - assert (ring_wf context_third_commit) as Hwf by by_evaluation.
    split; [exact Hwf|]. split; [reflexivity|]. split; [reflexivity|].
    destruct (checkpoint_moves_fsync_lsn_to_commit_lsn context_third_commit Hwf)
      as (_ & _ & Hmono).
    apply Hmono. intros j Hj _.
    assert (passes_left context_third_commit = 1) as Hone by reflexivity.
    assert (j = 0) as -> by lia.
    vm_compute. discriminate.
Defined.

Lemma delivery_callback_applies_policy_witness :
  is_fatal (on_deliver_msg context_in_txn (sample_report (-1))) /\
  (exists c',
     on_deliver_msg (malloc_envelope context_in_txn sample_envelope) (sample_report 0)
     = Returned tt c' /\
     envelopes c' = []) /\
  (exists c',
     on_deliver_msg context_two_envelopes (sample_report 0) = Returned tt c' /\
     In sample_envelope (envelopes context_two_envelopes) /\
     allocated_of sample_envelope (envelopes c')
     = allocated_of sample_envelope (envelopes context_two_envelopes) - 1 /\
     allocated_of (mk_envelope 501 1 0) (envelopes c')
     = allocated_of (mk_envelope 501 1 0) (envelopes context_two_envelopes)).
Proof.
  split; [|split].
  - apply (delivery_callback_applies_policy context_in_txn (sample_report (-1)));
      by_evaluation.
  - destruct (delivery_callback_applies_policy
                (malloc_envelope context_in_txn sample_envelope) (sample_report 0))
      as (Hok & _).
    eexists. split; [exact (Hok eq_refl) | reflexivity].
  - destruct (delivery_callback_applies_policy context_two_envelopes (sample_report 0))
      as (Hok & _ & _ & Hfreed).
    eexists. split; [exact (Hok eq_refl)|].
    assert (In sample_envelope (envelopes context_two_envelopes)) as Hin
        by (right; left; reflexivity).
    split; [exact Hin|].
    destruct (Hfreed _ _ (Hok eq_refl)) as (_ & Hone & Hothers & _).
    split; [exact (Hone Hin)|]. apply Hothers. discriminate.
Defined.

Lemma send_counts_event_before_enqueue_witness :
  ring_wf context_in_txn /\
  (let c' := write_log LOG_ERROR (TxtNoRegisteredSchema 5)
               (malloc_envelope (count_event context_in_txn 0) (mk_envelope 500 5 0)) in
   send_kafka_msg verbatim_encode_msg framing_encode_msg context_in_txn 500 5
     (Some [Byte.x01]) (Some [Byte.x02]) [] = Returned 1 c' /\
   recvd_events (xact_at c' 0) = 1 /\
   unacked_excess c' 0 = 1).
Proof.
  split; [exact context_in_txn_wf|]. intros c'.
  assert (send_kafka_msg verbatim_encode_msg framing_encode_msg context_in_txn 500 5
            (Some [Byte.x01]) (Some [Byte.x02]) [] = Returned 1 c') as Hs
    by (vm_compute; reflexivity).
  split; [exact Hs|].
  destruct (send_counts_event_before_enqueue verbatim_encode_msg framing_encode_msg
              context_in_txn 500 5 (Some [Byte.x01]) (Some [Byte.x02]) []
              context_in_txn_wf ltac:(by_evaluation) ltac:(by_evaluation)
              ltac:(by_evaluation) 1 c' Hs) as (Hr & He & _).
  split; [exact Hr | exact He].
Defined.

Lemma failed_send_leaves_pending_count_stuck_witness :
  ring_wf context_in_txn /\
  (let c' := write_log LOG_ERROR (TxtProduceFailed "users")
               (malloc_envelope (count_event context_in_txn 0) sample_envelope) in
   send_kafka_msg verbatim_encode_msg framing_encode_msg context_in_txn 500 1
     (Some [Byte.x01]) (Some [Byte.x02]) [one_attempt (-1)] = Returned (-1) c' /\
   pending_events (xact_at c' 0) = 1 /\
   in_flight c' 0 = 0 /\
   checkpoint_ready (xact_at c' 0) = false).
Proof.
  split; [exact context_in_txn_wf|]. intros c'.
  assert (send_kafka_msg verbatim_encode_msg framing_encode_msg context_in_txn 500 1
            (Some [Byte.x01]) (Some [Byte.x02]) [one_attempt (-1)] = Returned (-1) c')
    as Hs by (vm_compute; reflexivity).
  split; [exact Hs|].
  destruct (failed_send_leaves_pending_count_stuck verbatim_encode_msg framing_encode_msg
              context_in_txn 500 1 (Some [Byte.x01]) (Some [Byte.x02]) [one_attempt (-1)]
              context_in_txn_wf ltac:(by_evaluation) ltac:(by_evaluation)
              ltac:(by_evaluation) (-1) c' Hs ltac:(discriminate))
    as (_ & _ & Hp & _ & Hpoll).
  split; [exact Hp|]. split; [reflexivity|].
  apply (Hpoll [] tt c'). reflexivity.
Defined.

Lemma delete_row_sends_key_with_nil_value_witness :
  (forall table, keeps_nil_value (verbatim_encode_msg table)) /\
  (forall key_id row_id, keeps_nil_value (framing_encode_msg key_id row_id)) /\
  on_delete_row verbatim_encode_msg framing_encode_msg context_in_txn 500 1
    None (Some [Byte.x02]) [] = Returned 0 context_in_txn /\
  exists c' m,
    on_delete_row verbatim_encode_msg framing_encode_msg context_in_txn 500 1
      (Some [Byte.x01]) (Some [Byte.x02]) [one_attempt 0] = Returned 0 c' /\
    produced c' = [m] /\ is_Some (msg_key m) /\ msg_payload m = None.
Proof.
  split; [exact verbatim_keeps_nil_value|]. split; [exact framing_keeps_nil_value|].
  split.
  - apply (delete_row_sends_key_with_nil_value verbatim_encode_msg framing_encode_msg
             context_in_txn 500 1 None (Some [Byte.x02]) []
             verbatim_keeps_nil_value framing_keeps_nil_value).
    reflexivity.
  - destruct (delete_row_sends_key_with_nil_value verbatim_encode_msg framing_encode_msg
                context_in_txn 500 1 (Some [Byte.x01]) (Some [Byte.x02]) [one_attempt 0]
                verbatim_keeps_nil_value framing_keeps_nil_value) as (_ & Hkey & _).
    destruct (Hkey [Byte.x01] eq_refl) as (_ & Hsent).
    eexists.
    assert (on_delete_row verbatim_encode_msg framing_encode_msg context_in_txn 500 1
              (Some [Byte.x01]) (Some [Byte.x02]) [one_attempt 0]
            = Returned 0 _) as Hs by (vm_compute; reflexivity).
    destruct (Hsent 0 _ Hs) as (Hone & _).
    destruct (Hone eq_refl) as (m & Hm & Hk & Hp & _).
    exists m. split; [exact Hs|]. split; [exact Hm|]. split; [exact Hk | exact Hp].
Defined.

(** C2 as stated fails on each of its error paths: the relation is unknown,
    the encoder fails, the broker client refuses the message for a reason
    other than a full queue.  Each time the call returns the error with
    both counters of the head transaction raised from 0 to 1 and nothing
    enqueued. *)
Lemma send_errors_leave_event_counted :
  xact_at context_in_txn 0 = mk_xact 7 0 0 0 /\
  (exists c',
      send_kafka_msg verbatim_encode_msg framing_encode_msg context_in_txn 500 5
        (Some [Byte.x01]) (Some [Byte.x02]) [] = Returned 1 c' /\
      xact_at c' 0 = mk_xact 7 1 1 0 /\ kafka_queue c' = [] /\ produced c' = []) /\
  (exists c',
      send_kafka_msg verbatim_encode_msg refusing_encode_msg context_in_txn 500 1
        (Some [Byte.x01]) (Some [Byte.x02]) [] = Returned 12 c' /\
      xact_at c' 0 = mk_xact 7 1 1 0 /\ kafka_queue c' = [] /\ produced c' = []) /\
  (exists c',
      send_kafka_msg verbatim_encode_msg framing_encode_msg context_in_txn 500 1
        (Some [Byte.x01]) (Some [Byte.x02]) [one_attempt (-1)] = Returned (-1) c' /\
      xact_at c' 0 = mk_xact 7 1 1 0 /\ kafka_queue c' = [] /\ produced c' = []).
Proof.
  split; [reflexivity|].
  repeat split; eexists; (split; [vm_compute; reflexivity|]); repeat split.
Qed.

(** The naming rule on the examples of the specification. *)
Example topic_name_public_users :
  topic_name_from_avro_schema sample_namespace
    (mk_schema (list_ascii_of_string "com.example.dbschema.public")
       (list_ascii_of_string "users"))
  = Defined (list_ascii_of_string "users").
Proof. reflexivity. Qed.

Example topic_name_billing_invoices :
  topic_name_from_avro_schema sample_namespace
    (mk_schema (list_ascii_of_string "com.example.dbschema.billing")
       (list_ascii_of_string "invoices"))
  = Defined (list_ascii_of_string "billing.invoices").
Proof. reflexivity. Qed.

Example topic_name_other_namespace :
  topic_name_from_avro_schema sample_namespace
    (mk_schema (list_ascii_of_string "dummy") (list_ascii_of_string "invoices"))
  = Defined (list_ascii_of_string "invoices").
Proof. reflexivity. Qed.

(** * Further properties *)

(** ** Topic names: the rule at work and the bounds of the buffer *)

Lemma topic_name_of_generated_namespace_witness :
  list_ascii_of_string "billing" <> [] /\
  topic_name_from_avro_schema sample_namespace
    (mk_schema (sample_namespace ++ c_dot ++ list_ascii_of_string "billing")
       (list_ascii_of_string "invoices"))
  = Defined (list_ascii_of_string "billing.invoices").
Proof.
  split; [discriminate|].
  rewrite (topic_name_of_generated_namespace sample_namespace
             (list_ascii_of_string "billing") (list_ascii_of_string "invoices"));
    [reflexivity | discriminate | repeat constructor | reflexivity].
Defined.

Lemma topic_name_of_foreign_namespace_witness :
  "d"%char <> "c"%char /\
  topic_name_from_avro_schema sample_namespace
    (mk_schema (list_ascii_of_string "dummy") (list_ascii_of_string "invoices"))
  = Defined (list_ascii_of_string "invoices").
Proof.
  split; [discriminate|].
  apply (topic_name_of_foreign_namespace sample_namespace [] "c"%char "d"%char
           (list_ascii_of_string "om.example.dbschema.")
           (list_ascii_of_string "ummy") (list_ascii_of_string "invoices"));
    [reflexivity | discriminate].
Defined.

(** Whatever the schema, a topic name that comes out defined fits the
    buffer of [TABLE_NAME_BUFFER_LENGTH] bytes together with its
    terminator. *)
Lemma topic_name_fits_buffer (namespace_prefix : c_string) (schema : avro_schema)
    (name : c_string) :
  topic_name_from_avro_schema namespace_prefix schema = Defined name ->
  strlen name + 1 <= TABLE_NAME_BUFFER_LENGTH.
Proof.
  unfold topic_name_from_avro_schema.
  assert (forall t : c_string,
             strlen (firstn (Z.to_nat (TABLE_NAME_BUFFER_LENGTH - 1)) t) + 1
             <= TABLE_NAME_BUFFER_LENGTH) as Hcut.
  { intros t. unfold strlen, TABLE_NAME_BUFFER_LENGTH. rewrite length_firstn. lia. }
  destruct (sscanf_literal_s _ _) as [| |item]; cbn [scan_count Z.eqb].
  - discriminate.
  - intros [= <-]. apply Hcut.
  - destruct (strlen item + 1 <=? TABLE_NAME_BUFFER_LENGTH) eqn:Hfit; [|discriminate].
    destruct (bool_decide (item = c_public)); [intros [= <-]; apply Hcut|].
    assert (strlen item < TABLE_NAME_BUFFER_LENGTH) as Hlen by lia.
    rewrite (strncat_clamps item c_dot Hlen).
    set (s1 := firstn _ (item ++ c_dot)).
    assert (strlen s1 < TABLE_NAME_BUFFER_LENGTH) as Hlen1.
    { unfold s1, strlen, TABLE_NAME_BUFFER_LENGTH in *. rewrite length_firstn. lia. }
    rewrite (strncat_clamps s1 _ Hlen1). intros [= <-]. apply Hcut.
Qed.

Lemma topic_name_fits_buffer_witness :
  topic_name_from_avro_schema sample_namespace
    (mk_schema (sample_namespace ++ c_dot ++ repeat "s"%char 100)
       (repeat "t"%char 100))
  = Defined (repeat "s"%char 100 ++ c_dot ++ repeat "t"%char 26) /\
  strlen (repeat "s"%char 100 ++ c_dot ++ repeat "t"%char 26) + 1
  <= TABLE_NAME_BUFFER_LENGTH.
Proof.
  assert (topic_name_from_avro_schema sample_namespace
            (mk_schema (sample_namespace ++ c_dot ++ repeat "s"%char 100)
               (repeat "t"%char 100))
          = Defined (repeat "s"%char 100 ++ c_dot ++ repeat "t"%char 26)) as Hname
    by (vm_compute; reflexivity).
  split; [exact Hname|].
  exact (topic_name_fits_buffer _ _ _ Hname).
Defined.

(** The [%s] of the format carries no width: a schema name that does not
    fit the buffer together with its terminator is written past the end of
    [topic_name]. *)
Lemma topic_name_overflows_on_long_schema
    (namespace_prefix pg_schema table : c_string) :
  Forall (fun a => isspace a = false) pg_schema ->
  TABLE_NAME_BUFFER_LENGTH <= strlen pg_schema ->
  topic_name_from_avro_schema namespace_prefix
    (mk_schema (namespace_prefix ++ c_dot ++ pg_schema) table)
  = Undefined.
Proof.
  intros Hall Hlen. unfold topic_name_from_avro_schema.
  cbn [avro_schema_namespace avro_schema_name].
  rewrite (app_assoc namespace_prefix), sscanf_literal_s_matched.
  rewrite scan_percent_s_word;
    [|intros ->; unfold strlen, TABLE_NAME_BUFFER_LENGTH in Hlen; cbn in Hlen; lia
     | assumption].
  replace (strlen pg_schema + 1 <=? TABLE_NAME_BUFFER_LENGTH) with false by lia.
  reflexivity.
Qed.

Lemma topic_name_overflows_on_long_schema_witness :
  TABLE_NAME_BUFFER_LENGTH <= strlen (repeat "s"%char 128) /\
  topic_name_from_avro_schema sample_namespace
    (mk_schema (sample_namespace ++ c_dot ++ repeat "s"%char 128)
       (list_ascii_of_string "users"))
  = Undefined.
Proof.
  assert (TABLE_NAME_BUFFER_LENGTH <= strlen (repeat "s"%char 128)) as Hlen
    by (vm_compute; discriminate).
  split; [exact Hlen|].
  apply topic_name_overflows_on_long_schema; [|exact Hlen].
  apply List.Forall_forall. intros a Ha. apply repeat_spec in Ha. subst a. reflexivity.
Defined.

(** ** Relations that every step of the callbacks respects *)

Section Stepwise.

Variable FRAME_READER_SYNC_PENDING : Z.
Variable json_encode_msg :
  table_metadata -> option buffer -> option buffer -> Z * option buffer * option buffer.
Variable schema_registry_encode_msg :
  Z -> Z -> option buffer -> option buffer -> Z * option buffer * option buffer.

(** A relation between the context before and after, reflexive and
    transitive, that holds across each elementary update the callbacks
    make. *)
Variable R : producer_context -> producer_context -> Prop.
Hypothesis R_refl : forall c, R c c.
Hypothesis R_trans : forall c1 c2 c3, R c1 c2 -> R c2 c3 -> R c1 c3.
Hypothesis R_log :
  forall lvl txt c, txt <> TxtDroppingSlot -> R c (write_log lvl txt c).
Hypothesis R_exit :
  forall c status, R c (final_context (@exit_nicely unit c status)).
Hypothesis R_checkpoint : forall c, R c (checkpoint_slot c).
Hypothesis R_ack : forall c slot, R c (ack_pending c slot).
Hypothesis R_envelopes : forall c heap, R c (with_envelopes c heap).
Hypothesis R_queue : forall c q, R c (with_kafka_queue c q).
Hypothesis R_accept : forall c m, R c (rd_kafka_accept c m).
Hypothesis R_count : forall c slot, R c (count_event c slot).
Hypothesis R_open : forall c xid', R c (open_slot c xid').
Hypothesis R_commit : forall c wal_pos, R c (record_commit c wal_pos).
Hypothesis R_mapper : forall c m, R c (with_mapper c m).

Lemma stepwise_exit_nicely {A} (c : producer_context) (status : Z) :
  R c (final_context (@exit_nicely A c status)).
Proof. exact (R_exit c status). Qed.

Lemma stepwise_fatal_error {A} (c : producer_context) (txt : log_text) :
  txt <> TxtDroppingSlot -> R c (final_context (@fatal_error A c txt)).
Proof.
  intros Htxt. unfold fatal_error.
  eapply R_trans; [apply (R_log LOG_FATAL txt c Htxt) | apply stepwise_exit_nicely].
Qed.

Lemma stepwise_handle_error (c : producer_context) (err : Z) (txt : log_text) :
  txt <> TxtDroppingSlot -> R c (final_context (handle_error c err txt)).
Proof.
  intros Htxt. unfold handle_error. destruct (error_policy c).
  - apply stepwise_fatal_error. discriminate.
  - apply R_log, Htxt.
  - apply stepwise_fatal_error, Htxt.
Qed.

Lemma stepwise_maybe_checkpoint_loop (fuel : nat) :
  forall c, R c (maybe_checkpoint_loop fuel c).
Proof.
  induction fuel as [|fuel IH]; intros c; cbn [maybe_checkpoint_loop]; [apply R_refl|].
  destruct (checkpoint_ready _); [|apply R_refl].
  destruct (xact_list_empty _); [apply R_checkpoint|].
  eapply R_trans; [apply R_checkpoint | apply IH].
Qed.

Lemma stepwise_acknowledge (c : producer_context) (envelope : msg_envelope) :
  R c (let c2 := maybe_checkpoint (ack_pending c (env_xact envelope)) in
       with_envelopes c2 (free_envelope envelope (envelopes c2))).
Proof.
  cbn zeta. eapply R_trans; [apply R_ack|].
  eapply R_trans; [apply stepwise_maybe_checkpoint_loop | apply R_envelopes].
Qed.

Lemma stepwise_on_deliver_msg (c : producer_context) (msg : rd_kafka_message) :
  R c (final_context (on_deliver_msg c msg)).
Proof.
  unfold on_deliver_msg. destruct (negb (msg_err msg =? 0)).
  - assert (R c (final_context
                   (handle_error c (msg_err msg)
                      (TxtDeliveryFailed (msg_rkt msg) (msg_err msg))))) as Hh
        by (apply stepwise_handle_error; discriminate).
    destruct (handle_error _ _ _) as [err c1|s c1|c1]; cbn [bind final_context] in *;
      try exact Hh.
    eapply R_trans; [exact Hh|].
    destruct (err =? 0); [apply stepwise_acknowledge | apply R_envelopes].
  - cbn [bind final_context Z.eqb]. apply stepwise_acknowledge.
Qed.

Lemma stepwise_rd_kafka_poll (reports : list (nat * Z)) :
  forall c, R c (final_context (rd_kafka_poll reports c)).
Proof.
  induction reports as [|[i e] rest IH]; intros c; cbn [rd_kafka_poll];
    [apply R_refl|].
  destruct (kafka_queue c !! i) as [m|]; [|apply IH].
  pose proof (stepwise_on_deliver_msg (with_kafka_queue c (delete i (kafka_queue c)))
                (mk_message (msg_rkt m) (msg_payload m) (msg_key m) (msg_private m) e))
    as Hd.
  pose proof (R_queue c (delete i (kafka_queue c))) as Hq.
  destruct (on_deliver_msg _ _) as [r c1|s c1|c1]; cbn [final_context] in *.
  - exact (R_trans _ _ _ (R_trans _ _ _ Hq Hd) (IH c1)).
  - exact (R_trans _ _ _ Hq Hd).
  - exact (R_trans _ _ _ Hq Hd).
Qed.

Lemma stepwise_backpressure (c : producer_context) (env : poll_env) :
  R c (final_context (backpressure c env)).
Proof.
  unfold backpressure. pose proof (stepwise_rd_kafka_poll (poll_reports env) c) as Hp.
  destruct (rd_kafka_poll _ _) as [r c1|s c1|c1]; cbn [bind final_context] in *;
    try exact Hp.
  eapply R_trans; [exact Hp|].
  destruct (negb (shutdown_signal env =? 0)).
  - eapply R_trans; [|apply stepwise_exit_nicely].
    apply (R_log LOG_INFO (TxtShutdownDuringBackpressure (shutdown_signal env))).
    discriminate.
  - destruct (negb (keepalive_err env =? 0)); [|apply R_refl].
    apply stepwise_fatal_error. discriminate.
Qed.

Lemma stepwise_await_free_slot (polls : list poll_env) :
  forall c, R c (final_context (await_free_slot polls c)).
Proof.
  induction polls as [|env rest IH]; intros c; cbn [await_free_slot];
    destruct (xact_list_full c); try apply R_refl.
  pose proof (stepwise_backpressure c env) as Hb.
  destruct (backpressure c env) as [r c1|s c1|c1]; cbn [final_context] in *;
    try exact Hb.
  exact (R_trans _ _ _ Hb (IH c1)).
Qed.

Lemma stepwise_on_begin_txn (c : producer_context) (wal_pos xid' : Z)
    (polls : list poll_env) :
  R c (final_context (on_begin_txn c wal_pos xid' polls)).
Proof.
  unfold on_begin_txn.
  assert (forall c1, R c c1 ->
            R c (final_context
                   (bind (await_free_slot polls c1)
                      (fun _ c2 => Returned 0 (open_slot c2 xid'))))) as Hgo.
  { intros c1 H1. pose proof (stepwise_await_free_slot polls c1) as Ha.
    destruct (await_free_slot polls c1) as [r c2|s c2|c2]; cbn [bind final_context] in *.
    - exact (R_trans _ _ _ (R_trans _ _ _ H1 Ha) (R_open c2 xid')).
    - exact (R_trans _ _ _ H1 Ha).
    - exact (R_trans _ _ _ H1 Ha). }
  destruct (xid' =? 0).
  - destruct (negb _); cbn [bind].
    + apply stepwise_fatal_error. discriminate.
    + apply Hgo, R_log. discriminate.
  - cbn [bind]. apply Hgo, R_refl.
Qed.

Lemma stepwise_on_commit_txn (c : producer_context) (wal_pos xid' : Z) :
  R c (final_context (on_commit_txn c wal_pos xid')).
Proof.
  unfold on_commit_txn.
  set (c1 := if xid' =? 0 then _ else c).
  assert (R c c1) as H1
      by (unfold c1; destruct (xid' =? 0); [apply R_log; discriminate | apply R_refl]).
  destruct (negb _); cbn [final_context].
  - eapply R_trans; [exact H1 | apply stepwise_fatal_error; discriminate].
  - eapply R_trans; [exact H1|].
    eapply R_trans; [apply R_commit | apply stepwise_maybe_checkpoint_loop].
Qed.

Lemma stepwise_produce_loop (table : table_metadata) (key val : option buffer)
    (envelope : msg_envelope) (script : list produce_attempt) :
  forall c, R c (final_context (produce_loop script c table key val envelope)).
Proof.
  induction script as [|a rest IH]; intros c; cbn [produce_loop]; [apply R_refl|].
  set (c1 := if produce_err a =? 0 then _ else c).
  assert (R c c1) as H1
      by (unfold c1; destruct (_ =? 0); [apply R_accept | apply R_refl]).
  destruct (errno_queue_full a).
  - pose proof (stepwise_backpressure c1 (attempt_poll a)) as Hb.
    destruct (backpressure _ _) as [r c2|s c2|c2]; cbn [final_context] in *;
      try exact (R_trans _ _ _ H1 Hb).
    destruct (produce_err a =? 0); cbn [final_context].
    + exact (R_trans _ _ _ H1 Hb).
    + exact (R_trans _ _ _ (R_trans _ _ _ H1 Hb) (IH c2)).
  - destruct (negb _); cbn [final_context]; [|exact H1].
    eapply R_trans; [exact H1 | apply R_log; discriminate].
Qed.

Lemma stepwise_send_kafka_msg (c : producer_context) (wal_pos relid : Z)
    (key_bin val_bin : option buffer) (script : list produce_attempt) :
  R c (final_context
         (send_kafka_msg json_encode_msg schema_registry_encode_msg c wal_pos relid
            key_bin val_bin script)).
Proof.
  unfold send_kafka_msg.
  set (envelope := mk_envelope _ _ _).
  set (c2 := malloc_envelope _ envelope).
  assert (R c c2) as H2.
  { unfold c2, malloc_envelope. eapply R_trans; [apply R_count | apply R_envelopes]. }
  destruct (table_mapper_lookup _ _) as [table|]; cbn [final_context].
  2:{ eapply R_trans; [exact H2 | apply R_log; discriminate]. }
  destruct (output_format c2).
  - eapply R_trans; [exact H2 | apply stepwise_fatal_error; discriminate].
  - destruct (schema_registry_encode_msg _ _ _ _) as [[err key] val].
    destruct (negb _); cbn [final_context].
    + eapply R_trans; [exact H2 | apply R_log; discriminate].
    + eapply R_trans; [exact H2 | apply stepwise_produce_loop].
  - destruct (json_encode_msg _ _ _) as [[err key] val].
    destruct (negb _); cbn [final_context].
    + eapply R_trans; [exact H2 | apply R_log; discriminate].
    + eapply R_trans; [exact H2 | apply stepwise_produce_loop].
Qed.

Lemma stepwise_feed_plain (e : event) (c : producer_context) :
  is_table_schema e = false ->
  R c (final_context
         (feed FRAME_READER_SYNC_PENDING json_encode_msg schema_registry_encode_msg e c)).
Proof.
  destruct e; cbn [feed is_table_schema]; intros Hplain.
  - apply stepwise_on_begin_txn.
  - apply stepwise_on_commit_txn.
  - apply stepwise_send_kafka_msg.
  - apply stepwise_send_kafka_msg.
  - unfold on_delete_row. destruct key_bin; [apply stepwise_send_kafka_msg | apply R_refl].
  - unfold on_keepalive. destruct (xact_list_empty c); apply R_refl.
  - discriminate Hplain.
  - unfold on_client_error. apply stepwise_handle_error. discriminate.
  - pose proof (stepwise_rd_kafka_poll reports c) as Hp.
    destruct (rd_kafka_poll reports c); exact Hp.
Qed.

Lemma stepwise_feed_all_plain (es : list event) :
  Forall (fun e => is_table_schema e = false) es ->
  forall c,
    R c (final_context
           (feed_all FRAME_READER_SYNC_PENDING json_encode_msg schema_registry_encode_msg
              es c)).
Proof.
  induction 1 as [|e rest Hplain Hrest IH]; intros c; cbn [feed_all]; [apply R_refl|].
  pose proof (stepwise_feed_plain e c Hplain) as He.
  destruct (feed _ _ _ e c) as [r c1|s c1|c1]; cbn [final_context] in *; try exact He.
  destruct ((r =? 0) || is_keepalive e); [|exact He].
  exact (R_trans _ _ _ He (IH c1)).
Qed.

Lemma stepwise_table_schema_updated (c : producer_context) (answer : mapper_update) :
  R c (final_context (table_schema_updated c answer)).
Proof.
  unfold table_schema_updated. cbn zeta.
  destruct (update_ok answer); cbn [final_context]; [apply R_mapper|].
  eapply R_trans; [apply R_mapper | apply R_log; discriminate].
Qed.

Lemma stepwise_feed (e : event) (c : producer_context) :
  R c (final_context
         (feed FRAME_READER_SYNC_PENDING json_encode_msg schema_registry_encode_msg e c)).
Proof.
  destruct (is_table_schema e) eqn:Hschema; [|apply stepwise_feed_plain, Hschema].
  destruct e; try discriminate Hschema. apply stepwise_table_schema_updated.
Qed.

Lemma stepwise_feed_all (es : list event) :
  forall c,
    R c (final_context
           (feed_all FRAME_READER_SYNC_PENDING json_encode_msg schema_registry_encode_msg
              es c)).
Proof.
  induction es as [|e rest IH]; intros c; cbn [feed_all]; [apply R_refl|].
  pose proof (stepwise_feed e c) as He.
  destruct (feed _ _ _ e c) as [r c1|s c1|c1]; cbn [final_context] in *; try exact He.
  destruct ((r =? 0) || is_keepalive e); [|exact He].
  exact (R_trans _ _ _ He (IH c1)).
Qed.

End Stepwise.

(** ** What no callback does *)

Lemma set_xact_at_wf (c : producer_context) (i : nat) (x : transaction_info) :
  ring_wf c -> ring_wf (set_xact_at c i x).
Proof.
  intros (Hh & Ht & Hl). unfold ring_wf. rewrite set_xact_at_length. auto.
Qed.

Lemma open_slot_wf (c : producer_context) (xid' : Z) : ring_wf c -> ring_wf (open_slot c xid').
Proof.
  intros (Hh & Ht & Hl). unfold open_slot. apply set_xact_at_wf.
  unfold ring_wf. fields. rewrite next_index by assumption.
  repeat split; try assumption; rewrite XACT_LIST_LEN_value in *; lia.
Qed.

Lemma exit_nicely_cases {A} (c : producer_context) (status : Z) :
  final_context (@exit_nicely A c status) = c \/
  (taking_snapshot c = true /\ status <> 0 /\
   (final_context (@exit_nicely A c status) = write_log LOG_INFO TxtDroppingSlot c \/
    final_context (@exit_nicely A c status)
    = write_log LOG_ERROR TxtSlotDropFailed (write_log LOG_INFO TxtDroppingSlot c))).
Proof.
  unfold exit_nicely. cbn [final_context].
  destruct (taking_snapshot c); cbn [andb]; [|left; reflexivity].
  destruct (status =? 0) eqn:Hs; cbn [negb]; [left; reflexivity|].
  right. apply Z.eqb_neq in Hs. cbn zeta. destruct (negb _); auto.
Qed.

(** Whatever events are fed, in whatever order and with whatever outcome,
    the indices of the ring stay within the array and the array keeps its
    size. *)
Lemma callbacks_keep_ring_in_range
    (FRAME_READER_SYNC_PENDING : Z)
    (json_encode_msg :
       table_metadata -> option buffer -> option buffer -> Z * option buffer * option buffer)
    (schema_registry_encode_msg :
       Z -> Z -> option buffer -> option buffer -> Z * option buffer * option buffer)
    (es : list event) (c : producer_context) :
  ring_wf c ->
  ring_wf (final_context
             (feed_all FRAME_READER_SYNC_PENDING json_encode_msg schema_registry_encode_msg
                es c)).
Proof.
  apply (stepwise_feed_all FRAME_READER_SYNC_PENDING json_encode_msg
           schema_registry_encode_msg (fun c c' => ring_wf c -> ring_wf c')).
  - auto.
  - auto.
  - intros lvl txt c0 _ H. exact H.
  - intros c0 status H.
    destruct (@exit_nicely_cases unit c0 status) as [->|(_ & _ & [->| ->])]; exact H.
  - apply checkpoint_slot_wf.
  - intros c0 slot. apply set_xact_at_wf.
  - intros c0 heap H. exact H.
  - intros c0 q H. exact H.
  - intros c0 m H. exact H.
  - intros c0 slot. apply set_xact_at_wf.
  - apply open_slot_wf.
  - intros c0 wal_pos. apply set_xact_at_wf.
  - intros c0 m H. exact H.
Qed.

Lemma callbacks_keep_ring_in_range_witness :
  ring_wf fresh_context /\
  ring_wf (final_context
             (feed_all 1 verbatim_encode_msg framing_encode_msg
                [BeginTxn 496 7 []; InsertRow 500 1 (Some [Byte.x01]) (Some [Byte.x02]) [];
                 CommitTxn 512 7] fresh_context)).
Proof.
  split; [apply init_producer_wf|].
  apply callbacks_keep_ring_in_range, init_producer_wf.
Defined.

(** No callback changes the output format or the error policy: they are
    what the start of the process made them.  The table mapper is written by
    [on_table_schema] alone: a run of events without a table schema leaves
    it as it was, and a table schema leaves it as [table_mapper_update] did,
    whether that call succeeded or failed. *)
Lemma callbacks_leave_configuration
    (FRAME_READER_SYNC_PENDING : Z)
    (json_encode_msg :
       table_metadata -> option buffer -> option buffer -> Z * option buffer * option buffer)
    (schema_registry_encode_msg :
       Z -> Z -> option buffer -> option buffer -> Z * option buffer * option buffer)
    (es : list event) (c : producer_context) :
  let run := feed_all FRAME_READER_SYNC_PENDING json_encode_msg
               schema_registry_encode_msg in
  let c' := final_context (run es c) in
  output_format c' = output_format c /\
  error_policy c' = error_policy c /\
  (Forall (fun e => is_table_schema e = false) es -> mapper c' = mapper c) /\
  (forall wal_pos relid answer,
     mapper (final_context (run [TableSchema wal_pos relid answer] c))
     = updated_mapper answer).
Proof.
  intros run c'. unfold c', run. clear c' run.
  split; [|split; [|split]].
  - apply (stepwise_feed_all FRAME_READER_SYNC_PENDING json_encode_msg
             schema_registry_encode_msg
             (fun c c' => output_format c' = output_format c)); try reflexivity.
    + intros c1 c2 c3 H12 H23. congruence.
    + intros c0 status.
      destruct (@exit_nicely_cases unit c0 status) as [->|(_ & _ & [->| ->])];
        reflexivity.
    + intros c0. destruct (checkpoint_slot_traffic c0) as (_ & _ & _ & ? & _). auto.
  - apply (stepwise_feed_all FRAME_READER_SYNC_PENDING json_encode_msg
             schema_registry_encode_msg
             (fun c c' => error_policy c' = error_policy c)); try reflexivity.
    + intros c1 c2 c3 H12 H23. congruence.
    + intros c0 status.
      destruct (@exit_nicely_cases unit c0 status) as [->|(_ & _ & [->| ->])];
        reflexivity.
    + intros c0. destruct (checkpoint_slot_traffic c0) as (_ & _ & _ & _ & ? & _). auto.
  - intros Hplain. revert c.
    apply (stepwise_feed_all_plain FRAME_READER_SYNC_PENDING json_encode_msg
             schema_registry_encode_msg
             (fun c c' => mapper c' = mapper c)); try reflexivity; try exact Hplain.
    + intros c1 c2 c3 H12 H23. congruence.
    + intros c0 status.
      destruct (@exit_nicely_cases unit c0 status) as [->|(_ & _ & [->| ->])];
        reflexivity.
    + intros c0. destruct (checkpoint_slot_traffic c0) as (_ & _ & ? & _). auto.
  - intros wal_pos relid answer. cbn [feed_all feed]. unfold table_schema_updated.
    destruct (update_ok answer); reflexivity.
Qed.

Lemma callbacks_leave_configuration_witness :
  let c' := final_context
              (feed_all 1 verbatim_encode_msg framing_encode_msg
                 [BeginTxn 496 7 []; ClientError 5;
                  InsertRow 500 1 (Some [Byte.x01]) (Some [Byte.x02]) [one_attempt 0]]
                 context_with_table) in
  mapper c' = mapper context_with_table /\
  mapper (final_context
            (feed_all 1 verbatim_encode_msg framing_encode_msg
               [TableSchema 490 2 (mk_update ∅ false)] context_with_table)) = ∅.
Proof.
  intros c'.
  destruct (callbacks_leave_configuration 1 verbatim_encode_msg framing_encode_msg
              [BeginTxn 496 7 []; ClientError 5;
               InsertRow 500 1 (Some [Byte.x01]) (Some [Byte.x02]) [one_attempt 0]]
              context_with_table) as (_ & _ & Hplain & Hschema).
  split; [|apply Hschema].
  apply Hplain. repeat constructor.
Defined.

(** [on_table_schema] is defined exactly where the topic name of the row
    schema is, and there it is the event [TableSchema] with the answer of
    [table_mapper_update]. *)
Lemma on_table_schema_as_event
    (FRAME_READER_SYNC_PENDING : Z)
    (json_encode_msg :
       table_metadata -> option buffer -> option buffer -> Z * option buffer * option buffer)
    (schema_registry_encode_msg :
       Z -> Z -> option buffer -> option buffer -> Z * option buffer * option buffer)
    (GENERATED_SCHEMA_NAMESPACE : c_string)
    (table_mapper_update :
       gmap Z table_metadata -> Z -> c_string -> option buffer -> option buffer
       -> mapper_update)
    (c : producer_context) (wal_pos relid : Z)
    (key_schema_json row_schema_json : option buffer) (row_schema : avro_schema) :
  on_table_schema GENERATED_SCHEMA_NAMESPACE table_mapper_update c wal_pos relid
    key_schema_json row_schema_json row_schema
  = match topic_name_from_avro_schema GENERATED_SCHEMA_NAMESPACE row_schema with
    | Defined topic_name =>
        Defined
          (feed FRAME_READER_SYNC_PENDING json_encode_msg schema_registry_encode_msg
             (TableSchema wal_pos relid
                (table_mapper_update (mapper c) relid topic_name key_schema_json
                   row_schema_json))
             c)
    | Undefined => Undefined
    end.
Proof.
  unfold on_table_schema.
  destruct (topic_name_from_avro_schema _ _); reflexivity.
Qed.

Lemma checkpoint_slot_log_cases (c : producer_context) (x : log_record) :
  In x (log (checkpoint_slot c)) ->
  In x (log c) \/ fst x = LOG_WARN \/ fst x = LOG_DEBUG.
Proof.
  unfold checkpoint_slot.
  repeat match goal with |- context [if ?b then _ else _] => destruct b end;
    fields; cbn [In]; intros H; intuition (subst; cbn; auto).
Qed.

(** No callback sets the snapshot flag.  Once it is clear, it stays clear
    whatever events follow, and no exit of the process, with whatever
    status, drops the replication slot. *)
Lemma snapshot_flag_stays_clear
    (FRAME_READER_SYNC_PENDING : Z)
    (json_encode_msg :
       table_metadata -> option buffer -> option buffer -> Z * option buffer * option buffer)
    (schema_registry_encode_msg :
       Z -> Z -> option buffer -> option buffer -> Z * option buffer * option buffer)
    (es : list event) (c : producer_context) :
  taking_snapshot c = false ->
  let c' := final_context
              (feed_all FRAME_READER_SYNC_PENDING json_encode_msg
                 schema_registry_encode_msg es c) in
  taking_snapshot c' = false /\
  (In (LOG_INFO, TxtDroppingSlot) (log c') -> In (LOG_INFO, TxtDroppingSlot) (log c)).
Proof.
  apply (stepwise_feed_all FRAME_READER_SYNC_PENDING json_encode_msg
           schema_registry_encode_msg
           (fun c c' =>
              taking_snapshot c = false ->
              taking_snapshot c' = false /\
              (In (LOG_INFO, TxtDroppingSlot) (log c') ->
               In (LOG_INFO, TxtDroppingSlot) (log c)))).
  - auto.
  - intros c1 c2 c3 H12 H23 H1. destruct (H12 H1) as (H2 & Hl2).
    destruct (H23 H2) as (H3 & Hl3). auto.
  - intros lvl txt c0 Htxt H. split; [exact H|].
    fields. intros [[= _ Heq]|Hin]; [congruence | exact Hin].
  - intros c0 status H.
    destruct (@exit_nicely_cases unit c0 status) as [->|(Hs & _)]; [auto | congruence].
  - intros c0 H. split.
    + rewrite checkpoint_slot_taking_snapshot. destruct (_ && _); [reflexivity | exact H].
    + intros Hin. destruct (checkpoint_slot_log_cases _ _ Hin) as [?|[?|?]];
        [assumption | discriminate | discriminate].
  - intros c0 slot H. auto.
  - intros c0 heap H. auto.
  - intros c0 q H. auto.
  - intros c0 m H. auto.
  - intros c0 slot H. auto.
  - intros c0 xid' H. auto.
  - intros c0 wal_pos H. auto.
  - intros c0 m H. auto.
Qed.

Lemma snapshot_flag_stays_clear_witness :
  taking_snapshot fresh_context = false /\
  taking_snapshot
    (final_context
       (feed_all 1 verbatim_encode_msg framing_encode_msg
          [BeginTxn 496 7 []; BeginTxn 528 0 []] fresh_context)) = false.
Proof.
  split; [reflexivity|].
  apply (snapshot_flag_stays_clear 1 verbatim_encode_msg framing_encode_msg
           [BeginTxn 496 7 []; BeginTxn 528 0 []] fresh_context).
  reflexivity.
Defined.

(** ** The ring between begin and checkpoint *)

Lemma open_slot_length (c : producer_context) (xid' : Z) :
  ring_wf c ->
  xact_list_full c = false ->
  xact_list_length (open_slot c xid') = xact_list_length c + 1.
Proof.
  intros Hwf Hfull. pose proof (open_slot_wf c xid' Hwf) as Hwf'.
  unfold xact_list_full in Hfull. apply Z.eqb_neq in Hfull.
  rewrite !xact_list_length_in_range in * by (apply ring_wf_indices; assumption).
  change (xact_tail (open_slot c xid')) with (xact_tail c).
  rewrite open_slot_head by apply Hwf.
  destruct Hwf as (Hh & Ht & _). rewrite XACT_LIST_LEN_value in *. lia.
Qed.

Lemma open_slot_fresh (c : producer_context) (xid' : Z) :
  ring_wf c ->
  xact_at (open_slot c xid') (Z.to_nat (xact_head (open_slot c xid'))) = mk_xact xid' 0 0 0.
Proof.
  intros Hwf. pose proof (open_slot_wf c xid' Hwf) as Hwf'.
  pose proof (head_slot_in_range _ Hwf') as Hslot.
  unfold open_slot in *. rewrite set_xact_at_length in Hslot.
  apply xact_at_set_eq. exact Hslot.
Qed.

Lemma await_free_slot_wf (polls : list poll_env) (c : producer_context) :
  ring_wf c -> ring_wf (final_context (await_free_slot polls c)).
Proof.
  apply (stepwise_await_free_slot (fun c c' => ring_wf c -> ring_wf c')).
  - auto.
  - auto.
  - intros lvl txt c0 _ H. exact H.
  - intros c0 status H.
    destruct (@exit_nicely_cases unit c0 status) as [->|(_ & _ & [->| ->])]; exact H.
  - apply checkpoint_slot_wf.
  - intros c0 slot. apply set_xact_at_wf.
  - intros c0 heap H. exact H.
  - intros c0 q H. exact H.
Qed.

(** A begin event that returns has opened a fresh slot at the head: the
    slot holds the transaction id with both counters and the commit position
    at zero, the ring holds between 1 and [MAX_IN_FLIGHT_TRANSACTIONS]
    transactions, and a keepalive that follows is answered with the frame
    reader's "sync pending" code. *)
Lemma begin_leaves_ring_non_empty
    (FRAME_READER_SYNC_PENDING : Z) (c : producer_context) (wal_pos xid' : Z)
    (polls : list poll_env) (r : Z) (c' : producer_context) :
  ring_wf c ->
  on_begin_txn c wal_pos xid' polls = Returned r c' ->
  xact_at c' (Z.to_nat (xact_head c')) = mk_xact xid' 0 0 0 /\
  1 <= xact_list_length c' <= MAX_IN_FLIGHT_TRANSACTIONS /\
  forall wal_pos',
    on_keepalive FRAME_READER_SYNC_PENDING c' wal_pos'
    = Returned FRAME_READER_SYNC_PENDING c'.
Proof.
  intros Hwf Hb. unfold on_begin_txn in Hb.
  assert (exists c2, ring_wf c2 /\ xact_list_full c2 = false /\ c' = open_slot c2 xid')
    as (c2 & Hwf2 & Hfull & ->).
  { assert (forall c1, ring_wf c1 ->
              bind (await_free_slot polls c1)
                (fun _ c2 => Returned 0 (open_slot c2 xid')) = Returned r c' ->
              exists c2, ring_wf c2 /\ xact_list_full c2 = false /\
                         c' = open_slot c2 xid') as Hgo.
    { intros c1 Hwf1 Hw. pose proof (await_free_slot_wf polls c1 Hwf1) as Hwf2.
      destruct (await_free_slot polls c1) as [r2 c2|s c2|c2] eqn:Ha; try discriminate.
      cbn [bind final_context] in *. injection Hw as _ <-.
      exists c2. split; [exact Hwf2|]. split; [|reflexivity].
      eapply await_free_slot_not_full; exact Ha. }
    destruct (xid' =? 0).
    - destruct (negb _); [discriminate|].
      apply (Hgo (write_log LOG_INFO TxtCapturingSnapshot c)); [exact Hwf | exact Hb].
    - apply (Hgo c); [exact Hwf | exact Hb]. }
  pose proof (open_slot_length c2 xid' Hwf2 Hfull) as Hlen.
  pose proof (xact_list_length_bounds c2 Hwf2) as Hb2.
  unfold xact_list_full in Hfull. apply Z.eqb_neq in Hfull.
  split; [apply open_slot_fresh, Hwf2|].
  split; [unfold MAX_IN_FLIGHT_TRANSACTIONS; rewrite XACT_LIST_LEN_value in *; lia|].
  intros wal_pos'. unfold on_keepalive, xact_list_empty.
  replace (xact_list_length (open_slot c2 xid') =? 0) with false by lia.
  reflexivity.
Qed.

Lemma begin_leaves_ring_non_empty_witness :
  ring_wf fresh_context /\
  on_keepalive 1 (open_slot fresh_context 7) 512 = Returned 1 (open_slot fresh_context 7).
Proof.
  split; [apply init_producer_wf|].
  apply (begin_leaves_ring_non_empty 1 fresh_context 496 7 [] 0
           (open_slot fresh_context 7) (init_producer_wf 0 false 0)).
  reflexivity.
Defined.

(** ** The run of the checkpointer as a whole *)

(** The checkpointer moves the tail over a run of [k] consecutive slots,
    at most once around the ring.  Every slot it passes had
    [pending_events = 0] and either [commit_lsn > 0] or [xid = 0]; so the
    tail never gets past a transaction with unacknowledged messages.  It
    stops because the ring has become empty or because the slot it has
    reached does not qualify, and [fsync_lsn] ends as the [commit_lsn] of the
    last slot passed (and is untouched when none was). *)
Lemma checkpointer_passes_only_ready_slots (c : producer_context) :
  ring_wf c ->
  exists k,
    0 <= k <= XACT_LIST_LEN /\
    xact_tail (maybe_checkpoint c) = (xact_tail c + k) mod XACT_LIST_LEN /\
    (forall j, 0 <= j < k ->
       pending_events (xact_at c (slot_from_tail c j)) = 0 /\
       (commit_lsn (xact_at c (slot_from_tail c j)) > 0 \/
        xid (xact_at c (slot_from_tail c j)) = 0)) /\
    (k = 0 -> maybe_checkpoint c = c) /\
    (0 < k ->
     fsync_lsn (maybe_checkpoint c) = commit_lsn (xact_at c (slot_from_tail c (k - 1)))) /\
    ((0 < k /\ xact_list_empty (maybe_checkpoint c) = true) \/
     checkpoint_ready (xact_at c (slot_from_tail c k)) = false).
Proof.
  intros Hwf. pose proof (passes_left_bounds c Hwf) as Hb.
  destruct (maybe_checkpoint_loop_run (Z.to_nat XACT_LIST_LEN) c Hwf ltac:(lia))
    as (k & Hk & Htail & Hpassed & Hnone & Hfsync & Hstop).
  exists k. split; [lia|]. split; [exact Htail|].
  split; [intros j Hj; apply checkpoint_ready_iff, Hpassed, Hj|].
  split; [exact Hnone|]. split; [exact Hfsync | exact Hstop].
Qed.

Lemma checkpointer_passes_only_ready_slots_witness :
  ring_wf context_committed /\
  exists k,
    0 <= k <= XACT_LIST_LEN /\
    xact_tail (maybe_checkpoint context_committed)
    = (xact_tail context_committed + k) mod XACT_LIST_LEN /\
    forall j, 0 <= j < k ->
      pending_events (xact_at context_committed (slot_from_tail context_committed j)) = 0.
Proof.
  assert (ring_wf context_committed) as Hwf by by_evaluation.
  split; [exact Hwf|].
  destruct (checkpointer_passes_only_ready_slots context_committed Hwf)
    as (k & Hk & Htail & Hpassed & _).
  exists k. split; [exact Hk|]. split; [exact Htail|].
  intros j Hj. apply Hpassed, Hj.
Defined.

(** ** Deliveries and commits at the tail *)

Lemma on_deliver_msg_returned_cases (c : producer_context) (msg : rd_kafka_message)
    (r : unit) (c' : producer_context) :
  on_deliver_msg c msg = Returned r c' ->
  exists c0,
    (c0 = c \/
     c0 = write_log LOG_ERROR (TxtDeliveryFailed (msg_rkt msg) (msg_err msg)) c) /\
    c' = (let c2 := maybe_checkpoint (ack_pending c0 (env_xact (msg_private msg))) in
          with_envelopes c2 (free_envelope (msg_private msg) (envelopes c2))).
Proof.
  unfold on_deliver_msg, handle_error.
  destruct (negb (msg_err msg =? 0)).
  - destruct (error_policy c); cbn [bind fatal_error exit_nicely]; try discriminate.
    cbn [Z.eqb]. intros [= _ <-]. eexists. split; [right; reflexivity | reflexivity].
  - cbn [bind Z.eqb]. intros [= _ <-]. exists c. split; [left; reflexivity | reflexivity].
Qed.

Lemma ack_pending_wf (c : producer_context) (slot : nat) :
  ring_wf c -> ring_wf (ack_pending c slot).
Proof. apply set_xact_at_wf. Qed.

(** A ring that holds one transaction is emptied by one pass. *)
Lemma sole_slot_drained (c : producer_context) :
  ring_wf c ->
  xact_tail c = xact_head c ->
  checkpoint_ready (xact_at c (Z.to_nat (xact_tail c))) = true ->
  maybe_checkpoint c = checkpoint_slot c /\
  xact_list_empty (checkpoint_slot c) = true.
Proof.
  intros Hwf Hsole Hready.
  assert (xact_list_empty (checkpoint_slot c) = true) as Hempty.
  { pose proof (checkpoint_slot_wf c Hwf) as Hwf'.
    unfold xact_list_empty. apply Z.eqb_eq.
    rewrite xact_list_length_in_range by (apply ring_wf_indices; assumption).
    destruct (checkpoint_slot_traffic c) as (_ & Eh & _).
    rewrite Eh, checkpoint_slot_tail, next_index by apply Hwf.
    destruct Hwf as (Hh & Ht & _). rewrite XACT_LIST_LEN_value in *. lia. }
  split; [|exact Hempty].
  rewrite maybe_checkpoint_unfold, Hready, Hempty by assumption. reflexivity.
Qed.

(** A delivery report for a transaction other than the one at the tail
    moves neither the tail nor [fsync_lsn] while the tail transaction does
    not qualify for the checkpoint, be it for pending events or for want
    of its commit: acknowledgements that arrive out of order wait. *)
Lemma ack_behind_unready_tail_waits (c : producer_context) (msg : rd_kafka_message)
    (r : unit) (c' : producer_context) :
  ring_wf c ->
  env_xact (msg_private msg) <> Z.to_nat (xact_tail c) ->
  checkpoint_ready (xact_at c (Z.to_nat (xact_tail c))) = false ->
  on_deliver_msg c msg = Returned r c' ->
  xact_tail c' = xact_tail c /\
  fsync_lsn c' = fsync_lsn c /\
  taking_snapshot c' = taking_snapshot c /\
  xact_at c' (Z.to_nat (xact_tail c)) = xact_at c (Z.to_nat (xact_tail c)).
Proof.
  intros Hwf Hslot Hnot Hd.
  destruct (on_deliver_msg_returned_cases _ _ _ _ Hd) as (c0 & Hc0 & ->).
  assert (ring_wf c0 /\ xact_tail c0 = xact_tail c /\ fsync_lsn c0 = fsync_lsn c /\
          taking_snapshot c0 = taking_snapshot c /\ xact_list c0 = xact_list c)
    as (Hwf0 & Et & Ef & Es & El) by (destruct Hc0 as [->| ->]; repeat split; apply Hwf).
  set (c1 := ack_pending c0 (env_xact (msg_private msg))).
  assert (xact_at c1 (Z.to_nat (xact_tail c)) = xact_at c (Z.to_nat (xact_tail c))) as Ex.
  { unfold c1, ack_pending. rewrite xact_at_set_ne by assumption.
    unfold xact_at. rewrite El. reflexivity. }
  assert (maybe_checkpoint c1 = c1) as ->.
  { rewrite maybe_checkpoint_unfold by (apply ack_pending_wf; assumption).
    change (xact_tail c1) with (xact_tail c0). rewrite Et, Ex, Hnot. reflexivity. }
  cbn zeta. repeat split; try assumption.
Qed.

Lemma ack_behind_unready_tail_waits_witness :
  ring_wf context_in_txn /\
  exists c',
    on_deliver_msg context_in_txn
      (mk_message "users" None None (mk_envelope 500 1 5) 0) = Returned tt c' /\
    xact_tail c' = 0 /\ fsync_lsn c' = 0.
Proof.
  split; [exact context_in_txn_wf|].
  destruct (on_deliver_msg context_in_txn
              (mk_message "users" None None (mk_envelope 500 1 5) 0))
    as [[] c'| |] eqn:Hd; try (vm_compute in Hd; discriminate).
  exists c'. split; [reflexivity|].
  assert (env_xact (msg_private (mk_message "users" None None (mk_envelope 500 1 5) 0))
          <> Z.to_nat (xact_tail context_in_txn)) as Hslot by (vm_compute; discriminate).
  assert (checkpoint_ready (xact_at context_in_txn (Z.to_nat (xact_tail context_in_txn)))
          = false) as Hnot by reflexivity.
  destruct (ack_behind_unready_tail_waits context_in_txn _ tt c' context_in_txn_wf
              Hslot Hnot Hd) as (Ht & Hf & _).
  split; [exact Ht | exact Hf].
Defined.

(** A transaction alone in the ring is checkpointed by whichever comes
    last, its commit or its last acknowledgement: [fsync_lsn] becomes its
    commit position and the ring is empty afterwards. *)
Lemma sole_transaction_is_checkpointed (c : producer_context) :
  ring_wf c ->
  xact_tail c = xact_head c ->
  let xact := xact_at c (Z.to_nat (xact_head c)) in
  (forall wal_pos,
     pending_events xact = 0 ->
     0 < wal_pos \/ xid xact = 0 ->
     exists c',
       on_commit_txn c wal_pos (xid xact) = Returned 0 c' /\
       fsync_lsn c' = wal_pos /\ xact_list_empty c' = true) /\
  (forall msg r c',
     env_xact (msg_private msg) = Z.to_nat (xact_head c) ->
     pending_events xact = 1 ->
     0 < commit_lsn xact \/ xid xact = 0 ->
     on_deliver_msg c msg = Returned r c' ->
     fsync_lsn c' = commit_lsn xact /\ xact_list_empty c' = true).
Proof.
  intros Hwf Hsole xact. pose proof (head_slot_in_range c Hwf) as Hslot. split.
  - intros wal_pos Hpending Hcommit. unfold on_commit_txn. fold xact.
    rewrite Z.eqb_refl. cbn [negb].
    set (c1 := if xid xact =? 0 then _ else c).
    assert (ring_wf c1 /\ xact_tail c1 = xact_tail c /\ xact_head c1 = xact_head c /\
            xact_list c1 = xact_list c)
      as (Hwf1 & Et & Eh & El) by (unfold c1; destruct (_ =? 0); repeat split; apply Hwf).
    set (c2 := record_commit c1 wal_pos).
    assert (xact_at c2 (Z.to_nat (xact_tail c2))
            = mk_xact (xid xact) (recvd_events xact) 0 wal_pos) as Ex.
    { unfold c2, record_commit. change (xact_tail (set_xact_at _ _ _)) with (xact_tail c1).
      rewrite Et, Hsole, Eh. rewrite xact_at_set_eq by (rewrite El; exact Hslot).
      unfold xact_at. rewrite El. fold (xact_at c (Z.to_nat (xact_head c))). fold xact.
      rewrite Hpending. reflexivity. }
    destruct (sole_slot_drained c2) as (-> & Hempty).
    + apply set_xact_at_wf, Hwf1.
    + change (xact_tail c2) with (xact_tail c1). change (xact_head c2) with (xact_head c1).
      congruence.
    + rewrite Ex. apply checkpoint_ready_iff. cbn. lia.
    + eexists. split; [reflexivity|]. split; [|exact Hempty].
      rewrite checkpoint_slot_fsync_lsn, Ex. reflexivity.
  - intros msg r c' Henv Hpending Hcommit Hd.
    destruct (on_deliver_msg_returned_cases _ _ _ _ Hd) as (c0 & Hc0 & ->).
    assert (ring_wf c0 /\ xact_tail c0 = xact_tail c /\ xact_head c0 = xact_head c /\
            xact_list c0 = xact_list c)
      as (Hwf0 & Et & Eh & El) by (destruct Hc0 as [->| ->]; repeat split; apply Hwf).
    rewrite Henv. set (c1 := ack_pending c0 (Z.to_nat (xact_head c))).
    assert (xact_at c1 (Z.to_nat (xact_tail c1))
            = mk_xact (xid xact) (recvd_events xact) 0 (commit_lsn xact)) as Ex.
    { unfold c1, ack_pending. change (xact_tail (set_xact_at _ _ _)) with (xact_tail c0).
      rewrite Et, Hsole. rewrite xact_at_set_eq by (rewrite El; exact Hslot).
      unfold xact_at. rewrite El. fold (xact_at c (Z.to_nat (xact_head c))). fold xact.
      rewrite Hpending. reflexivity. }
    destruct (sole_slot_drained c1) as (-> & Hempty).
    + apply ack_pending_wf, Hwf0.
    + change (xact_tail c1) with (xact_tail c0). change (xact_head c1) with (xact_head c0).
      congruence.
    + rewrite Ex. apply checkpoint_ready_iff. cbn. lia.
    + cbn zeta. split; [|exact Hempty].
      change (fsync_lsn (with_envelopes ?x _)) with (fsync_lsn x).
      rewrite checkpoint_slot_fsync_lsn, Ex. reflexivity.
Qed.

Lemma sole_transaction_is_checkpointed_witness :
  ring_wf context_in_txn /\
  xact_tail context_in_txn = xact_head context_in_txn /\
  exists c',
    on_commit_txn context_in_txn 512 7 = Returned 0 c' /\
    fsync_lsn c' = 512 /\ xact_list_empty c' = true.
Proof.
  split; [exact context_in_txn_wf|]. split; [reflexivity|].
  destruct (sole_transaction_is_checkpointed context_in_txn context_in_txn_wf eq_refl)
    as (Hcommit & _).
  apply (Hcommit 512); [reflexivity | left; reflexivity].
Defined.

(** The snapshot transaction does not wait for its commit.  While it is
    alone in the ring with its commit still to come, the acknowledgement
    that brings its pending count to zero takes it out of the ring: the ring
    is empty, [fsync_lsn] is set to 0 whatever it was, the snapshot flag
    stays as it is, and a keepalive is answered with 0. *)
Lemma snapshot_is_checkpointed_before_its_commit
    (FRAME_READER_SYNC_PENDING : Z) (c : producer_context) (msg : rd_kafka_message)
    (r : unit) (c' : producer_context) :
  ring_wf c ->
  xact_tail c = xact_head c ->
  xid (xact_at c (Z.to_nat (xact_head c))) = 0 ->
  commit_lsn (xact_at c (Z.to_nat (xact_head c))) = 0 ->
  pending_events (xact_at c (Z.to_nat (xact_head c))) = 1 ->
  env_xact (msg_private msg) = Z.to_nat (xact_head c) ->
  on_deliver_msg c msg = Returned r c' ->
  xact_list_empty c' = true /\
  fsync_lsn c' = 0 /\
  taking_snapshot c' = taking_snapshot c /\
  forall wal_pos, on_keepalive FRAME_READER_SYNC_PENDING c' wal_pos = Returned 0 c'.
Proof.
  intros Hwf Hsole Hxid Hcommit Hpending Henv Hd.
  pose proof (head_slot_in_range c Hwf) as Hslot.
  destruct (on_deliver_msg_returned_cases _ _ _ _ Hd) as (c0 & Hc0 & ->).
  assert (ring_wf c0 /\ xact_tail c0 = xact_tail c /\ xact_head c0 = xact_head c /\
          xact_list c0 = xact_list c /\ taking_snapshot c0 = taking_snapshot c)
    as (Hwf0 & Et & Eh & El & Es)
      by (destruct Hc0 as [->| ->]; repeat split; apply Hwf).
  rewrite Henv. set (c1 := ack_pending c0 (Z.to_nat (xact_head c))).
  set (xact := xact_at c (Z.to_nat (xact_head c))) in *.
  assert (xact_at c1 (Z.to_nat (xact_tail c1)) = mk_xact 0 (recvd_events xact) 0 0) as Ex.
  { unfold c1, ack_pending. change (xact_tail (set_xact_at _ _ _)) with (xact_tail c0).
    rewrite Et, Hsole. rewrite xact_at_set_eq by (rewrite El; exact Hslot).
    unfold xact_at. rewrite El. fold (xact_at c (Z.to_nat (xact_head c))). fold xact.
    rewrite Hpending, Hxid, Hcommit. reflexivity. }
  destruct (sole_slot_drained c1) as (-> & Hempty).
  - apply ack_pending_wf, Hwf0.
  - change (xact_tail c1) with (xact_tail c0). change (xact_head c1) with (xact_head c0).
    congruence.
  - rewrite Ex. reflexivity.
  - cbn zeta.
    assert (xact_list_empty
              (with_envelopes (checkpoint_slot c1)
                 (free_envelope (msg_private msg) (envelopes (checkpoint_slot c1)))) = true)
      as Hempty' by exact Hempty.
    split; [exact Hempty'|]. split; [|split].
    + change (fsync_lsn (with_envelopes ?x _)) with (fsync_lsn x).
      rewrite checkpoint_slot_fsync_lsn, Ex. reflexivity.
    + change (taking_snapshot (with_envelopes ?x _)) with (taking_snapshot x).
      rewrite checkpoint_slot_taking_snapshot, Ex. exact Es.
    + intros wal_pos. unfold on_keepalive. rewrite Hempty'. reflexivity.
Qed.

Lemma snapshot_is_checkpointed_before_its_commit_witness :
  ring_wf context_snapshot_row /\
  fsync_lsn context_snapshot_row = 4096 /\
  pending_events (xact_at context_snapshot_row 0) = 1 /\
  exists c',
    on_deliver_msg context_snapshot_row (sample_report 0) = Returned tt c' /\
    fsync_lsn c' = 0 /\ taking_snapshot c' = true /\ xact_list_empty c' = true.
Proof.
  assert (ring_wf context_snapshot_row) as Hwf by by_evaluation.
  split; [exact Hwf|]. split; [reflexivity|]. split; [reflexivity|].
  destruct (on_deliver_msg context_snapshot_row (sample_report 0))
    as [[] c'| |] eqn:Hd; try (vm_compute in Hd; discriminate).
  exists c'. split; [reflexivity|].
  destruct (snapshot_is_checkpointed_before_its_commit 1 context_snapshot_row
              (sample_report 0) tt c' Hwf eq_refl eq_refl eq_refl eq_refl eq_refl Hd)
    as (Hempty & Hfsync & Hsnap & _).
  split; [exact Hfsync|]. split; [exact Hsnap | exact Hempty].
Defined.

(** ** Envelopes on the heap *)

Lemma queued_of_nonneg (e : msg_envelope) (q : list rd_kafka_message) :
  0 <= queued_of e q.
Proof. induction q as [|m q IH]; cbn [queued_of]; [lia|]. case_decide; lia. Qed.

Lemma queued_of_app (e : msg_envelope) (q : list rd_kafka_message) (m : rd_kafka_message) :
  queued_of e (q ++ [m])
  = queued_of e q + (if decide (msg_private m = e) then 1 else 0).
Proof.
  induction q as [|x q IH]; cbn [queued_of app]; [lia|]. rewrite IH. lia.
Qed.

Lemma queued_of_delete (e : msg_envelope) (q : list rd_kafka_message) :
  forall (i : nat) (m : rd_kafka_message),
    q !! i = Some m ->
    queued_of e (delete i q)
    = queued_of e q - (if decide (msg_private m = e) then 1 else 0).
Proof.
  induction q as [|x q IH]; intros i m Hi; [discriminate|].
  destruct i as [|i]; cbn in Hi.
  - injection Hi as ->. cbn [delete list_delete queued_of]. lia.
  - change (delete (S i) (x :: q)) with (x :: delete i q). cbn [queued_of].
    rewrite (IH i m Hi). lia.
Qed.

(** What the delivery callback does to the queue and the heap. *)
Lemma on_deliver_msg_heap (c : producer_context) (msg : rd_kafka_message) :
  kafka_queue (final_context (on_deliver_msg c msg)) = kafka_queue c /\
  match on_deliver_msg c msg with
  | Returned _ c' => envelopes c' = free_envelope (msg_private msg) (envelopes c)
  | Exited _ c' => envelopes c' = envelopes c
  | Blocked c' => envelopes c' = envelopes c
  end.
Proof.
  unfold on_deliver_msg, handle_error.
  destruct (negb (msg_err msg =? 0)).
  - destruct (error_policy c); cbn [bind fatal_error final_context].
    + unfold fatal_error, exit_nicely; cbn [bind final_context].
      destruct (taking_snapshot _ && _); [cbn zeta; destruct (negb _)|];
        split; reflexivity.
    + cbn [Z.eqb]. set (c1 := write_log _ _ c).
      destruct (maybe_checkpoint_traffic (ack_pending c1 (env_xact (msg_private msg))))
        as (_ & _ & _ & _ & _ & Eq & _ & Ee).
      split; [exact Eq|]. unfold with_envelopes; cbn [envelopes]. rewrite Ee. reflexivity.
    + unfold fatal_error, exit_nicely; cbn [bind final_context].
      destruct (taking_snapshot _ && _); [cbn zeta; destruct (negb _)|];
        split; reflexivity.
  - cbn [bind final_context Z.eqb].
    destruct (maybe_checkpoint_traffic (ack_pending c (env_xact (msg_private msg))))
      as (_ & _ & _ & _ & _ & Eq & _ & Ee).
    split; [exact Eq|]. unfold with_envelopes; cbn [envelopes]. rewrite Ee. reflexivity.
Qed.

Lemma report_keeps_heap_cover (spare : msg_envelope -> Z) (c : producer_context)
    (i : nat) (m : rd_kafka_message) (err : Z) :
  (forall e, 0 <= spare e) ->
  kafka_queue c !! i = Some m ->
  heap_covers c spare ->
  heap_covers
    (final_context
       (on_deliver_msg (with_kafka_queue c (delete i (kafka_queue c)))
          (mk_message (msg_rkt m) (msg_payload m) (msg_key m) (msg_private m) err)))
    spare.
Proof.
  intros Hspare Hi Hc e.
  set (c0 := with_kafka_queue c (delete i (kafka_queue c))).
  set (msg := mk_message _ _ _ _ err).
  destruct (on_deliver_msg_heap c0 msg) as (Eq & Ee).
  rewrite Eq. change (kafka_queue c0) with (delete i (kafka_queue c)).
  rewrite (queued_of_delete e _ _ _ Hi).
  specialize (Hc e). specialize (Hspare e).
  pose proof (queued_of_nonneg e (delete i (kafka_queue c))) as Hnn.
  rewrite (queued_of_delete e _ _ _ Hi) in Hnn.
  destruct (on_deliver_msg c0 msg) as [r c'|s c'|c']; cbn [final_context]; rewrite Ee.
  - change (envelopes c0) with (envelopes c). change (msg_private msg) with (msg_private m).
    rewrite allocated_of_free. destruct (decide (msg_private m = e)); lia.
  - change (envelopes c0) with (envelopes c). destruct (decide (msg_private m = e)); lia.
  - change (envelopes c0) with (envelopes c). destruct (decide (msg_private m = e)); lia.
Qed.

(** Relations that hold across each delivery report taken as a whole. *)
Section Reportwise.

Variable R : producer_context -> producer_context -> Prop.
Hypothesis R_refl : forall c, R c c.
Hypothesis R_trans : forall c1 c2 c3, R c1 c2 -> R c2 c3 -> R c1 c3.
Hypothesis R_log : forall lvl txt c, R c (write_log lvl txt c).
Hypothesis R_checkpoint : forall c, R c (checkpoint_slot c).
Hypothesis R_open : forall c xid', R c (open_slot c xid').
Hypothesis R_commit : forall c wal_pos, R c (record_commit c wal_pos).
Hypothesis R_report :
  forall c i m err,
    kafka_queue c !! i = Some m ->
    R c (final_context
           (on_deliver_msg (with_kafka_queue c (delete i (kafka_queue c)))
              (mk_message (msg_rkt m) (msg_payload m) (msg_key m) (msg_private m) err))).

Lemma reportwise_exit_nicely {A} (c : producer_context) (status : Z) :
  R c (final_context (@exit_nicely A c status)).
Proof.
  destruct (@exit_nicely_cases A c status) as [->|(_ & _ & [->| ->])];
    [apply R_refl | apply R_log | eapply R_trans; apply R_log].
Qed.

Lemma reportwise_fatal_error {A} (c : producer_context) (txt : log_text) :
  R c (final_context (@fatal_error A c txt)).
Proof.
  unfold fatal_error.
  eapply R_trans; [apply (R_log LOG_FATAL txt c) | apply reportwise_exit_nicely].
Qed.

Lemma reportwise_rd_kafka_poll (reports : list (nat * Z)) :
  forall c, R c (final_context (rd_kafka_poll reports c)).
Proof.
  induction reports as [|[i e] rest IH]; intros c; cbn [rd_kafka_poll];
    [apply R_refl|].
  destruct (kafka_queue c !! i) as [m|] eqn:Hi; [|apply IH].
  pose proof (R_report c i m e Hi) as Hd.
  destruct (on_deliver_msg _ _) as [r c1|s c1|c1]; cbn [final_context] in *;
    try exact Hd.
  exact (R_trans _ _ _ Hd (IH c1)).
Qed.

Lemma reportwise_backpressure (c : producer_context) (env : poll_env) :
  R c (final_context (backpressure c env)).
Proof.
  unfold backpressure. pose proof (reportwise_rd_kafka_poll (poll_reports env) c) as Hp.
  destruct (rd_kafka_poll _ _) as [r c1|s c1|c1]; cbn [bind final_context] in *;
    try exact Hp.
  eapply R_trans; [exact Hp|].
  destruct (negb (shutdown_signal env =? 0)).
  - eapply R_trans; [|apply reportwise_exit_nicely].
    apply (R_log LOG_INFO (TxtShutdownDuringBackpressure (shutdown_signal env))).
  - destruct (negb (keepalive_err env =? 0)); [|apply R_refl].
    apply reportwise_fatal_error.
Qed.

Lemma reportwise_await_free_slot (polls : list poll_env) :
  forall c, R c (final_context (await_free_slot polls c)).
Proof.
  induction polls as [|env rest IH]; intros c; cbn [await_free_slot];
    destruct (xact_list_full c); try apply R_refl.
  pose proof (reportwise_backpressure c env) as Hb.
  destruct (backpressure c env) as [r c1|s c1|c1]; cbn [final_context] in *;
    try exact Hb.
  exact (R_trans _ _ _ Hb (IH c1)).
Qed.

Lemma reportwise_on_begin_txn (c : producer_context) (wal_pos xid' : Z)
    (polls : list poll_env) :
  R c (final_context (on_begin_txn c wal_pos xid' polls)).
Proof.
  unfold on_begin_txn.
  assert (forall c1, R c c1 ->
            R c (final_context
                   (bind (await_free_slot polls c1)
                      (fun _ c2 => Returned 0 (open_slot c2 xid'))))) as Hgo.
  { intros c1 H1. pose proof (reportwise_await_free_slot polls c1) as Ha.
    destruct (await_free_slot polls c1) as [r c2|s c2|c2]; cbn [bind final_context] in *.
    - exact (R_trans _ _ _ (R_trans _ _ _ H1 Ha) (R_open c2 xid')).
    - exact (R_trans _ _ _ H1 Ha).
    - exact (R_trans _ _ _ H1 Ha). }
  destruct (xid' =? 0).
  - destruct (negb _); cbn [bind]; [apply reportwise_fatal_error | apply Hgo, R_log].
  - cbn [bind]. apply Hgo, R_refl.
Qed.

Lemma reportwise_maybe_checkpoint_loop (fuel : nat) :
  forall c, R c (maybe_checkpoint_loop fuel c).
Proof.
  induction fuel as [|fuel IH]; intros c; cbn [maybe_checkpoint_loop]; [apply R_refl|].
  destruct (checkpoint_ready _); [|apply R_refl].
  destruct (xact_list_empty _); [apply R_checkpoint|].
  eapply R_trans; [apply R_checkpoint | apply IH].
Qed.

Lemma reportwise_on_commit_txn (c : producer_context) (wal_pos xid' : Z) :
  R c (final_context (on_commit_txn c wal_pos xid')).
Proof.
  unfold on_commit_txn.
  set (c1 := if xid' =? 0 then _ else c).
  assert (R c c1) as H1
      by (unfold c1; destruct (xid' =? 0); [apply R_log | apply R_refl]).
  destruct (negb _); cbn [final_context].
  - eapply R_trans; [exact H1 | apply reportwise_fatal_error].
  - eapply R_trans; [exact H1|].
    eapply R_trans; [apply R_commit | apply reportwise_maybe_checkpoint_loop].
Qed.

End Reportwise.

Lemma heap_covers_weaken (c : producer_context) (e0 : msg_envelope)
    (spare : msg_envelope -> Z) :
  heap_covers c (one_more e0 spare) -> heap_covers c spare.
Proof.
  intros H e. specialize (H e). unfold one_more in H. case_decide; lia.
Qed.

Section HeapCover.

Variable spare : msg_envelope -> Z.
Hypothesis spare_nonneg : forall e, 0 <= spare e.

Let covered (c c' : producer_context) : Prop := heap_covers c spare -> heap_covers c' spare.

Lemma covered_refl (c : producer_context) : covered c c.
Proof. unfold covered. auto. Qed.

Lemma covered_trans (c1 c2 c3 : producer_context) :
  covered c1 c2 -> covered c2 c3 -> covered c1 c3.
Proof. unfold covered. auto. Qed.

Lemma covered_same_heap (c c' : producer_context) :
  kafka_queue c' = kafka_queue c -> envelopes c' = envelopes c -> covered c c'.
Proof. unfold covered, heap_covers. intros -> ->. auto. Qed.

Lemma covered_report (c : producer_context) (i : nat) (m : rd_kafka_message) (err : Z) :
  kafka_queue c !! i = Some m ->
  covered c
    (final_context
       (on_deliver_msg (with_kafka_queue c (delete i (kafka_queue c)))
          (mk_message (msg_rkt m) (msg_payload m) (msg_key m) (msg_private m) err))).
Proof. intros Hi Hc. apply report_keeps_heap_cover; assumption. Qed.

Lemma covered_checkpoint_slot (c : producer_context) : covered c (checkpoint_slot c).
Proof.
  destruct (checkpoint_slot_traffic c) as (_ & _ & _ & _ & _ & Eq & _ & Ee).
  apply covered_same_heap; assumption.
Qed.

Lemma covered_log (lvl : log_level) (txt : log_text) (c : producer_context) :
  covered c (write_log lvl txt c).
Proof. apply covered_same_heap; reflexivity. Qed.

Lemma covered_open_slot (c : producer_context) (xid' : Z) : covered c (open_slot c xid').
Proof. apply covered_same_heap; reflexivity. Qed.

Lemma covered_record_commit (c : producer_context) (wal_pos : Z) :
  covered c (record_commit c wal_pos).
Proof. apply covered_same_heap; reflexivity. Qed.

Lemma backpressure_keeps_heap_cover (c : producer_context) (env : poll_env) :
  heap_covers c spare -> heap_covers (final_context (backpressure c env)) spare.
Proof.
  exact (reportwise_backpressure covered covered_refl covered_trans covered_log
           covered_report c env).
Qed.

Lemma begin_keeps_heap_cover (c : producer_context) (wal_pos xid' : Z)
    (polls : list poll_env) :
  heap_covers c spare ->
  heap_covers (final_context (on_begin_txn c wal_pos xid' polls)) spare.
Proof.
  exact (reportwise_on_begin_txn covered covered_refl covered_trans covered_log
           covered_open_slot covered_report c wal_pos xid' polls).
Qed.

Lemma commit_keeps_heap_cover (c : producer_context) (wal_pos xid' : Z) :
  heap_covers c spare -> heap_covers (final_context (on_commit_txn c wal_pos xid')) spare.
Proof.
  exact (reportwise_on_commit_txn covered covered_refl covered_trans covered_log
           covered_checkpoint_slot covered_record_commit c wal_pos xid').
Qed.

Lemma poll_keeps_heap_cover (reports : list (nat * Z)) (c : producer_context) :
  heap_covers c spare -> heap_covers (final_context (rd_kafka_poll reports c)) spare.
Proof.
  exact (reportwise_rd_kafka_poll covered covered_refl covered_trans covered_report
           reports c).
Qed.

End HeapCover.

Lemma one_more_nonneg (e0 : msg_envelope) (spare : msg_envelope -> Z) :
  (forall e, 0 <= spare e) -> forall e, 0 <= one_more e0 spare e.
Proof. intros H e. specialize (H e). unfold one_more. case_decide; lia. Qed.

Lemma malloc_gives_spare (c : producer_context) (slot : nat) (e0 : msg_envelope)
    (spare : msg_envelope -> Z) :
  heap_covers c spare ->
  heap_covers (malloc_envelope (count_event c slot) e0) (one_more e0 spare).
Proof.
  intros H e. specialize (H e). unfold one_more, malloc_envelope, count_event. fields.
  cbn [allocated_of]. destruct (decide (e = e0)) as [->|Hne].
  - rewrite decide_True by reflexivity. lia.
  - rewrite decide_False by congruence. lia.
Qed.

Lemma accept_takes_spare (c : producer_context) (m : rd_kafka_message)
    (spare : msg_envelope -> Z) :
  heap_covers c (one_more (msg_private m) spare) ->
  heap_covers (rd_kafka_accept c m) spare.
Proof.
  intros H e. specialize (H e). unfold one_more, rd_kafka_accept in *. fields.
  rewrite queued_of_app.
  destruct (decide (e = msg_private m)) as [->|Hne].
  - rewrite decide_True by reflexivity. lia.
  - rewrite decide_False by congruence. lia.
Qed.

Lemma produce_loop_keeps_heap_cover (spare : msg_envelope -> Z)
    (table : table_metadata) (key val : option buffer) (envelope : msg_envelope)
    (script : list produce_attempt) :
  (forall e, 0 <= spare e) ->
  forall c,
    heap_covers c (one_more envelope spare) ->
    heap_covers (final_context (produce_loop script c table key val envelope)) spare /\
    forall r c',
      produce_loop script c table key val envelope = Returned r c' ->
      r <> 0 ->
      heap_covers c' (one_more envelope spare).
Proof.
  intros Hspare. pose proof (one_more_nonneg envelope spare Hspare) as Hmore.
  induction script as [|a rest IH]; intros c Hc; cbn [produce_loop].
  { split; [eapply heap_covers_weaken; exact Hc | discriminate]. }
  pose proof (accept_takes_spare c (mk_message (topic table) val key envelope 0) spare Hc)
    as Hacc.
  destruct (produce_err a =? 0) eqn:Herr.
  - destruct (errno_queue_full a).
    + pose proof (backpressure_keeps_heap_cover spare Hspare _ (attempt_poll a) Hacc) as Hb.
      destruct (backpressure _ _) as [r1 c1|s c1|c1]; cbn [final_context] in *;
        (split; [exact Hb|]); try discriminate.
      intros r c' [= <- <-] Hr. contradiction.
    + cbn [negb final_context]. split; [exact Hacc|].
      intros r c' [= <- <-] Hr. contradiction.
  - destruct (errno_queue_full a).
    + pose proof (backpressure_keeps_heap_cover _ Hmore c (attempt_poll a) Hc) as Hb.
      destruct (backpressure _ _) as [r1 c1|s c1|c1]; cbn [final_context] in *.
      * apply IH, Hb.
      * split; [eapply heap_covers_weaken; exact Hb | discriminate].
      * split; [eapply heap_covers_weaken; exact Hb | discriminate].
    + cbn [negb final_context].
      split; [eapply heap_covers_weaken; exact Hc|].
      intros r c' [= <- <-] _. exact Hc.
Qed.

Lemma queued_message_counts (q : list rd_kafka_message) :
  forall i m, q !! i = Some m -> 1 <= queued_of (msg_private m) q.
Proof.
  induction q as [|x q IH]; intros i m Hi; [discriminate|].
  pose proof (queued_of_nonneg (msg_private m) q) as Hnn.
  destruct i as [|i]; cbn in Hi; cbn [queued_of].
  - injection Hi as ->. rewrite decide_True by reflexivity. lia.
  - specialize (IH i m Hi). case_decide; lia.
Qed.

Lemma allocated_envelope_in_heap (e : msg_envelope) (heap : list msg_envelope) :
  1 <= allocated_of e heap -> In e heap.
Proof.
  induction heap as [|x heap IH]; cbn [allocated_of In]; [lia|].
  destruct (decide (x = e)); [auto|]. intros H. right. apply IH. lia.
Qed.

Section HeapOfProducer.

Variable FRAME_READER_SYNC_PENDING : Z.
Variable json_encode_msg :
  table_metadata -> option buffer -> option buffer -> Z * option buffer * option buffer.
Variable schema_registry_encode_msg :
  Z -> Z -> option buffer -> option buffer -> Z * option buffer * option buffer.

Local Abbreviation send := (send_kafka_msg json_encode_msg schema_registry_encode_msg).
Local Abbreviation run :=
  (feed_all FRAME_READER_SYNC_PENDING json_encode_msg schema_registry_encode_msg).

Lemma send_keeps_heap_cover (spare : msg_envelope -> Z) (c : producer_context)
    (wal_pos relid : Z) (key_bin val_bin : option buffer) (script : list produce_attempt) :
  (forall e, 0 <= spare e) ->
  heap_covers c spare ->
  let envelope := mk_envelope wal_pos relid (Z.to_nat (xact_head c)) in
  heap_covers (final_context (send c wal_pos relid key_bin val_bin script)) spare /\
  forall r c',
    send c wal_pos relid key_bin val_bin script = Returned r c' ->
    r <> 0 ->
    heap_covers c' (one_more envelope spare).
Proof.
  intros Hspare Hc envelope. unfold send_kafka_msg. fold envelope.
  set (c2 := malloc_envelope _ envelope).
  assert (heap_covers c2 (one_more envelope spare)) as H2 by apply malloc_gives_spare, Hc.
  assert (forall lvl txt,
             heap_covers (write_log lvl txt c2) spare /\
             forall (r : Z) c',
               Returned r (write_log lvl txt c2) = Returned r c' ->
               heap_covers c' (one_more envelope spare)) as Hlogged.
  { intros lvl txt. split; [eapply heap_covers_weaken; exact H2|].
    intros r c' [= <-]. exact H2. }
  destruct (table_mapper_lookup _ _) as [table|]; cbn [final_context].
  2:{ split; [apply Hlogged|]. intros r c' Hs _. eapply Hlogged. rewrite <- Hs.
      injection Hs as <- _. reflexivity. }
  destruct (output_format c2).
  - split; [|discriminate]. unfold fatal_error, exit_nicely. cbn [final_context].
    destruct (_ && _); [cbn zeta; destruct (negb _)|];
      eapply heap_covers_weaken; exact H2.
  - destruct (schema_registry_encode_msg _ _ _ _) as [[err key] val].
    destruct (negb _); cbn [final_context].
    + split; [apply Hlogged|]. intros r c' [= <- <-] _. exact H2.
    + apply produce_loop_keeps_heap_cover; assumption.
  - destruct (json_encode_msg _ _ _) as [[err key] val].
    destruct (negb _); cbn [final_context].
    + split; [apply Hlogged|]. intros r c' [= <- <-] _. exact H2.
    + apply produce_loop_keeps_heap_cover; assumption.
Qed.

Lemma feed_keeps_heap_cover (spare : msg_envelope -> Z) (e : event)
    (c : producer_context) :
  (forall e, 0 <= spare e) ->
  heap_covers c spare ->
  heap_covers
    (final_context
       (feed FRAME_READER_SYNC_PENDING json_encode_msg schema_registry_encode_msg e c))
    spare.
Proof.
  intros Hspare Hc. destruct e; cbn [feed].
  - apply begin_keeps_heap_cover; assumption.
  - apply commit_keeps_heap_cover; assumption.
  - apply send_keeps_heap_cover; assumption.
  - apply send_keeps_heap_cover; assumption.
  - unfold on_delete_row. destruct key_bin; [|exact Hc].
    apply send_keeps_heap_cover; assumption.
  - unfold on_keepalive. destruct (xact_list_empty c); exact Hc.
  - unfold table_schema_updated. destruct (update_ok answer); exact Hc.
  - unfold on_client_error, handle_error, fatal_error, exit_nicely.
    destruct (error_policy c); cbn [final_context];
      repeat match goal with |- context [if ?b then _ else _] => destruct b end;
      exact Hc.
  - pose proof (poll_keeps_heap_cover _ Hspare reports c Hc) as Hp.
    destruct (rd_kafka_poll reports c); exact Hp.
Qed.

Lemma run_keeps_heap_cover (spare : msg_envelope -> Z) (es : list event) :
  (forall e, 0 <= spare e) ->
  forall c, heap_covers c spare -> heap_covers (final_context (run es c)) spare.
Proof.
  intros Hspare. induction es as [|e rest IH]; intros c Hc;
    cbn [feed_all final_context]; [exact Hc|].
  pose proof (feed_keeps_heap_cover spare e c Hspare Hc) as He.
  destruct (feed _ _ _ e c) as [r c1|s c1|c1]; cbn [final_context] in *; try exact He.
  destruct ((r =? 0) || is_keepalive e); [apply IH, He | exact He].
Qed.

(** If every queued message carries an envelope that is allocated, as
    often as messages carry it, then so it is after any run of events,
    however the run ends: a delivery report always finds the envelope it is
    about to free on the heap. *)
Lemma delivery_finds_envelope_allocated (es : list event) (c : producer_context) :
  heap_covers_queue c ->
  let c' := final_context (run es c) in
  heap_covers_queue c' /\
  forall i m, kafka_queue c' !! i = Some m -> In (msg_private m) (envelopes c').
Proof.
  intros Hc c'.
  assert (heap_covers_queue c') as Hc'.
  { apply run_keeps_heap_cover; [intros; apply Z.le_refl | exact Hc]. }
  split; [exact Hc'|]. intros i m Hi.
  apply allocated_envelope_in_heap.
  pose proof (Hc' (msg_private m)) as Hm. cbv beta in Hm.
  pose proof (queued_message_counts _ _ _ Hi). lia.
Qed.

(** An error return of [send_kafka_msg] leaves the envelope of the call
    allocated without a message to carry it, and nothing that follows frees
    it: after any further run of events the envelope is still allocated
    once more than queued messages carry it. *)
Lemma send_error_leaks_envelope (c : producer_context) (wal_pos relid : Z)
    (key_bin val_bin : option buffer) (script : list produce_attempt)
    (r : Z) (c' : producer_context) :
  heap_covers_queue c ->
  send c wal_pos relid key_bin val_bin script = Returned r c' ->
  r <> 0 ->
  let envelope := mk_envelope wal_pos relid (Z.to_nat (xact_head c)) in
  forall es,
    let c'' := final_context (run es c') in
    queued_of envelope (kafka_queue c'') + 1 <= allocated_of envelope (envelopes c'') /\
    In envelope (envelopes c'').
Proof.
  intros Hc Hs Hr envelope es c''.
  assert (forall e : msg_envelope, 0 <= (fun _ : msg_envelope => 0) e) as Hzero
      by (intros; apply Z.le_refl).
  destruct (send_keeps_heap_cover _ c wal_pos relid key_bin val_bin script Hzero Hc)
    as (_ & Hleak).
  specialize (Hleak r c' Hs Hr). fold envelope in Hleak.
  pose proof (run_keeps_heap_cover _ es (one_more_nonneg envelope _ Hzero) c' Hleak
                envelope) as Hc''.
  fold c'' in Hc''. unfold one_more in Hc''. rewrite decide_True in Hc'' by reflexivity.
  pose proof (queued_of_nonneg envelope (kafka_queue c'')) as Hnn.
  split; [lia|]. apply allocated_envelope_in_heap. lia.
Qed.

End HeapOfProducer.

Lemma delivery_finds_envelope_allocated_witness :
  heap_covers_queue context_in_txn /\
  heap_covers_queue
    (final_context
       (feed_all 1 verbatim_encode_msg framing_encode_msg
          [InsertRow 500 1 (Some [Byte.x01]) (Some [Byte.x02]) [one_attempt 0];
           CommitTxn 512 7] context_in_txn)).
Proof.
  assert (heap_covers_queue context_in_txn) as Hc by (intros e; cbn; lia).
  split; [exact Hc|].
  apply (delivery_finds_envelope_allocated 1 verbatim_encode_msg framing_encode_msg
           [InsertRow 500 1 (Some [Byte.x01]) (Some [Byte.x02]) [one_attempt 0];
            CommitTxn 512 7] context_in_txn Hc).
Defined.

Lemma send_error_leaks_envelope_witness :
  heap_covers_queue context_in_txn /\
  (let c' := write_log LOG_ERROR (TxtNoRegisteredSchema 5)
               (malloc_envelope (count_event context_in_txn 0) (mk_envelope 500 5 0)) in
   send_kafka_msg verbatim_encode_msg framing_encode_msg context_in_txn 500 5
     (Some [Byte.x01]) (Some [Byte.x02]) [] = Returned 1 c' /\
   In (mk_envelope 500 5 0) (envelopes c') /\ kafka_queue c' = []).
Proof.
  assert (heap_covers_queue context_in_txn) as Hc by (intros e; cbn; lia).
  split; [exact Hc|]. intros c'.
  assert (send_kafka_msg verbatim_encode_msg framing_encode_msg context_in_txn 500 5
            (Some [Byte.x01]) (Some [Byte.x02]) [] = Returned 1 c') as Hs
    by (vm_compute; reflexivity).
  split; [exact Hs|]. split; [|reflexivity].
  apply (send_error_leaks_envelope 1 verbatim_encode_msg framing_encode_msg
           context_in_txn 500 5 (Some [Byte.x01]) (Some [Byte.x02]) [] 1 c' Hc Hs
           ltac:(discriminate) []).
Defined.

(** ** Command-line options *)

Lemma strchr_found (s : c_string) (i : nat) :
  strchr s "="%char = Some i ->
  s = take i s ++ "="%char :: drop (S i) s /\ ~ In "="%char (take i s).
Proof.
  revert i. induction s as [|a s IH]; intros i; cbn [strchr]; [discriminate|].
  destruct (Ascii.eqb a "=") eqn:Ha.
  - intros [= <-]. apply Ascii.eqb_eq in Ha as ->. cbn. rewrite drop_0. auto.
  - destruct (strchr s "=") as [j|]; [|discriminate]. intros [= <-].
    destruct (IH j eq_refl) as (Hs & Hnot). apply Ascii.eqb_neq in Ha.
    cbn [take drop app]. split; [f_equal; exact Hs|].
    intros [Heq|Hin]; [congruence | contradiction].
Qed.

Lemma strchr_first (p v : c_string) :
  ~ In "="%char p -> strchr (p ++ "="%char :: v) "="%char = Some (length p).
Proof.
  induction p as [|a p IH]; intros Hnot; cbn [app strchr length].
  - reflexivity.
  - destruct (Ascii.eqb a "=") eqn:Ha.
    + apply Ascii.eqb_eq in Ha. exfalso. apply Hnot. left. exact Ha.
    + rewrite IH; [reflexivity|]. intros Hin. apply Hnot. right. exact Hin.
Qed.

Lemma strchr_missing (s : c_string) :
  strchr s "="%char = None <-> ~ In "="%char s.
Proof.
  induction s as [|a s IH]; cbn [strchr In].
  - split; [tauto | reflexivity].
  - destruct (Ascii.eqb a "=") eqn:Ha.
    + apply Ascii.eqb_eq in Ha. split; [discriminate | tauto].
    + apply Ascii.eqb_neq in Ha. destruct (strchr s "=") as [j|]; cbn.
      * split; [discriminate|]. intros Hnot. exfalso.
        destruct IH as [_ IH]. assert (@None nat = None -> False) as Habs; [|tauto].
        intros _. assert (Some j = None) as Hj by (apply IH; tauto). discriminate Hj.
      * split; [|reflexivity]. intros _ [Heq|Hin]; [congruence|].
        destruct IH as [IH _]. exact (IH eq_refl Hin).
Qed.

Lemma parse_config_option_exit (opt : c_string) :
  forall status stderr, parse_config_option opt = Exits status stderr -> status = 1.
Proof.
  unfold parse_config_option. intros status stderr.
  destruct (strchr opt "="); [discriminate|]. intros [= <- _]. reflexivity.
Qed.

(** [parse_config_option] splits its argument at the first equals sign:
    it yields a property and a value exactly when the argument is the
    property, an equals sign and the value, with no equals sign in the
    property (the value may hold more of them); it ends the process with
    status 1 exactly when the argument holds no equals sign. *)
Lemma parse_config_option_splits_at_first_equals (opt : c_string) :
  (forall p v,
     parse_config_option opt = Proceeds (p, v) <->
     opt = p ++ "="%char :: v /\ ~ In "="%char p) /\
  ((exists stderr, parse_config_option opt = Exits 1 stderr) <-> ~ In "="%char opt) /\
  (forall status stderr, parse_config_option opt = Exits status stderr -> status = 1).
Proof.
  unfold parse_config_option. split; [|split].
  - intros p v. split.
    + destruct (strchr opt "=") as [i|] eqn:Hi; [|discriminate].
      intros [= <- <-]. apply strchr_found, Hi.
    + intros (-> & Hnot). rewrite strchr_first by exact Hnot.
      rewrite take_app_length.
      assert (drop (S (length p)) (p ++ "="%char :: v) = v) as ->
          by (clear; induction p; cbn; auto using drop_0).
      reflexivity.
  - split.
    + intros (stderr & H). apply strchr_missing.
      destruct (strchr opt "="); [discriminate | reflexivity].
    + intros Hnot. apply strchr_missing in Hnot. rewrite Hnot. eauto.
  - intros status stderr. destruct (strchr opt "="); [discriminate|].
    intros [= <- _]. reflexivity.
Qed.

(** [set_output_format] accepts the two names [avro] and [json] and no
    other: on those it sets the format it names and nothing else of the
    context, on every other argument it ends the process with status 1.  The
    names that [output_format_name] prints are among the refused. *)
Lemma set_output_format_accepts_avro_and_json (c : producer_context) (format : c_string) :
  (set_output_format c format =
     if bool_decide (format = c_avro) then Proceeds (with_output_format c OUTPUT_FORMAT_AVRO)
     else if bool_decide (format = c_json) then Proceeds (with_output_format c OUTPUT_FORMAT_JSON)
     else Exits 1 [InvalidOutputFormat format]) /\
  (forall c', set_output_format c format = Proceeds c' ->
     output_format c' <> OUTPUT_FORMAT_UNDEFINED /\
     c' = with_output_format c (output_format c')) /\
  (forall f, exists stderr, set_output_format c (output_format_name f) = Exits 1 stderr).
Proof.
  unfold set_output_format. split; [|split].
  - repeat case_bool_decide; congruence.
  - intros c'. repeat case_bool_decide; intros [= <-]; (split; [discriminate | reflexivity]).
  - intros f. destruct f; cbn; eauto.
Qed.

Ltac codes :=
  repeat match goal with
  | |- context [chr ?a] =>
      let v := eval vm_compute in (chr a) in change (chr a) with v
  | H : context [chr ?a] |- _ =>
      let v := eval vm_compute in (chr a) in change (chr a) with v in H
  end.

Ltac last_cases :=
  match goal with
  | |- context [last_arg ?k ?s] => destruct (last_arg k s)
  end;
  try match goal with
      | |- context [?a =? ?b] => destruct (a =? b)
      end;
  reflexivity.

Ltac by_option c :=
  repeat match goal with
  | |- context [c =? ?k] =>
      destruct (Z.eqb_spec c k); [subst c; cbn [Z.eqb Pos.eqb] in * |]
  | H : context [c =? ?k] |- _ =>
      destruct (Z.eqb_spec c k); [subst c; cbn [Z.eqb Pos.eqb] in * |]
  end.

Lemma settings_unchanged (c : producer_context) :
  with_error_policy (with_output_format c (output_format c)) (error_policy c) = c.
Proof. destruct c. reflexivity. Qed.

Section OptionsProperties.

Variable PROTOCOL_ERROR_POLICY_LOG : c_string.
Variable PROTOCOL_ERROR_POLICY_EXIT : c_string.
Variable schema_registry_new : c_string -> option schema_registry.
Variable rd_kafka_conf_set : list (c_string * c_string) -> c_string -> c_string -> bool.
Variable rd_kafka_topic_conf_set :
  list (c_string * c_string) -> c_string -> c_string -> bool.

Local Abbreviation set_policy :=
  (set_error_policy PROTOCOL_ERROR_POLICY_LOG PROTOCOL_ERROR_POLICY_EXIT).
Local Abbreviation policy_name :=
  (error_policy_name PROTOCOL_ERROR_POLICY_LOG PROTOCOL_ERROR_POLICY_EXIT).
Local Abbreviation step :=
  (parse_option PROTOCOL_ERROR_POLICY_LOG PROTOCOL_ERROR_POLICY_EXIT schema_registry_new
     rd_kafka_conf_set rd_kafka_topic_conf_set).
Local Abbreviation loop :=
  (parse_options_loop PROTOCOL_ERROR_POLICY_LOG PROTOCOL_ERROR_POLICY_EXIT
     schema_registry_new rd_kafka_conf_set rd_kafka_topic_conf_set).
Local Abbreviation parse :=
  (parse_options PROTOCOL_ERROR_POLICY_LOG PROTOCOL_ERROR_POLICY_EXIT
     schema_registry_new rd_kafka_conf_set rd_kafka_topic_conf_set).
Local Abbreviation policy_of := (policy_of_arg PROTOCOL_ERROR_POLICY_LOG).

(** The names that [error_policy_name] gives to the two policies are the
    arguments that [set_error_policy] accepts for them, provided the two
    names of [protocol.h] differ: setting the policy by its name returns,
    with that policy in the context and the name handed on to the
    client. *)
Lemma error_policy_name_round_trip (l : launch) (policy : error_policy_t) :
  PROTOCOL_ERROR_POLICY_LOG <> PROTOCOL_ERROR_POLICY_EXIT ->
  policy <> ERROR_POLICY_UNDEFINED ->
  exists l',
    set_policy l (policy_name policy) = Proceeds l' /\
    error_policy (producer l') = policy /\
    producer l' = with_error_policy (producer l) policy /\
    error_policy_calls (client l') = policy_name policy :: error_policy_calls (client l).
Proof.
  intros Hnames Hdefined. unfold set_error_policy.
  destruct policy; [contradiction| |]; cbn [error_policy_name].
  - rewrite bool_decide_eq_true_2 by reflexivity. cbn [and_then].
    eexists. split; [reflexivity|]. cbn. auto.
  - rewrite bool_decide_eq_false_2 by exact Hnames.
    rewrite bool_decide_eq_true_2 by reflexivity. cbn [and_then].
    eexists. split; [reflexivity|]. cbn. auto.
Qed.

(** What one option does to each setting, when the [switch] does not end
    the process. *)
Lemma parse_option_settings (l l1 : launch) (r : getopt_result) :
  step l r = Proceeds l1 ->
  let c := getopt_c r in
  let a := optarg r in
  brokers l1 = (if c =? chr "b" then a else brokers l) /\
  slot_name (client l1) = (if c =? chr "s" then a else slot_name (client l)) /\
  conninfo (client l1) = (if c =? chr "d" then Some a else conninfo (client l)) /\
  topic_prefix l1 = (if c =? chr "p" then Some a else topic_prefix l) /\
  allow_unkeyed (client l1) = allow_unkeyed (client l) || (c =? chr "u") /\
  skip_snapshot (client l1) = skip_snapshot (client l) || (c =? chr "x") /\
  output_format (producer l1) =
    (if c =? chr "f" then format_of_arg a else output_format (producer l)) /\
  error_policy (producer l1) =
    (if c =? chr "e" then policy_of a else error_policy (producer l)) /\
  producer l1 =
    with_error_policy (with_output_format (producer l) (output_format (producer l1)))
      (error_policy (producer l1)) /\
  kafka_conf l1 =
    kafka_conf l ++ settings_of (chr "C") [r] /\
  topic_conf l1 =
    topic_conf l ++ settings_of (chr "T") [r] /\
  (if c =? chr "r" then registry l1 = schema_registry_new a /\ is_Some (registry l1)
   else registry l1 = registry l) /\
  c <> chr "h" /\ c <> 1.
Proof.
  destruct r as [c a]. unfold parse_option. cbn [getopt_c optarg settings_of]. codes.
  intros Hstep.
  pose proof (settings_unchanged (producer l)) as Hsame.
  by_option c; cbn [and_then] in Hstep.
  all: try (injection Hstep as <-; cbn; rewrite ?orb_true_r, ?orb_false_r, ?app_nil_r;
            repeat split; auto; lia).
  - (* -f *)
    unfold set_output_format, format_of_arg in *.
    repeat case_bool_decide; cbn [and_then] in Hstep; try discriminate;
      injection Hstep as <-; cbn; rewrite ?orb_false_r, ?app_nil_r;
      repeat split; auto; lia.
  - (* -e *)
    unfold set_error_policy, policy_of_arg in *.
    repeat case_bool_decide; cbn [and_then] in Hstep; try discriminate;
      injection Hstep as <-; cbn; rewrite ?orb_false_r, ?app_nil_r;
      repeat split; auto; lia.
  - (* -C *)
    destruct (parse_config_option a) as [[p v]|]; cbn [and_then fst snd] in Hstep;
      [|discriminate].
    unfold set_kafka_config in Hstep.
    destruct (rd_kafka_conf_set _ _ _); [|discriminate].
    injection Hstep as <-. cbn. rewrite ?orb_false_r, ?app_nil_r.
    repeat split; auto; lia.
  - (* -T *)
    destruct (parse_config_option a) as [[p v]|]; cbn [and_then fst snd] in Hstep;
      [|discriminate].
    unfold set_topic_config in Hstep.
    destruct (rd_kafka_topic_conf_set _ _ _); [|discriminate].
    injection Hstep as <-. cbn. rewrite ?orb_false_r, ?app_nil_r.
    repeat split; auto; lia.
  - (* -r *)
    unfold init_schema_registry in Hstep.
    destruct (schema_registry_new a) as [reg|] eqn:Hreg; [|discriminate].
    injection Hstep as <-. cbn. rewrite ?orb_false_r, ?app_nil_r.
    repeat split; auto; lia.
  - discriminate.
  - discriminate.
  - discriminate.
Qed.

Lemma parse_option_exit (l : launch) (r : getopt_result) (status : Z)
    (stderr : list diagnostic) :
  step l r = Exits status stderr ->
  status = if (getopt_c r =? chr "h") || (getopt_c r =? 1) then 0 else 1.
Proof.
  destruct r as [c a]. unfold parse_option. cbn [getopt_c optarg]. codes.
  intros Hstep. by_option c; cbn [and_then orb] in *; try discriminate.
  all: pose proof (parse_config_option_exit a) as Hone.
  all: unfold usage, init_schema_registry, set_output_format, set_error_policy,
         set_kafka_config, set_topic_config in Hstep.
  all: repeat (match type of Hstep with
               | context [bool_decide ?P] => destruct (bool_decide P)
               | context [schema_registry_new ?x] => destruct (schema_registry_new x)
               | context [parse_config_option ?x] =>
                   destruct (parse_config_option x) as [[p v]|s1 d1]
               | context [rd_kafka_conf_set ?x ?y ?z] =>
                   destruct (rd_kafka_conf_set x y z)
               | context [rd_kafka_topic_conf_set ?x ?y ?z] =>
                   destruct (rd_kafka_topic_conf_set x y z)
               end; cbn [and_then fst snd] in Hstep).
  all: try discriminate.
  all: injection Hstep as <- _; try reflexivity.
  all: exact (Hone _ _ eq_refl).
Qed.

Lemma settings_of_cons (code : Z) (r : getopt_result) (rest : list getopt_result) :
  settings_of code (r :: rest) = settings_of code [r] ++ settings_of code rest.
Proof.
  cbn [settings_of]. destruct (getopt_c r =? code); [|reflexivity].
  destruct (parse_config_option (optarg r)); reflexivity.
Qed.

(** What the loop of [parse_options] has done to each setting when it
    ends without ending the process. *)
Lemma parse_options_loop_settings (results : list getopt_result) :
  forall l l',
    loop results l = Proceeds l' ->
    let seen := before_end results in
    brokers l' = default (brokers l) (last_arg (chr "b") seen) /\
    slot_name (client l') = default (slot_name (client l)) (last_arg (chr "s") seen) /\
    conninfo (client l') =
      match last_arg (chr "d") seen with
      | Some a => Some a
      | None => conninfo (client l)
      end /\
    topic_prefix l' =
      match last_arg (chr "p") seen with
      | Some a => Some a
      | None => topic_prefix l
      end /\
    allow_unkeyed (client l') = allow_unkeyed (client l) || has_option (chr "u") seen /\
    skip_snapshot (client l') = skip_snapshot (client l) || has_option (chr "x") seen /\
    output_format (producer l') =
      match last_arg (chr "f") seen with
      | Some a => format_of_arg a
      | None => output_format (producer l)
      end /\
    error_policy (producer l') =
      match last_arg (chr "e") seen with
      | Some a => policy_of a
      | None => error_policy (producer l)
      end /\
    producer l' =
      with_error_policy (with_output_format (producer l) (output_format (producer l')))
        (error_policy (producer l')) /\
    kafka_conf l' = kafka_conf l ++ settings_of (chr "C") seen /\
    topic_conf l' = topic_conf l ++ settings_of (chr "T") seen /\
    (registry l' = None -> registry l = None /\ has_option (chr "r") seen = false) /\
    (has_option (chr "r") seen = false -> registry l' = registry l) /\
    has_option (chr "h") seen = false /\
    has_option 1 seen = false.
Proof.
  induction results as [|r rest IH]; intros l l'; cbn [parse_options_loop before_end].
  { intros [= <-]. cbn. rewrite !orb_false_r, !app_nil_r.
    rewrite settings_unchanged. repeat split; auto. }
  destruct (getopt_c r =? -1).
  { intros [= <-]. cbn. rewrite !orb_false_r, !app_nil_r.
    rewrite settings_unchanged. repeat split; auto. }
  destruct (step l r) as [l1|] eqn:Hstep; cbn [and_then]; [|discriminate].
  intros Hloop.
  destruct (parse_option_settings _ _ _ Hstep)
    as (Sb & Ss & Sd & Sp & Su & Sx & Sf & Se & Sprod & SC & ST & Sr & Sh & S1).
  destruct (IH _ _ Hloop)
    as (Ib & Is & Id & Ip & Iu & Ix & If & Ie & Iprod & IC & IT & Ir & Ir' & Ih & I1).
  cbn zeta in *.
  rewrite (settings_of_cons (chr "C")), (settings_of_cons (chr "T")).
  unfold has_option in *. cbn [last_arg existsb].
  repeat match goal with
         | |- _ /\ _ => split
         end.
  - rewrite Ib, Sb. last_cases.
  - rewrite Is, Ss. last_cases.
  - rewrite Id, Sd. last_cases.
  - rewrite Ip, Sp. last_cases.
  - rewrite Iu, Su, orb_assoc. reflexivity.
  - rewrite Ix, Sx, orb_assoc. reflexivity.
  - rewrite If, Sf. last_cases.
  - rewrite Ie, Se. last_cases.
  - rewrite Iprod at 1. rewrite Sprod. reflexivity.
  - rewrite IC, SC, app_assoc. reflexivity.
  - rewrite IT, ST, app_assoc. reflexivity.
  - intros Hnone. destruct (Ir Hnone) as (H1 & H2). rewrite H2, orb_false_r.
    destruct (getopt_c r =? chr "r").
    + destruct Sr as (_ & [reg Hreg]). congruence.
    + split; [congruence | reflexivity].
  - intros Hnot. apply orb_false_elim in Hnot as (Hr & Hrest).
    rewrite Hr in Sr. rewrite (Ir' Hrest). exact Sr.
  - rewrite Ih, orb_false_r. apply Z.eqb_neq, Sh.
  - rewrite I1, orb_false_r. apply Z.eqb_neq, S1.
Qed.

Lemma parse_options_loop_exit (results : list getopt_result) :
  forall l status stderr,
    loop results l = Exits status stderr ->
    (status = 0 \/ status = 1) /\
    (status = 0 ->
     has_option (chr "h") (before_end results) || has_option 1 (before_end results)
     = true).
Proof.
  induction results as [|r rest IH]; intros l status stderr;
    cbn [parse_options_loop before_end]; [discriminate|].
  destruct (getopt_c r =? -1); [discriminate|].
  unfold has_option in *. cbn [existsb].
  destruct (step l r) as [l1|s1 d1] eqn:Hstep; cbn [and_then].
  - intros Hloop. destruct (IH _ _ _ Hloop) as (H01 & Hzero). split; [exact H01|].
    intros Hs. specialize (Hzero Hs). apply orb_true_iff in Hzero as [->| ->];
      rewrite ?orb_true_r; reflexivity.
  - intros [= <- <-]. apply parse_option_exit in Hstep.
    destruct (getopt_c r =? chr "h"), (getopt_c r =? 1); cbn in *; subst s1;
      (split; [auto|]); intros; try reflexivity; lia.
Qed.

Lemma parse_option_config_splits (l l1 : launch) (r : getopt_result) :
  step l r = Proceeds l1 ->
  getopt_c r = chr "C" \/ getopt_c r = chr "T" ->
  exists p v, parse_config_option (optarg r) = Proceeds (p, v).
Proof.
  destruct r as [c a]. unfold parse_option. cbn [getopt_c optarg]. codes.
  intros Hstep [-> | ->]; cbn [Z.eqb Pos.eqb] in Hstep;
    (destruct (parse_config_option a) as [[p v]|]; [eauto | discriminate]).
Qed.

Lemma parse_options_loop_config_splits (results : list getopt_result) :
  forall l l',
    loop results l = Proceeds l' ->
    Forall (fun r => getopt_c r = chr "C" \/ getopt_c r = chr "T" ->
                     exists p v, parse_config_option (optarg r) = Proceeds (p, v))
      (before_end results).
Proof.
  induction results as [|r rest IH]; intros l l'; cbn [parse_options_loop before_end];
    [constructor|].
  destruct (getopt_c r =? -1); [constructor|].
  destruct (step l r) as [l1|] eqn:Hstep; cbn [and_then]; [|discriminate].
  intros Hloop. constructor; [|exact (IH _ _ Hloop)].
  exact (parse_option_config_splits _ _ _ Hstep).
Qed.

(** What follows the loop in [parse_options]. *)
Lemma parse_options_after_loop (l l' : launch) (argv : command_line) :
  parse l argv = Proceeds l' ->
  exists l2,
    loop (getopt_results argv) l = Proceeds l2 /\
    is_Some (conninfo (client l2)) /\
    operands_left argv = false /\
    l' = with_registry l2 (registry l') /\
    match output_format (producer l2), registry l2 with
    | OUTPUT_FORMAT_AVRO, None =>
        registry l' = schema_registry_new DEFAULT_SCHEMA_REGISTRY /\ is_Some (registry l')
    | OUTPUT_FORMAT_JSON, Some _ => False
    | _, _ => registry l' = registry l2
    end.
Proof.
  unfold parse_options.
  destruct (loop (getopt_results argv) l) as [l2|] eqn:Hloop; cbn [and_then];
    [|discriminate].
  intros Htail. exists l2. split; [reflexivity|].
  destruct (conninfo (client l2)) as [conn|]; cbn [orb] in Htail; [|discriminate].
  destruct (operands_left argv); [discriminate|].
  split; [eauto|]. split; [reflexivity|].
  destruct (registry l2) as [reg|] eqn:Hreg;
    destruct (output_format (producer l2)) eqn:Hformat;
    try discriminate;
    try (injection Htail as <-; split;
         [destruct l2; reflexivity | exact Hreg]).
  unfold init_schema_registry in Htail.
  destruct (schema_registry_new DEFAULT_SCHEMA_REGISTRY) as [made|]; [|discriminate].
  injection Htail as <-. cbn. split; [reflexivity|]. split; [reflexivity | eauto].
Qed.

(** A [parse_options] that returns leaves settings the producer can start
    with: a connection string is set and no operand is left on the command
    line; with the Avro format a schema registry is set, the default one if
    no option gave one; with the JSON format none is set, and none was asked
    for. *)
Lemma parse_options_returns_usable_settings (l l' : launch) (argv : command_line) :
  parse l argv = Proceeds l' ->
  let seen := before_end (getopt_results argv) in
  is_Some (conninfo (client l')) /\
  operands_left argv = false /\
  (output_format (producer l') = OUTPUT_FORMAT_AVRO ->
   is_Some (registry l') /\
   (registry l = None -> has_option (chr "r") seen = false ->
    registry l' = schema_registry_new DEFAULT_SCHEMA_REGISTRY)) /\
  (output_format (producer l') = OUTPUT_FORMAT_JSON ->
   registry l' = None /\ registry l = None /\ has_option (chr "r") seen = false).
Proof.
  intros Hparse seen.
  destruct (parse_options_after_loop _ _ _ Hparse)
    as (l2 & Hloop & Hconn & Hoperands & Hl' & Hreg).
  destruct (parse_options_loop_settings _ _ _ Hloop)
    as (_ & _ & _ & _ & _ & _ & _ & _ & _ & _ & _ & Hnone & Hkept & _ & _).
  fold seen in Hnone, Hkept.
  assert (producer l' = producer l2) as Hprod by (rewrite Hl'; reflexivity).
  assert (client l' = client l2) as Hclient by (rewrite Hl'; reflexivity).
  rewrite Hprod, Hclient. split; [exact Hconn|]. split; [exact Hoperands|].
  destruct (output_format (producer l2)); (split; [intros Hf; try discriminate Hf|]);
    try (intros Hf; discriminate Hf).
  - destruct (registry l2) as [reg|] eqn:Hreg2.
    + split; [rewrite Hreg; eauto|]. intros Hl Hnot. pose proof (Hkept Hnot) as Hsame.
      congruence.
    + destruct Hreg as (Hnew & Hsome). split; [exact Hsome|]. intros _ _. exact Hnew.
  - intros _. destruct (registry l2) as [reg|] eqn:Hreg2; [contradiction|].
    split; [exact Hreg|]. exact (Hnone eq_refl).
Qed.

(** Of an option given more than once the last one counts, and a setting
    no option names keeps the value it had: after a [parse_options] that
    returns, the brokers, the slot, the connection string, the topic prefix,
    the output format and the error policy are those of the last option
    that names them, the two flags are set exactly if they were or an option
    sets them, and nothing else of the producer has changed. *)
Lemma parse_options_last_option_wins (l l' : launch) (argv : command_line) :
  parse l argv = Proceeds l' ->
  let seen := before_end (getopt_results argv) in
  brokers l' = default (brokers l) (last_arg (chr "b") seen) /\
  slot_name (client l') = default (slot_name (client l)) (last_arg (chr "s") seen) /\
  conninfo (client l') =
    match last_arg (chr "d") seen with
    | Some a => Some a
    | None => conninfo (client l)
    end /\
  topic_prefix l' =
    match last_arg (chr "p") seen with
    | Some a => Some a
    | None => topic_prefix l
    end /\
  allow_unkeyed (client l') = allow_unkeyed (client l) || has_option (chr "u") seen /\
  skip_snapshot (client l') = skip_snapshot (client l) || has_option (chr "x") seen /\
  output_format (producer l') =
    match last_arg (chr "f") seen with
    | Some a => format_of_arg a
    | None => output_format (producer l)
    end /\
  error_policy (producer l') =
    match last_arg (chr "e") seen with
    | Some a => policy_of a
    | None => error_policy (producer l)
    end /\
  producer l' =
    with_error_policy (with_output_format (producer l) (output_format (producer l')))
      (error_policy (producer l')).
Proof.
  intros Hparse seen.
  destruct (parse_options_after_loop _ _ _ Hparse) as (l2 & Hloop & _ & _ & Hl' & _).
  destruct (parse_options_loop_settings _ _ _ Hloop)
    as (Hb & Hs & Hd & Hp & Hu & Hx & Hf & He & Hprod & _).
  fold seen in Hb, Hs, Hd, Hp, Hu, Hx, Hf, He.
  rewrite Hl'. cbn [brokers client topic_prefix producer with_registry].
  repeat split; assumption.
Qed.

(** The settings for the broker library reach it in the order of the
    command line: after a [parse_options] that returns, each of the two
    configurations is what it was, followed by the arguments of the options
    [-C] (for the topics: [-T]), each split at its first equals sign, which
    none of them lacks. *)
Lemma parse_options_collects_config_in_order (l l' : launch) (argv : command_line) :
  parse l argv = Proceeds l' ->
  let seen := before_end (getopt_results argv) in
  kafka_conf l' = kafka_conf l ++ settings_of (chr "C") seen /\
  topic_conf l' = topic_conf l ++ settings_of (chr "T") seen /\
  Forall (fun r => getopt_c r = chr "C" \/ getopt_c r = chr "T" ->
                   exists p v, optarg r = p ++ "="%char :: v /\ ~ In "="%char p)
    seen.
Proof.
  intros Hparse seen.
  destruct (parse_options_after_loop _ _ _ Hparse) as (l2 & Hloop & _ & _ & Hl' & _).
  destruct (parse_options_loop_settings _ _ _ Hloop)
    as (_ & _ & _ & _ & _ & _ & _ & _ & _ & HC & HT & _).
  fold seen in HC, HT.
  rewrite Hl'. cbn [kafka_conf topic_conf with_registry].
  split; [exact HC|]. split; [exact HT|].
  pose proof (parse_options_loop_config_splits _ _ _ Hloop) as Hsplits.
  fold seen in Hsplits. eapply Forall_impl; [exact Hsplits|].
  intros r Hr Hcode. cbv beta in Hr. destruct (Hr Hcode) as (p & v & Hpv).
  exists p, v. unfold parse_config_option in Hpv.
  destruct (strchr (optarg r) "=") as [i|] eqn:Hi; [|discriminate].
  injection Hpv as <- <-. apply strchr_found, Hi.
Qed.

(** [parse_options] ends the process with status 0 or 1 and no other, and
    with 0 only if the command line asks for help, by [-h] or by
    [--config-help]. *)
Lemma parse_options_exit_status (l : launch) (argv : command_line) (status : Z)
    (stderr : list diagnostic) :
  parse l argv = Exits status stderr ->
  let seen := before_end (getopt_results argv) in
  (status = 0 \/ status = 1) /\
  (status = 0 -> has_option (chr "h") seen || has_option 1 seen = true).
Proof.
  unfold parse_options.
  destruct (loop (getopt_results argv) l) as [l2|s1 d1] eqn:Hloop; cbn [and_then].
  - intros Htail.
    assert (status = 1) as ->; [|split; [auto | discriminate]].
    destruct (_ || _); [injection Htail as <- _; reflexivity|].
    unfold init_schema_registry in Htail.
    destruct (output_format (producer l2)), (registry l2); try discriminate;
      try (injection Htail as <- _; reflexivity).
    destruct (schema_registry_new _); [discriminate|].
    injection Htail as <- _. reflexivity.
  - intros [= <- <-]. exact (parse_options_loop_exit _ _ _ _ Hloop).
Qed.

End OptionsProperties.

Lemma error_policy_name_round_trip_witness :
  exists l',
    set_error_policy c_log c_exit initial_launch
      (error_policy_name c_log c_exit ERROR_POLICY_LOG) = Proceeds l' /\
    error_policy (producer l') = ERROR_POLICY_LOG /\
    error_policy_calls (client l') = [c_log; c_exit].
Proof.
  assert (c_log <> c_exit) as Hnames by discriminate.
  assert (ERROR_POLICY_LOG <> ERROR_POLICY_UNDEFINED) as Hdefined by discriminate.
  destruct (error_policy_name_round_trip c_log c_exit initial_launch ERROR_POLICY_LOG
              Hnames Hdefined) as (l' & Hset & Hpolicy & _ & Hcalls).
  exists l'. split; [exact Hset|]. split; [exact Hpolicy | exact Hcalls].
Defined.

Lemma sample_command_line_parses :
  parse_options c_log c_exit registry_at accept_setting accept_setting
    initial_launch sample_command_line = Proceeds sample_launch.
Proof. vm_compute. reflexivity. Qed.

Lemma parse_options_returns_usable_settings_witness :
  parse_options c_log c_exit registry_at accept_setting accept_setting
    initial_launch sample_command_line = Proceeds sample_launch /\
  is_Some (conninfo (client sample_launch)) /\
  registry sample_launch = Some (mk_registry DEFAULT_SCHEMA_REGISTRY).
Proof.
  pose proof sample_command_line_parses as Hparse.
  destruct (parse_options_returns_usable_settings c_log c_exit registry_at accept_setting
              accept_setting initial_launch sample_launch sample_command_line Hparse)
    as (Hconn & _ & Havro & _).
  split; [exact Hparse|]. split; [exact Hconn|].
  destruct (Havro eq_refl) as (_ & Hdefault). exact (Hdefault eq_refl eq_refl).
Defined.

Lemma parse_options_last_option_wins_witness :
  parse_options c_log c_exit registry_at accept_setting accept_setting
    initial_launch sample_command_line = Proceeds sample_launch /\
  brokers sample_launch = list_ascii_of_string "k2:9092" /\
  slot_name (client sample_launch) = list_ascii_of_string "bottledwater" /\
  output_format (producer sample_launch) = OUTPUT_FORMAT_AVRO /\
  error_policy (producer sample_launch) = ERROR_POLICY_LOG.
Proof.
  pose proof sample_command_line_parses as Hparse.
  destruct (parse_options_last_option_wins c_log c_exit registry_at accept_setting
              accept_setting initial_launch sample_launch sample_command_line Hparse)
    as (Hb & Hs & _ & _ & _ & _ & Hf & He & _).
  split; [exact Hparse|]. split; [exact Hb|]. split; [exact Hs|].
  split; [exact Hf | exact He].
Defined.

Lemma parse_options_collects_config_in_order_witness :
  parse_options c_log c_exit registry_at accept_setting accept_setting
    initial_launch sample_command_line = Proceeds sample_launch /\
  kafka_conf sample_launch =
    [(list_ascii_of_string "a", list_ascii_of_string "b=c")] /\
  topic_conf sample_launch =
    [(list_ascii_of_string "produce.offset.report", list_ascii_of_string "true");
     (list_ascii_of_string "x", list_ascii_of_string "y")].
Proof.
  pose proof sample_command_line_parses as Hparse.
  destruct (parse_options_collects_config_in_order c_log c_exit registry_at
              accept_setting accept_setting initial_launch sample_launch
              sample_command_line Hparse)
    as (HC & HT & _).
  split; [exact Hparse|]. split; [exact HC | exact HT].
Defined.

Lemma parse_options_exit_status_witness :
  parse_options c_log c_exit registry_at accept_setting accept_setting
    initial_launch help_command_line = Exits 0 [ConfigProperties] /\
  has_option (chr "h") (getopt_results help_command_line)
  || has_option 1 (getopt_results help_command_line) = true.
Proof.
  assert (parse_options c_log c_exit registry_at accept_setting accept_setting
            initial_launch help_command_line = Exits 0 [ConfigProperties]) as Hparse
    by (vm_compute; reflexivity).
  destruct (parse_options_exit_status c_log c_exit registry_at accept_setting
              accept_setting initial_launch help_command_line 0 [ConfigProperties] Hparse)
    as (_ & Hhelp).
  split; [exact Hparse | exact (Hhelp eq_refl)].
Defined.

(** ** How the callbacks end the process *)

Lemma fatal_error_explained {A} (c : producer_context) (txt : log_text) :
  exit_explained (@fatal_error A c txt).
Proof.
  intros status c' H. unfold fatal_error, exit_nicely in H. injection H as <- <-.
  left. split; [reflexivity|]. exists txt, (log c).
  change (negb (1 =? 0)) with true. rewrite andb_true_r. cbn zeta.
  change (taking_snapshot (write_log LOG_FATAL txt c)) with (taking_snapshot c).
  change (slot_drop_err (write_log LOG_INFO TxtDroppingSlot (write_log LOG_FATAL txt c)))
    with (slot_drop_err c).
  unfold slot_drop_lines.
  destruct (taking_snapshot c) eqn:Hsnap; [|cbn; rewrite Hsnap; reflexivity].
  destruct (slot_drop_err c =? 0) eqn:Hdrop; unfold write_log, with_log; cbn;
    rewrite Hsnap, Hdrop; reflexivity.
Qed.

Lemma returned_explained {A} (r : A) (c : producer_context) :
  exit_explained (Returned r c).
Proof. intros status c' H. discriminate H. Qed.

Lemma blocked_explained {A} (c : producer_context) :
  exit_explained (@Blocked A c).
Proof. intros status c' H. discriminate H. Qed.

Lemma exited_explained {A B} (status : Z) (c : producer_context) :
  exit_explained (@Exited A status c) -> exit_explained (@Exited B status c).
Proof. intros H s c' [= <- <-]. exact (H _ _ eq_refl). Qed.

Lemma bind_explained {A B} (o : outcome A) (k : A -> producer_context -> outcome B) :
  exit_explained o ->
  (forall r c, exit_explained (k r c)) ->
  exit_explained (bind o k).
Proof.
  intros Ho Hk. destruct o as [r c|s c|c]; cbn [bind].
  - apply Hk.
  - intros status c' [= <- <-]. exact (Ho _ _ eq_refl).
  - apply blocked_explained.
Qed.

Lemma handle_error_explained (c : producer_context) (err : Z) (txt : log_text) :
  exit_explained (handle_error c err txt).
Proof.
  unfold handle_error. destruct (error_policy c);
    auto using fatal_error_explained, returned_explained.
Qed.

Lemma on_deliver_msg_explained (c : producer_context) (msg : rd_kafka_message) :
  exit_explained (on_deliver_msg c msg).
Proof.
  unfold on_deliver_msg. apply bind_explained.
  - destruct (negb _); auto using handle_error_explained, returned_explained.
  - intros. apply returned_explained.
Qed.

Lemma rd_kafka_poll_explained (reports : list (nat * Z)) :
  forall c, exit_explained (rd_kafka_poll reports c).
Proof.
  induction reports as [|[i e] rest IH]; intros c; cbn [rd_kafka_poll].
  - apply returned_explained.
  - destruct (kafka_queue c !! i) as [m|]; [|apply IH].
    pose proof (on_deliver_msg_explained
                  (with_kafka_queue c (delete i (kafka_queue c)))
                  (mk_message (msg_rkt m) (msg_payload m) (msg_key m) (msg_private m) e))
      as Hd.
    destruct (on_deliver_msg _ _) as [r c1|s c1|c1];
      [apply IH | exact Hd | apply blocked_explained].
Qed.

Lemma backpressure_explained (c : producer_context) (env : poll_env) :
  exit_explained (backpressure c env).
Proof.
  unfold backpressure. apply bind_explained; [apply rd_kafka_poll_explained|].
  intros _ c1. destruct (negb (shutdown_signal env =? 0)) eqn:Hsig.
  - intros status c' [= <- <-]. right. split; [reflexivity|].
    exists (shutdown_signal env), (log c1). split; [|rewrite andb_false_r; reflexivity].
    apply negb_true_iff, Z.eqb_neq in Hsig. exact Hsig.
  - destruct (negb (keepalive_err env =? 0));
      [apply fatal_error_explained | apply returned_explained].
Qed.

Lemma await_free_slot_explained (polls : list poll_env) :
  forall c, exit_explained (await_free_slot polls c).
Proof.
  induction polls as [|env rest IH]; intros c; cbn [await_free_slot];
    destruct (xact_list_full c); auto using returned_explained, blocked_explained.
  pose proof (backpressure_explained c env) as Hb.
  destruct (backpressure c env) as [r c1|s c1|c1];
    [apply IH | exact Hb | apply blocked_explained].
Qed.

Lemma on_begin_txn_explained (c : producer_context) (wal_pos xid : Z)
    (polls : list poll_env) :
  exit_explained (on_begin_txn c wal_pos xid polls).
Proof.
  unfold on_begin_txn. apply bind_explained.
  - destruct (xid =? 0); [destruct (negb _)|];
      auto using fatal_error_explained, returned_explained.
  - intros _ c1. apply bind_explained; [apply await_free_slot_explained|].
    intros. apply returned_explained.
Qed.

Lemma on_commit_txn_explained (c : producer_context) (wal_pos xid : Z) :
  exit_explained (on_commit_txn c wal_pos xid).
Proof.
  unfold on_commit_txn. destruct (negb _);
    auto using fatal_error_explained, returned_explained.
Qed.

Lemma produce_loop_explained (table : table_metadata) (key val : option buffer)
    (envelope : msg_envelope) (script : list produce_attempt) :
  forall c, exit_explained (produce_loop script c table key val envelope).
Proof.
  induction script as [|a rest IH]; intros c; cbn [produce_loop];
    [apply blocked_explained|].
  destruct (errno_queue_full a).
  - match goal with
    | |- context [backpressure ?c1 ?env] =>
        pose proof (backpressure_explained c1 env) as Hb;
        destruct (backpressure c1 env) as [r c2|s c2|c2]
    end; [|exact (exited_explained _ _ Hb) | apply blocked_explained].
    destruct (produce_err a =? 0); [apply returned_explained | apply IH].
  - destruct (negb _); apply returned_explained.
Qed.

Section ExitsOfProducer.

Variable FRAME_READER_SYNC_PENDING : Z.
Variable json_encode_msg :
  table_metadata -> option buffer -> option buffer -> Z * option buffer * option buffer.
Variable schema_registry_encode_msg :
  Z -> Z -> option buffer -> option buffer -> Z * option buffer * option buffer.

Lemma send_kafka_msg_explained (c : producer_context) (wal_pos relid : Z)
    (key_bin val_bin : option buffer) (script : list produce_attempt) :
  exit_explained
    (send_kafka_msg json_encode_msg schema_registry_encode_msg c wal_pos relid key_bin
       val_bin script).
Proof.
  unfold send_kafka_msg. destruct (table_mapper_lookup _ _) as [table|];
    [|apply returned_explained].
  destruct (output_format _).
  - apply fatal_error_explained.
  - destruct (schema_registry_encode_msg _ _ _ _) as [[err key] val].
    destruct (negb _); [apply returned_explained | apply produce_loop_explained].
  - destruct (json_encode_msg _ _ _) as [[err key] val].
    destruct (negb _); [apply returned_explained | apply produce_loop_explained].
Qed.

Lemma feed_explained (e : event) (c : producer_context) :
  exit_explained
    (feed FRAME_READER_SYNC_PENDING json_encode_msg schema_registry_encode_msg e c).
Proof.
  destruct e; cbn [feed].
  - apply on_begin_txn_explained.
  - apply on_commit_txn_explained.
  - apply send_kafka_msg_explained.
  - apply send_kafka_msg_explained.
  - unfold on_delete_row. destruct key_bin;
      [apply send_kafka_msg_explained | apply returned_explained].
  - unfold on_keepalive. destruct (xact_list_empty c); apply returned_explained.
  - unfold table_schema_updated. destruct (update_ok answer); apply returned_explained.
  - apply handle_error_explained.
  - apply bind_explained; [apply rd_kafka_poll_explained|].
    intros. apply returned_explained.
Qed.

(** When the callbacks end the process, the log says why: the status is
    1 and the newest lines are a fatal message and, above it and only if a
    snapshot was in progress, the notice that the replication slot is
    dropped, with an error on top if the drop failed; or the status is 0
    and the newest line tells of the signal that interrupted
    [backpressure].  No other status occurs. *)
Lemma exit_leaves_its_reason_in_the_log (es : list event) (c c' : producer_context)
    (status : Z) :
  feed_all FRAME_READER_SYNC_PENDING json_encode_msg schema_registry_encode_msg es c
  = Exited status c' ->
  (status = 1 /\
   exists txt rest,
     log c' = (if taking_snapshot c'
               then (if slot_drop_err c' =? 0 then [] else [(LOG_ERROR, TxtSlotDropFailed)])
                    ++ [(LOG_INFO, TxtDroppingSlot)]
               else [])
              ++ (LOG_FATAL, txt) :: rest) \/
  (status = 0 /\
   exists sig rest,
     sig <> 0 /\ log c' = (LOG_INFO, TxtShutdownDuringBackpressure sig) :: rest).
Proof.
  revert c. induction es as [|e rest IH]; intros c; cbn [feed_all]; [discriminate|].
  pose proof (feed_explained e c) as He.
  destruct (feed _ _ _ e c) as [r c1|s c1|c1]; [| |discriminate].
  - destruct (_ || _); [apply IH | discriminate].
  - intros [= <- <-]. exact (He _ _ eq_refl).
Qed.

End ExitsOfProducer.

Lemma exit_leaves_its_reason_in_the_log_witness :
  feed_all 1 verbatim_encode_msg framing_encode_msg [Delivery [(0%nat, 5)]]
    context_snapshot_undroppable = Exited 1 context_snapshot_failed /\
  taking_snapshot context_snapshot_failed = true /\
  slot_drop_err context_snapshot_failed = 1 /\
  exists txt rest,
    log context_snapshot_failed =
      (if taking_snapshot context_snapshot_failed
       then (if slot_drop_err context_snapshot_failed =? 0
             then [] else [(LOG_ERROR, TxtSlotDropFailed)])
            ++ [(LOG_INFO, TxtDroppingSlot)]
       else [])
      ++ (LOG_FATAL, txt) :: rest.
Proof.
  assert (feed_all 1 verbatim_encode_msg framing_encode_msg [Delivery [(0%nat, 5)]]
            context_snapshot_undroppable = Exited 1 context_snapshot_failed) as Hfeed
    by (vm_compute; reflexivity).
  split; [exact Hfeed|]. split; [reflexivity|]. split; [reflexivity|].
  destruct (exit_leaves_its_reason_in_the_log 1 verbatim_encode_msg framing_encode_msg
              [Delivery [(0%nat, 5)]] context_snapshot_undroppable
              context_snapshot_failed 1 Hfeed)
    as [(_ & Hfatal) | (Hzero & _)]; [exact Hfatal | discriminate Hzero].
Defined.
